(** * COMTiles: index geometry, archive writer and archive reader

    A shallow embedding of the COMTiles provider ([comtIndex.ts], the
    [ComtCache] reader and its [utils]) and of the MBTiles converter
    ([writeIndex], the two fragment encoders, the tile matrix factory).

    Conventions of the embedding.
    - A JavaScript [number] that holds an integer is a [Z]; all the
      arithmetic of the modelled code stays on integers below [2^53], where
      IEEE doubles are exact.  The 32-bit operators ([&], [>>], [<<]) are
      written out with their wrap-around ([ToInt32]).
    - A byte is a [Z] in [0,256); an [ArrayBuffer], [Uint8Array] or Node
      [Buffer] is a [list Z].  The JSON text of the metadata is the list of
      its UTF-16 code units.
    - A [throw] is the [Throw] constructor of [result]; code that calls
      throwing code is sequenced with the bind of that monad.
    - [await] is sequencing: the reader is modelled for one request at a
      time, the object store is the list of the archive's bytes. *)

From Stdlib Require Import ZArith Lia Ascii String DecimalString.
From stdpp Require Import base list gmap strings.

Local Open Scope Z_scope.

(** ** Exceptions and the error monad *)

Inductive exn : Type :=
| RangeError              (* DataView/Buffer access or value out of range *)
| TypeError               (* property read on [undefined] *)
| NotANumber              (* a [NaN] reached a place that needs an integer *)
| Error (msg : string).   (* [throw new Error(msg)] *)

Inductive result (A : Type) : Type :=
| Ok (a : A)
| Throw (e : exn).
Arguments Ok {A} a.
Arguments Throw {A} e.

Global Instance result_ret : MRet result := fun A a => Ok a.
Global Instance result_bind : MBind result := fun A B f m =>
  match m with
  | Ok a => f a
  | Throw e => Throw e
  end.

Definition isOk {A} (r : result A) : bool :=
  match r with Ok _ => true | Throw _ => false end.

(** [for (const x of l) { st = body(st, x) }] with a body that may throw. *)
Fixpoint forEach {St A : Type} (body : St -> A -> result St) (l : list A)
  (st : St) : result St :=
  match l with
  | [] => Ok st
  | x :: l' => st' ← body st x; forEach body l' st'
  end.

(** ** JavaScript numbers *)

Module JS.

(** [ToInt32]: the operand conversion of the bitwise operators. *)
Definition ToInt32 (v : Z) : Z := (v + 2 ^ 31) mod 2 ^ 32 - 2 ^ 31.

(** [a & b] *)
Definition band (a b : Z) : Z := Z.land (ToInt32 a) (ToInt32 b).

(** [a >> n]: sign-propagating, the count is taken modulo 32. *)
Definition shr (a n : Z) : Z := Z.shiftr (ToInt32 a) (n mod 32).

(** [a << n]: the result wraps to 32 bits. *)
Definition shl (a n : Z) : Z := ToInt32 (Z.shiftl (ToInt32 a) (n mod 32)).

(** [2 ** c] for an integer [c >= 0]. *)
Definition pow2 (c : Z) : Z := 2 ^ c.

(** [Math.floor(a / b)] for integers [a] and [b > 0]. *)
Definition floorDiv (a b : Z) : Z := a / b.

(** [Math.ceil(a / b)] for integers [a] and [b > 0]. *)
Definition ceilDiv (a b : Z) : Z := - ((- a) / b).

(** [Math.round(a / b)] for integers [a] and [b > 0]: the nearest integer,
    a half rounded up, which is [floor(a/b + 1/2)]. *)
Definition roundDiv (a b : Z) : Z := (2 * a + b) / (2 * b).

(** [x || d] on numbers: [0] is falsy. *)
Definition orElse (x d : Z) : Z := if x =? 0 then d else x.

(** [x || d] where [x] may be [undefined]. *)
Definition orElseOpt (x : option Z) (d : Z) : Z :=
  match x with
  | Some v => orElse v d
  | None => d
  end.

(** [a > b] where either side may be [undefined]: a comparison with
    [undefined] (which converts to [NaN]) is false. *)
Definition gtOpt (a b : option Z) : bool :=
  match a, b with
  | Some x, Some y => y <? x
  | _, _ => false
  end.

Definition hexDigit (d : Z) : ascii :=
  match d with
  | 0 => "0" | 1 => "1" | 2 => "2" | 3 => "3" | 4 => "4" | 5 => "5"
  | 6 => "6" | 7 => "7" | 8 => "8" | 9 => "9" | 10 => "a" | 11 => "b"
  | 12 => "c" | 13 => "d" | 14 => "e" | _ => "f"
  end%char.

Fixpoint toHex (fuel : nat) (v : Z) (acc : list ascii) : list ascii :=
  match fuel with
  | O => acc
  | S fuel' =>
      if v <? 16 then hexDigit v :: acc
      else toHex fuel' (v / 16) (hexDigit (v mod 16) :: acc)
  end.

(** [v.toString(16)] for an integer [v >= 0]. *)
Definition toString16 (v : Z) : list ascii :=
  toHex (S (Z.to_nat (Z.log2 v))) v [].

(** [s.slice(-n)]: the last [n] characters. *)
Definition sliceLast (n : nat) (s : list ascii) : list ascii :=
  drop (length s - n)%nat s.

Definition hexValue (c : ascii) : option Z :=
  let n := Z.of_N (N_of_ascii c) in
  if (48 <=? n) && (n <=? 57) then Some (n - 48)
  else if (97 <=? n) && (n <=? 102) then Some (n - 87)
  else if (65 <=? n) && (n <=? 70) then Some (n - 55)
  else None.

Fixpoint parseHexFrom (s : list ascii) (acc : Z) : Z :=
  match s with
  | [] => acc
  | c :: s' =>
      match hexValue c with
      | Some d => parseHexFrom s' (acc * 16 + d)
      | None => acc
      end
  end.

(** [parseInt(s, 16)] on a string that has neither leading white space,
    sign nor [0x] prefix: the longest prefix of hexadecimal digits, [NaN]
    when it is empty. *)
Definition parseInt16 (s : list ascii) : result Z :=
  match s with
  | [] => Throw NotANumber
  | c :: _ =>
      match hexValue c with
      | Some _ => Ok (parseHexFrom s 0)
      | None => Throw NotANumber
      end
  end.

(** [a | b] *)
Definition bor (a b : Z) : Z := Z.lor (ToInt32 a) (ToInt32 b).

(** [a % b] on integers: the remainder has the sign of [a]. *)
Definition rem (a b : Z) : Z := Z.rem a b.

(** The decimal digits of an integer, as a template literal prints it. *)
Definition toString (v : Z) : string := NilZero.string_of_int (Z.to_int v).

End JS.

(** ** Buffers *)

Abbreviation Buffer := (list Z).

(** A JavaScript string is the list of its UTF-16 code units; its [length]
    is their number. *)
Abbreviation CodeUnits := (list Z) (only parsing).

Module DataView.

(** [view.getUint8(off)]; a [RangeError] outside the buffer. *)
Definition getUint8 (b : Buffer) (off : Z) : result Z :=
  if off <? 0 then Throw RangeError
  else match b !! Z.to_nat off with
       | Some v => Ok v
       | None => Throw RangeError
       end.

(** [view.getUint32(off, true)]: little-endian. *)
Definition getUint32LE (b : Buffer) (off : Z) : result Z :=
  b0 ← getUint8 b off;
  b1 ← getUint8 b (off + 1);
  b2 ← getUint8 b (off + 2);
  b3 ← getUint8 b (off + 3);
  Ok (b0 + b1 * 2 ^ 8 + b2 * 2 ^ 16 + b3 * 2 ^ 24).

End DataView.

Module NodeBuffer.

(** [Buffer.alloc(n)]: [n] zero bytes; a negative size is refused. *)
Definition alloc (n : Z) : result Buffer :=
  if n <? 0 then Throw RangeError else Ok (replicate (Z.to_nat n) 0).

(** [buf.writeUint8(value, off)]: Node throws when the value is not a
    byte or the offset lies outside the buffer. *)
Definition writeUint8 (b : Buffer) (value off : Z) : result Buffer :=
  if (0 <=? value) && (value <=? 255) && (0 <=? off)
     && (off <? Z.of_nat (length b))
  then Ok (<[Z.to_nat off := value]> b)
  else Throw RangeError.

(** [src.copy(target, targetStart)]: the bytes of [src] written over
    [target] from [targetStart] on, clipped to the target. *)
Definition copy (src target : Buffer) (targetStart : Z) : Buffer :=
  imap (fun i old =>
          if targetStart <=? Z.of_nat i
          then default old (src !! Z.to_nat (Z.of_nat i - targetStart))
          else old) target.

(** The [n] low bytes of [v], least significant first. *)
Fixpoint le (n : nat) (v : Z) : Buffer :=
  match n with
  | O => []
  | S n' => v mod 256 :: le n' (v / 256)
  end.

(** [buf.writeUInt32LE(v)] on a fresh 4-byte buffer and
    [buf.writeBigUint64LE(BigInt(v))] on a fresh 8-byte buffer. *)
Definition writeUInt32LE (v : Z) : result Buffer :=
  if (0 <=? v) && (v <? 2 ^ 32) then Ok (le 4 v) else Throw RangeError.

Definition writeBigUint64LE (v : Z) : result Buffer :=
  if (0 <=? v) && (v <? 2 ^ 64) then Ok (le 8 v) else Throw RangeError.

(** [buf.fill(src, start, end)] with a buffer as the value: the bytes of
    [src] repeated over [start, end), clipped to the buffer. *)
Definition fill (b src : Buffer) (start end_ : Z) : Buffer :=
  imap (fun i old =>
          if (start <=? Z.of_nat i) && (Z.of_nat i <? end_) then
            default old (src !! (Z.to_nat (Z.of_nat i - start)
                                 mod length src)%nat)
          else old) b.

(** [buf[i]] where a number is expected: outside the buffer it is
    [undefined], which the bitwise operators take for 0. *)
Definition index (b : Buffer) (i : Z) : Z :=
  if i <? 0 then 0 else default 0 (b !! Z.to_nat i).

Definition isHighSurrogate (u : Z) : bool := (55296 <=? u) && (u <=? 56319).
Definition isLowSurrogate (u : Z) : bool := (56320 <=? u) && (u <=? 57343).

(** The UTF-8 bytes of one code point. *)
Definition utf8CodePoint (c : Z) : Buffer :=
  if c <? 128 then [c]
  else if c <? 2048 then [192 + c / 64; 128 + c mod 64]
  else if c <? 65536 then [224 + c / 4096; 128 + (c / 64) mod 64; 128 + c mod 64]
  else [240 + c / 262144; 128 + (c / 4096) mod 64; 128 + (c / 64) mod 64;
        128 + c mod 64].

(** U+FFFD, which stands for a surrogate that is not half of a pair. *)
Definition replacement : Buffer := [239; 191; 189].

(** The bytes that [stream.write(s, "utf-8")] sends ([Buffer.from(s,
    "utf-8")]): a high surrogate followed by a low one is one code point of
    four bytes, every other code unit is a code point of its own. *)
Fixpoint utf8 (s : CodeUnits) : Buffer :=
  match s with
  | [] => []
  | u :: rest =>
      if isHighSurrogate u then
        match rest with
        | v :: rest' =>
            if isLowSurrogate v
            then utf8CodePoint (65536 + (u - 55296) * 1024 + (v - 56320)) ++ utf8 rest'
            else replacement ++ utf8 rest
        | [] => replacement
        end
      else if isLowSurrogate u then replacement ++ utf8 rest
      else utf8CodePoint u ++ utf8 rest
  end.

End NodeBuffer.

(** ** Provider utilities ([utils.ts] of the provider) *)

Module Utils.

Definition convertUInt40LEToNumber (buffer : Buffer) (offset : Z) : result Z :=
  hi ← DataView.getUint32LE buffer (offset + 1);
  lo ← DataView.getUint8 buffer offset;
  Ok (hi * 256 + lo).

(** [("00" + v.toString(16)).slice(-2)] *)
Definition hex2 (v : Z) : list ascii :=
  JS.sliceLast 2 (["0"; "0"]%char ++ JS.toString16 v).

Definition convertUInt24LEToNumber (buffer : Buffer) (offset : Z) : result Z :=
  off0 ← DataView.getUint8 buffer offset;
  off1 ← DataView.getUint8 buffer (offset + 1);
  off2 ← DataView.getUint8 buffer (offset + 2);
  let off0S := hex2 off0 in
  let off1S := hex2 off1 in
  let off2S := hex2 off2 in
  let offLE := off2S ++ off1S ++ off0S in
  JS.parseInt16 offLE.

End Utils.

(** ** Converter utilities and fragment encoding *)

Module Encoder.

(** Modelled from the spec: [toBytesLE] of the converter's [utils.ts],
    which is not part of the sources at hand.  The spec describes it as the
    little-endian writer of the 3-byte and 5-byte fields, whose value "must
    fit"; a value that does not fit the width is an error. *)
Definition toBytesLE (num numBytes : Z) : result Buffer :=
  if (0 <=? num) && (num <? 256 ^ numBytes)
  then Ok (NodeBuffer.le (Z.to_nat numBytes) num)
  else Throw RangeError.

(** Modelled from the spec: [fragmentSettings] of the provider package,
    not part of the sources at hand; the absolute offset of a fragment is
    5 bytes, 40 bits, wide. *)
Definition indexOffsetBitWidth : Z := 40.
Definition indexOffsetByteWidth : Z := 5.

(** One turn of the loop of [encodeFragmentByteAligned]; the state is the
    buffer and [fragmentBufferIndex]. *)
Definition encodeTileSize (st : Buffer * Z) (tileSize : Z)
  : result (Buffer * Z) :=
  let '(fragmentBuffer, fragmentBufferIndex) := st in
  let firstByte := JS.band tileSize 255 in
  b1 ← NodeBuffer.writeUint8 fragmentBuffer firstByte fragmentBufferIndex;
  let secondByte := JS.band (JS.shr tileSize 8) 255 in
  b2 ← NodeBuffer.writeUint8 b1 secondByte (fragmentBufferIndex + 1);
  let thirdByte := JS.shr tileSize 16 in
  b3 ← NodeBuffer.writeUint8 b2 thirdByte (fragmentBufferIndex + 2);
  Ok (b3, fragmentBufferIndex + 3).

Definition encodeFragmentByteAligned (absoluteOffset : Z) (tileSizes : list Z)
  : result Buffer :=
  let fragmentBitLength :=
    indexOffsetBitWidth + Z.of_nat (length tileSizes) * 24 in
  let fragmentByteLength := JS.ceilDiv fragmentBitLength 8 in
  fragmentBuffer ← NodeBuffer.alloc fragmentByteLength;
  absoluteOffsetBuffer ← toBytesLE absoluteOffset indexOffsetByteWidth;
  let fragmentBuffer :=
    NodeBuffer.fill fragmentBuffer absoluteOffsetBuffer 0 indexOffsetByteWidth in
  st ← forEach encodeTileSize tileSizes (fragmentBuffer, indexOffsetByteWidth);
  Ok (fst st).

End Encoder.

(** [encodeIndexFragmentBitAligned] of the same file.  The two constants of
    [fragmentSettings.bitAlignedFragment], which is not part of the
    sources at hand, are parameters. *)
Module BitAligned.

Section Settings.

Variable indexEntryBitWidth : Z.
Variable maxTileSize : Z.

(** One turn of the loop; the state is the buffer and [bitCounter]. *)
Definition encodeTileSize (st : Buffer * Z) (tileSize : Z) : result (Buffer * Z) :=
  let '(indexFragmentBuffer, bitCounter) := st in
  if maxTileSize <? tileSize
  then Throw (Error ("Only tile size up to " ++ JS.toString maxTileSize
                     ++ " is supported xin the current implementation."))
  else
    let byteStartIndex := JS.floorDiv bitCounter 8 in
    let bitOffset := JS.rem bitCounter 8 in
    if bitOffset =? 0 then
      let firstByte :=
        JS.bor (NodeBuffer.index indexFragmentBuffer byteStartIndex)
          (JS.band (JS.shl tileSize 4) 255) in
      b1 ← NodeBuffer.writeUint8 indexFragmentBuffer firstByte byteStartIndex;
      let secondByte := JS.band (JS.shr tileSize 4) 255 in
      b2 ← NodeBuffer.writeUint8 b1 secondByte (byteStartIndex + 1);
      let thirdByte := JS.shr tileSize 12 in
      b3 ← NodeBuffer.writeUint8 b2 thirdByte (byteStartIndex + 2);
      Ok (b3, bitCounter + indexEntryBitWidth)
    else
      let firstByte := JS.band tileSize 255 in
      b1 ← NodeBuffer.writeUint8 indexFragmentBuffer firstByte byteStartIndex;
      let secondByte := JS.band (JS.shr tileSize 8) 255 in
      b2 ← NodeBuffer.writeUint8 b1 secondByte (byteStartIndex + 1);
      let thirdByte := JS.shr tileSize 16 in
      b3 ← NodeBuffer.writeUint8 b2 thirdByte (byteStartIndex + 2);
      Ok (b3, bitCounter + indexEntryBitWidth).

Definition encodeIndexFragmentBitAligned (absoluteOffset : Z) (tileSizes : list Z)
  : result Buffer :=
  let indexFragmentBitLength :=
    Encoder.indexOffsetBitWidth + Z.of_nat (length tileSizes) * indexEntryBitWidth in
  let indexFragmentByteLength := JS.ceilDiv indexFragmentBitLength 8 in
  indexFragmentBuffer ← NodeBuffer.alloc indexFragmentByteLength;
  absoluteOffsetBuffer ← Encoder.toBytesLE absoluteOffset Encoder.indexOffsetByteWidth;
  let indexFragmentBuffer :=
    NodeBuffer.fill indexFragmentBuffer absoluteOffsetBuffer 0
      Encoder.indexOffsetByteWidth in
  st ← forEach encodeTileSize tileSizes
         (indexFragmentBuffer, Encoder.indexOffsetBitWidth);
  Ok (fst st).

End Settings.

End BitAligned.

(** ** Metadata ([@com-tiles/spec]) *)

Record TileMatrixLimits : Type := {
  minTileCol : Z;
  minTileRow : Z;
  maxTileCol : Z;
  maxTileRow : Z;
}.

Record TileMatrix : Type := {
  zoom : Z;
  aggregationCoefficient : Z;
  tileMatrixLimits : TileMatrixLimits;
}.

(** An absent property of the JSON document ([undefined]) is [None]. *)
Record TileMatrixSet : Type := {
  tileMatrixCRS : option string;
  fragmentOrdering : option string;
  tileOrdering : option string;
  tileMatrix : list TileMatrix;
}.

Record Metadata : Type := {
  tileFormat : string;
  tileMatrixSet : TileMatrixSet;
}.

(** [s.trim().toLowerCase()] on ASCII text. *)
Module Text.

Definition isWhiteSpace (c : ascii) : bool :=
  let n := N_of_ascii c in
  ((9 <=? n) && (n <=? 13) || (n =? 32))%N.

Fixpoint trimStart (s : list ascii) : list ascii :=
  match s with
  | c :: s' => if isWhiteSpace c then trimStart s' else s
  | [] => []
  end.

Definition trim (s : string) : string :=
  string_of_list_ascii
    (rev (trimStart (rev (trimStart (String.list_ascii_of_string s))))).

Definition lower (c : ascii) : ascii :=
  let n := N_of_ascii c in
  if ((65 <=? n) && (n <=? 90))%N then ascii_of_N (n + 32) else c.

Definition toLowerCase (s : string) : string :=
  string_of_list_ascii (map lower (String.list_ascii_of_string s)).

End Text.

(** ** The tile matrix factory of the converter ([tileMatrixFactory.ts]) *)

Module TileMatrixFactory.

Definition WMQ_TILE_MATRIX_CRS : string := "WebMercatorQuad".
Definition DEFAULT_SFC : string := "RowMajor".

(** [createWmqTileMatrixSet]: an ordering that is not passed ([None]) takes
    the default. *)
Definition createWmqTileMatrixSet (tileMatrices : list TileMatrix)
  (fragmentOrdering tileOrdering : option string) : TileMatrixSet :=
  {| tileMatrixCRS := Some WMQ_TILE_MATRIX_CRS;
     fragmentOrdering := Some (default DEFAULT_SFC fragmentOrdering);
     tileOrdering := Some (default DEFAULT_SFC tileOrdering);
     tileMatrix := tileMatrices |}.

(** [TileMatrixFactory.createWebMercatorQuad]: the aggregation coefficient
    defaults to 6. *)
Definition createWebMercatorQuad (zoom : Z) (limits : TileMatrixLimits)
  (aggregationCoefficient : option Z) : TileMatrix :=
  {| zoom := zoom;
     aggregationCoefficient := default 6 aggregationCoefficient;
     tileMatrixLimits :=
       {| minTileCol := minTileCol limits;
          minTileRow := minTileRow limits;
          maxTileCol := maxTileCol limits;
          maxTileRow := maxTileRow limits |} |}.

(** [TileMatrixFactory.createWorldCRS84Quad] *)
Definition createWorldCRS84Quad (zoom : Z) (limits : TileMatrixLimits)
  (aggregationCoefficient : option Z) : result TileMatrix :=
  Throw (Error "Not implemented yet.").

End TileMatrixFactory.

(** ** Index geometry ([comtIndex.ts]) *)

Record FragmentRange : Type := {
  fragmentIndex : Z;
  startOffset : Z;
  endOffset : Z;
}.

Module ComtIndex.

Definition NUM_BYTES_ABSOLUTE_OFFSET : Z := 5.
Definition NUM_BYTES_TILE_SIZE : Z := 3.
Definition Supported_TILE_MATRIX_CRS : string := "WebMercatorQuad".
Definition SUPPORTED_ORDERING : list (option string) := [None; Some "RowMajor"%string].

Definition supportedOrdering (ordering : option string) : bool :=
  existsb (fun o => bool_decide (o = ordering)) SUPPORTED_ORDERING.

(** The constructor: it keeps [metadata.tileMatrixSet] and validates the
    orderings and the CRS. *)
Definition new (metadata : Metadata) : result TileMatrixSet :=
  let tileMatrixSet := tileMatrixSet metadata in
  if negb (forallb supportedOrdering
             [fragmentOrdering tileMatrixSet; tileOrdering tileMatrixSet])
  then Throw (Error "The only supported fragment and tile ordering is ,RowMajor")
  else
    match tileMatrixCRS tileMatrixSet with
    | Some crs =>
        if bool_decide (Text.toLowerCase (Text.trim crs)
                        = Text.toLowerCase Supported_TILE_MATRIX_CRS)
        then Ok tileMatrixSet
        else Throw (Error "The only supported TileMatrixCRS is WebMercatorQuad.")
    | None => Ok tileMatrixSet
    end.

Definition isPyramidSection (zoomTileSet zoom : Z) : bool :=
  zoomTileSet <? zoom.

Definition inRange (x y : Z) (tileSetLimits : TileMatrixLimits) : bool :=
  (minTileCol tileSetLimits <=? x) && (x <=? maxTileCol tileSetLimits)
  && (minTileRow tileSetLimits <=? y) && (y <=? maxTileRow tileSetLimits).

(** [x] and [y] are optional parameters of the source. *)
Definition calculateBounds (aggregationCoefficient : Z)
  (limit : TileMatrixLimits) (x y : option Z) : TileMatrixLimits :=
  let numTilesPerFragmentSide := JS.pow2 aggregationCoefficient in
  let minTileColFragment :=
    JS.floorDiv (JS.orElseOpt x (minTileCol limit)) numTilesPerFragmentSide
    * numTilesPerFragmentSide in
  let minTileRowFragment :=
    JS.floorDiv (JS.orElseOpt y (minTileRow limit)) numTilesPerFragmentSide
    * numTilesPerFragmentSide in
  let denseLimits :=
    {| minTileCol := minTileColFragment;
       minTileRow := minTileRowFragment;
       maxTileCol := minTileColFragment + numTilesPerFragmentSide - 1;
       maxTileRow := minTileRowFragment + numTilesPerFragmentSide - 1 |} in
  match x, y with
  | None, None => denseLimits
  | _, _ =>
      {| minTileCol :=
           if minTileCol denseLimits <? minTileCol limit
           then minTileCol limit else minTileCol denseLimits;
         minTileRow :=
           if minTileRow denseLimits <? minTileRow limit
           then minTileRow limit else minTileRow denseLimits;
         maxTileCol :=
           if maxTileCol limit <? maxTileCol denseLimits
           then maxTileCol limit else maxTileCol denseLimits;
         maxTileRow :=
           if maxTileRow limit <? maxTileRow denseLimits
           then maxTileRow limit else maxTileRow denseLimits |}
  end.

Definition numberOfIndexEntriesBeforeFragment
  (sparseFragmentBounds limit : TileMatrixLimits) : Z :=
  let numTilesLeftBeforeFragment :=
    (minTileCol sparseFragmentBounds - minTileCol limit)
    * (maxTileRow sparseFragmentBounds - minTileRow limit + 1) in
  let numTilesLowBeforeFragment :=
    (maxTileCol limit - minTileCol sparseFragmentBounds + 1)
    * (minTileRow sparseFragmentBounds - minTileRow limit) in
  numTilesLeftBeforeFragment + numTilesLowBeforeFragment.

Definition calculateNumberFragmentsPerZoom (limit : TileMatrixLimits)
  (aggregationCoefficient : Z) : Z :=
  let numTilesPerFragmentSide := JS.pow2 aggregationCoefficient in
  let minTileColFragmentIndex := JS.floorDiv (minTileCol limit) numTilesPerFragmentSide in
  let minTileRowFragmentIndex := JS.floorDiv (minTileRow limit) numTilesPerFragmentSide in
  let maxTileColFragmentIndex := JS.floorDiv (maxTileCol limit) numTilesPerFragmentSide in
  let maxTileRowFragmentIndex := JS.floorDiv (maxTileRow limit) numTilesPerFragmentSide in
  (maxTileColFragmentIndex - minTileColFragmentIndex + 1)
  * (maxTileRowFragmentIndex - minTileRowFragmentIndex + 1).

Definition calculateNumberOfFragmentsBefore (x y : Z)
  (denseFragmentsBounds : TileMatrixLimits) (aggregationCoefficient : Z) : Z :=
  let numTilesPerFragmentSide := JS.pow2 aggregationCoefficient in
  let numFragmentsY :=
    JS.floorDiv (y - minTileRow denseFragmentsBounds) numTilesPerFragmentSide in
  let numFragmentsX :=
    JS.roundDiv (maxTileCol denseFragmentsBounds - minTileCol denseFragmentsBounds)
      numTilesPerFragmentSide in
  let numFragmentsActualRow := (numFragmentsX + 1) * (numFragmentsY + 1) in
  let numFragmentsActualCol :=
    JS.floorDiv (x - minTileCol denseFragmentsBounds) numTilesPerFragmentSide in
  numFragmentsActualRow + numFragmentsActualCol.

Definition calculatePyramidIndexOffsetForTile (limit : TileMatrixLimits)
  (aggregationCoefficient x y zoom offset : Z) : Z :=
  let numRows := y - minTileRow limit in
  let numCols := maxTileCol limit - minTileCol limit + 1 in
  let deltaCol := x - minTileCol limit in
  offset + (numRows * numCols + deltaCol) * NUM_BYTES_TILE_SIZE.

Definition calculateFragmentIndexOffsetForTile (limit : TileMatrixLimits)
  (aggregationCoefficient x y zoom offset : Z) : Z :=
  let sparseFragmentBounds :=
    calculateBounds aggregationCoefficient limit (Some x) (Some y) in
  let numIndexEntriesBeforeFragment :=
    numberOfIndexEntriesBeforeFragment sparseFragmentBounds limit in
  let fullRows :=
    (y - minTileRow sparseFragmentBounds)
    * (maxTileCol sparseFragmentBounds - minTileCol sparseFragmentBounds + 1) in
  let partialRow := x - minTileCol sparseFragmentBounds in
  let numIndexEntries := numIndexEntriesBeforeFragment + fullRows + partialRow in
  offset + numIndexEntries * NUM_BYTES_TILE_SIZE.

(** The callback of the [reduce] in [calculateIndexOffsetForTile]. *)
Definition indexOffsetStep (zoom_ x y : Z) (offset : Z) (ts : TileMatrix)
  : result Z :=
  let limit := tileMatrixLimits ts in
  if (zoom ts =? zoom_) && negb (inRange x y limit)
  then Throw (Error "Specified tile index not part of the TileSet")
  else if isPyramidSection (zoom ts) zoom_ then
    let numTiles :=
      (maxTileCol limit - minTileCol limit + 1)
      * (maxTileRow limit - minTileRow limit + 1) in
    Ok (offset + numTiles * NUM_BYTES_TILE_SIZE)
  else if aggregationCoefficient ts =? -1 then
    Ok (calculatePyramidIndexOffsetForTile limit (aggregationCoefficient ts)
          x y zoom_ offset)
  else
    Ok (calculateFragmentIndexOffsetForTile limit (aggregationCoefficient ts)
          x y zoom_ offset).

(** The result is the pair [{offset, index}]; [offset] is a multiple of 3,
    so that the division is exact. *)
Definition calculateIndexOffsetForTile (tms : TileMatrixSet) (zoom_ x y : Z)
  : result (Z * Z) :=
  offset ← forEach (indexOffsetStep zoom_ x y)
             (filter (fun tm => zoom tm <= zoom_) (tileMatrix tms)) 0;
  let index := offset / NUM_BYTES_TILE_SIZE in
  Ok (offset, index).

(** The body of the loop of [getFragmentRangeForTile]; the state is
    [(fragmentIndex, startOffset, endOffset)]. *)
Definition fragmentRangeStep (zoom_ x y metadataLength pyramidLength : Z)
  (st : FragmentRange) (ts : TileMatrix) : result FragmentRange :=
  let limit := tileMatrixLimits ts in
  if (zoom ts =? zoom_) && negb (inRange x y limit)
  then Throw (Error "Specified tile index not part of the TileSet.")
  else if zoom ts <? zoom_ then
    let numTilesPerZoom :=
      (maxTileCol limit - minTileCol limit + 1)
      * (maxTileRow limit - minTileRow limit + 1) in
    let numFragmentsPerZoom :=
      calculateNumberFragmentsPerZoom limit (aggregationCoefficient ts) in
    Ok {| fragmentIndex := fragmentIndex st + numFragmentsPerZoom;
          startOffset := startOffset st + (numTilesPerZoom * 3 + numFragmentsPerZoom * 5);
          endOffset := endOffset st |}
  else
    let sparseFragmentBounds :=
      calculateBounds (aggregationCoefficient ts) limit (Some x) (Some y) in
    let numIndexEntriesBeforeFragment :=
      numberOfIndexEntriesBeforeFragment sparseFragmentBounds limit in
    let numIndexEntriesInFragment :=
      (maxTileCol sparseFragmentBounds - minTileCol sparseFragmentBounds + 1)
      * (maxTileRow sparseFragmentBounds - minTileRow sparseFragmentBounds + 1) in
    let numFragmentsBefore :=
      calculateNumberOfFragmentsBefore x y limit (aggregationCoefficient ts) - 1 in
    let startOffset' :=
      startOffset st
      + (numFragmentsBefore * 5 + numIndexEntriesBeforeFragment * 3
         + metadataLength + pyramidLength) in
    Ok {| fragmentIndex := fragmentIndex st;
          startOffset := startOffset';
          endOffset := startOffset' + numIndexEntriesInFragment * 3 + 5 |}.

Definition getFragmentRangeForTile (tms : TileMatrixSet)
  (zoom_ x y metadataLength pyramidLength : Z) : result FragmentRange :=
  let filteredSet :=
    filter (fun t => aggregationCoefficient t <> -1 /\ zoom t <= zoom_)
      (tileMatrix tms) in
  forEach (fragmentRangeStep zoom_ x y metadataLength pyramidLength)
    filteredSet
    {| fragmentIndex := 0; startOffset := 0; endOffset := 0 |}.

End ComtIndex.

(** ** The converter ([index.ts] of the MBTiles converter) *)

(** A record of the tile provider's size stream.  [fragmentIndex] is absent
    from the declared [TileInfoRecord]; the writer reads it all the same, so
    it is optional here. *)
Module TileInfo.
Record t : Type := {
  zoom : Z;
  column : Z;
  row : Z;
  size : Z;
  fragmentIndex : option Z;
}.
End TileInfo.

(** The lines the writer sends to its fragment log. *)
Inductive LogLine : Type :=
| LogFragmentOffset (dataSectionOffset : Z)
| LogPadding
| LogEntry (size : Z).

Module Converter.

Definition MAGIC : Buffer := [67; 79; 77; 84].   (* "COMT" *)
Definition VERSION : Z := 1.
Definition NUM_BYTES_ABSOLUTE_OFFSET : Z := 5.
Definition NUM_BYTES_TILE_SIZE : Z := 3.
Definition MAX_PYRAMID_ZOOM : Z := 7.
Definition MAX_TILE_SIZE : Z := JS.shl 1 20 - 1.

Definition validateTileSize (tileSize : Z) : result unit :=
  if MAX_TILE_SIZE <? tileSize
  then Throw (Error "The maximum size of a tile is limited to 0.9999990463256836 Mb.")
  else Ok tt.

(** Modelled from the spec: [calculateNumTiles] of the converter's
    [utils.ts], not part of the sources at hand: the number of tiles of the
    given tile matrices, [numTiles(z)] summed over them. *)
Definition calculateNumTiles (set : list TileMatrix) : Z :=
  foldl (fun n tm =>
           let limit := tileMatrixLimits tm in
           n + (maxTileCol limit - minTileCol limit + 1)
               * (maxTileRow limit - minTileRow limit + 1)) 0 set.

(** [writeBuffer(stream, buffer)]: the stream is the list of the bytes
    written so far. *)
Definition writeBuffer (stream buffer : Buffer) : Buffer := stream ++ buffer.

Definition writeHeader (stream : Buffer) (metadataByteLength : Z) : result Buffer :=
  let stream := writeBuffer stream MAGIC in
  versionBuffer ← NodeBuffer.writeUInt32LE VERSION;
  let stream := writeBuffer stream versionBuffer in
  metadataLengthBuffer ← NodeBuffer.writeUInt32LE metadataByteLength;
  let stream := writeBuffer stream metadataLengthBuffer in
  pyramidIndexLength ← NodeBuffer.alloc 4;
  let stream := writeBuffer stream pyramidIndexLength in
  fragmentedIndexLength ← NodeBuffer.alloc 8;
  Ok (writeBuffer stream fragmentedIndexLength).

(** [stream.write(metadataJson, "utf-8")] *)
Definition writeMetadata (stream : Buffer) (metadataJson : CodeUnits) : Buffer :=
  writeBuffer stream (NodeBuffer.utf8 metadataJson).

(** State of the first loop of [writeIndex]: the iterator, the running
    [dataSectionOffset], [indexPyramidBuffer] and the pyramid log. *)
Record PyramidState : Type := {
  p_tileIterator : list TileInfo.t;
  p_dataSectionOffset : Z;
  indexPyramidBuffer : Buffer;
  logStreamPyramid : list Z;
}.

Definition pyramidLoopBody (st : PyramidState) (i : Z) : result PyramidState :=
  match p_tileIterator st with
  | [] => Throw TypeError
  | tileInfo :: rest =>
      let size := TileInfo.size tileInfo in
      let dataSectionOffset := p_dataSectionOffset st + size in
      let log := logStreamPyramid st ++ [size] in
      _ ← validateTileSize size;
      bytes ← Encoder.toBytesLE size NUM_BYTES_TILE_SIZE;
      Ok {| p_tileIterator := rest;
            p_dataSectionOffset := dataSectionOffset;
            indexPyramidBuffer :=
              NodeBuffer.copy bytes (indexPyramidBuffer st) (i * NUM_BYTES_TILE_SIZE);
            logStreamPyramid := log |}
  end.

(** State of the second loop of [writeIndex]; [previousZoom], which only
    drives the console output, is left out. *)
Record FragmentState : Type := {
  stream : Buffer;
  logStreamFragments : list LogLine;
  dataSectionOffset : Z;
  previousFragmentIndex : option Z;
  previousIndex : Z;
  indexFragmentLength : Z;
}.

(** [await writeBuffer(stream, bytes); logStreamFragments.write(line);
    indexFragmentLength += n] *)
Definition emit (st : FragmentState) (bytes : Buffer) (line : LogLine) (n : Z)
  : FragmentState :=
  {| stream := writeBuffer (stream st) bytes;
     logStreamFragments := logStreamFragments st ++ [line];
     dataSectionOffset := dataSectionOffset st;
     previousFragmentIndex := previousFragmentIndex st;
     previousIndex := previousIndex st;
     indexFragmentLength := indexFragmentLength st + n |}.

Definition writePadding (st : FragmentState) (i : Z) : result FragmentState :=
  zero ← Encoder.toBytesLE 0 NUM_BYTES_TILE_SIZE;
  Ok (emit st zero LogPadding NUM_BYTES_TILE_SIZE).

Definition fragmentLoopBody (comtIndex : TileMatrixSet) (st : FragmentState)
  (tile : TileInfo.t) : result FragmentState :=
  let zoom := TileInfo.zoom tile in
  let column := TileInfo.column tile in
  let row := TileInfo.row tile in
  let size := TileInfo.size tile in
  let fragmentIndex := TileInfo.fragmentIndex tile in
  _ ← validateTileSize size;
  st ← (if JS.gtOpt fragmentIndex (previousFragmentIndex st) then
          absoluteFragmentOffset ←
            Encoder.toBytesLE (dataSectionOffset st) NUM_BYTES_ABSOLUTE_OFFSET;
          Ok (emit st absoluteFragmentOffset
                (LogFragmentOffset (dataSectionOffset st))
                NUM_BYTES_ABSOLUTE_OFFSET)
        else Ok st);
  oi ← ComtIndex.calculateIndexOffsetForTile comtIndex zoom column row;
  let currentIndex := snd oi in
  let padding := currentIndex - previousIndex st - 1 in
  st ← (if 0 <? padding then forEach writePadding (seqZ 0 padding) st
        else Ok st);
  indexEntry ← Encoder.toBytesLE size NUM_BYTES_TILE_SIZE;
  let st := emit st indexEntry (LogEntry size) NUM_BYTES_TILE_SIZE in
  Ok {| stream := stream st;
        logStreamFragments := logStreamFragments st;
        dataSectionOffset := dataSectionOffset st + size;
        previousFragmentIndex := fragmentIndex;
        previousIndex := currentIndex;
        indexFragmentLength := indexFragmentLength st |}.

(** What [writeIndex] leaves behind: the stream, the two logs, and the
    returned pair [[pyramidSectionLength, fragmentSectionLength]]. *)
Record IndexStats : Type := {
  s_stream : Buffer;
  s_logStreamPyramid : list Z;
  s_logStreamFragments : list LogLine;
  s_dataSectionOffset : Z;
  pyramidSectionLength : Z;
  fragmentSectionLength : Z;
}.

Section WithZlib.

(** [fflate.zlibSync] *)
Variable zlibSync : Buffer -> Buffer.

(** The state in which the second loop starts. *)
Definition fragmentLoopStart (stream : Buffer) (dataSectionOffset : Z)
  (compressedIndexPyramid : Buffer) : FragmentState :=
  {| stream := stream;
     logStreamFragments := [];
     dataSectionOffset := dataSectionOffset;
     previousFragmentIndex := Some (-1);
     previousIndex := Z.of_nat (length compressedIndexPyramid);
     indexFragmentLength := 0 |}.

Definition writeIndex (stream : Buffer) (tiles : list TileInfo.t)
  (metadata : Metadata) (pyramidMaxZoom : Z) : result IndexStats :=
  comtIndex ← ComtIndex.new metadata;
  let pyramidSet :=
    filter (fun set => zoom set <= pyramidMaxZoom)
      (tileMatrix (tileMatrixSet metadata)) in
  let numIndexEntriesPyramid := calculateNumTiles pyramidSet in
  indexPyramidBuffer ← NodeBuffer.alloc (numIndexEntriesPyramid * NUM_BYTES_TILE_SIZE);
  p ← forEach pyramidLoopBody (seqZ 0 numIndexEntriesPyramid)
        {| p_tileIterator := tiles;
           p_dataSectionOffset := 0;
           indexPyramidBuffer := indexPyramidBuffer;
           logStreamPyramid := [] |};
  let compressedIndexPyramid := zlibSync (Converter.indexPyramidBuffer p) in
  let stream := writeBuffer stream compressedIndexPyramid in
  st ← forEach (fragmentLoopBody comtIndex) (p_tileIterator p)
         (fragmentLoopStart stream (p_dataSectionOffset p) compressedIndexPyramid);
  Ok {| s_stream := Converter.stream st;
        s_logStreamPyramid := logStreamPyramid p;
        s_logStreamFragments := logStreamFragments st;
        s_dataSectionOffset := dataSectionOffset st;
        pyramidSectionLength := Z.of_nat (length compressedIndexPyramid);
        fragmentSectionLength := indexFragmentLength st |}.

(** [writeTiles]: the payloads of the provider's tile stream, the empty
    ones skipped. *)
Definition writeTiles (stream : Buffer) (tiles : list Buffer) : Buffer :=
  foldl (fun stream tile =>
           let tileLength := Z.of_nat (length tile) in
           if 0 <? tileLength then writeBuffer stream tile else stream)
    stream tiles.

(** [fs.writeSync(fd, buffer, 0, buffer.length, position)] on the file
    the stream wrote; the two positions written lie inside its header. *)
Definition writeSync (file buffer : Buffer) (position : Z) : Buffer :=
  NodeBuffer.copy buffer file position.

(** [createComTileArchive], from the metadata on: the repository, the
    JSON text of the metadata and the two tile streams of the provider
    are inputs.  The header gets [metadataJson.length], the number of code
    units of the text; the stream gets the text's UTF-8 bytes. *)
Definition createComTileArchive (metadata : Metadata) (metadataJson : CodeUnits)
  (sizes : list TileInfo.t) (payloads : list Buffer) (pyramidMaxZoom : Z)
  : result Buffer :=
  stream ← writeHeader [] (Z.of_nat (length metadataJson));
  let stream := writeMetadata stream metadataJson in
  indexStats ← writeIndex stream sizes metadata pyramidMaxZoom;
  let stream := writeTiles (s_stream indexStats) payloads in
  pyramidBuffer ← NodeBuffer.writeUInt32LE (pyramidSectionLength indexStats);
  fragmentBuffer ← NodeBuffer.writeBigUint64LE (fragmentSectionLength indexStats);
  let file := writeSync stream pyramidBuffer 12 in
  Ok (writeSync file fragmentBuffer 16).

End WithZlib.

End Converter.

(** ** The reader ([comtCache.ts]) *)

Module IndexEntry.
Record t : Type := {
  offset : Z;
  size : Z;
}.
End IndexEntry.

(** [XyzIndex] and [TmsIndex] *)
Module TileIndex.
Record t : Type := {
  z : Z;
  x : Z;
  y : Z;
}.
End TileIndex.

Record Header : Type := {
  indexOffset : Z;
  pyramidIndexLength : Z;
  fragmentIndexLength : Z;
  dataOffset : Z;
  metadata : Metadata;
  partialIndex : Buffer;
}.

(** [buffer.slice(begin, end)] for [0 <= begin]. *)
Definition slice (b : Buffer) (begin end_ : Z) : Buffer :=
  take (Z.to_nat (end_ - begin)) (drop (Z.to_nat begin) b).

Section Reader.

(** [fflate.unzlibSync], [fflate.gunzipSync], and
    [JSON.parse(new TextDecoder().decode(bytes))]. *)
Variable unzlibSync : Buffer -> result Buffer.
Variable gunzipSync : Buffer -> result Buffer.
Variable JSON_parse : Buffer -> result Metadata.

Record IndexCache : Type := {
  ic_metadata : Metadata;
  ic_partialIndex : Buffer;
  ic_indexOffset : Z;
  ic_pyramidIndexLength : Z;
  ic_fragmentIndexLength : Z;
  (** Modelled from the spec: the [LruCache] class is not part of the
      sources at hand; it maps a fragment's start offset to the fragment's
      range and bytes.  Which entry it evicts at its capacity of 28 is left
      out: a [get] sees what the last [put] of that key stored. *)
  fragmentedIndex : gmap Z (FragmentRange * Buffer);
  ic_comtIndex : TileMatrixSet;
}.

Definition INDEX_ENTRY_NUM_BYTES : Z := 3.
Definition FRAGMENT_ENTRY_NUM_BYTES : Z := 5.

Definition IndexCache_new (metadata : Metadata) (partialIndex : Buffer)
  (indexOffset pyramidIndexLength fragmentIndexLength : Z) : result IndexCache :=
  comtIndex ← ComtIndex.new metadata;
  Ok {| ic_metadata := metadata;
        ic_partialIndex := partialIndex;
        ic_indexOffset := indexOffset;
        ic_pyramidIndexLength := pyramidIndexLength;
        ic_fragmentIndexLength := fragmentIndexLength;
        fragmentedIndex := ∅;
        ic_comtIndex := comtIndex |}.

Definition setIndexFragment (ic : IndexCache) (fragmentRange : FragmentRange)
  (indexEntries : Buffer) : IndexCache :=
  let index := startOffset fragmentRange in
  {| ic_metadata := ic_metadata ic;
     ic_partialIndex := ic_partialIndex ic;
     ic_indexOffset := ic_indexOffset ic;
     ic_pyramidIndexLength := ic_pyramidIndexLength ic;
     ic_fragmentIndexLength := ic_fragmentIndexLength ic;
     fragmentedIndex := <[index := (fragmentRange, indexEntries)]> (fragmentedIndex ic);
     ic_comtIndex := ic_comtIndex ic |}.

Definition getIndexOffsetFragmentSection (fragmentIndex indexOffsetForTile : Z) : Z :=
  fragmentIndex * FRAGMENT_ENTRY_NUM_BYTES
  + (indexOffsetForTile - 1) * INDEX_ENTRY_NUM_BYTES.

Definition getIndexEntryFragmentSection (indexOffset : Z) (indexEntries : Buffer)
  : result IndexEntry.t :=
  let indexBuffer := indexEntries in
  size ← Utils.convertUInt24LEToNumber indexBuffer
           (indexOffset * INDEX_ENTRY_NUM_BYTES + 5);
  offset ← Utils.convertUInt40LEToNumber indexBuffer 0;
  offset ← forEach (fun offset i =>
                      s ← Utils.convertUInt24LEToNumber indexBuffer
                            (5 + i * INDEX_ENTRY_NUM_BYTES);
                      Ok (offset + s))
             (seqZ 0 indexOffset) offset;
  Ok {| IndexEntry.offset := offset; IndexEntry.size := size |}.

Definition getIndexEntryPyramidSection (indexOffset : Z) (indexEntries : Buffer)
  : result IndexEntry.t :=
  let indexBuffer := indexEntries in
  size ← Utils.convertUInt24LEToNumber indexBuffer
           (indexOffset * INDEX_ENTRY_NUM_BYTES);
  offset ← forEach (fun offset i =>
                      s ← Utils.convertUInt24LEToNumber indexBuffer
                            (i * INDEX_ENTRY_NUM_BYTES);
                      Ok (offset + s))
             (seqZ 0 indexOffset) 0;
  Ok {| IndexEntry.offset := offset; IndexEntry.size := size |}.

(** The test that sends [IndexCache.get] to the pyramid section. *)
Definition inPartialIndex (ic : IndexCache) (z indexOffset : Z) : bool :=
  (indexOffset <=? Z.of_nat (length (ic_partialIndex ic)) - INDEX_ENTRY_NUM_BYTES)
  && (z <? 8).

(** [IndexCache.get]; [None] is the [null] of a fragment that is not in
    the cache. *)
Definition IndexCache_get (ic : IndexCache) (tmsIndex : TileIndex.t)
  : result (option IndexEntry.t) :=
  let z := TileIndex.z tmsIndex in
  let x := TileIndex.x tmsIndex in
  let y := TileIndex.y tmsIndex in
  oi ← ComtIndex.calculateIndexOffsetForTile (ic_comtIndex ic) z x y;
  let indexOffsetForTile := snd oi in
  range ← ComtIndex.getFragmentRangeForTile (ic_comtIndex ic) z x y
            (ic_indexOffset ic) (ic_pyramidIndexLength ic);
  let indexOffset :=
    if z <? 8 then indexOffsetForTile
    else getIndexOffsetFragmentSection (fragmentIndex range) indexOffsetForTile in
  if inPartialIndex ic z indexOffset then
    pyramid ← unzlibSync (ic_partialIndex ic);
    e ← getIndexEntryPyramidSection indexOffset pyramid;
    Ok (Some e)
  else
    match fragmentedIndex ic !! startOffset range with
    | None => Ok None
    | Some indexFragment =>
        let relativeFragmentOffset := 0 in
        e ← getIndexEntryFragmentSection relativeFragmentOffset (snd indexFragment);
        Ok (Some e)
    end.

Definition SUPPORTED_VERSION : Z := 1.
Definition INITIAL_CHUNK_SIZE : Z := 2 ^ 19.
Definition METADATA_OFFSET_INDEX : Z := 24.
Definition SUPPORTED_TILE_MATRIX_CRS : string := "WebMercatorQuad".
Definition SUPPORTED_ORDERING : string := "RowMajor".

(** The object store behind [comtUrl] is the list of the archive's bytes;
    [fetchBinaryData] is a request for [bytes=first-last].  A range that
    starts behind the last byte is answered 416, which the reader throws;
    a range whose end is before its start is not a range, and the store
    answers with the whole archive. *)
Definition fetchBinaryData (url : Buffer) (firstBytePos lastBytePos : Z)
  : result Buffer :=
  if (firstBytePos <? 0) || (lastBytePos <? firstBytePos) then Ok url
  else if firstBytePos <? Z.of_nat (length url)
  then Ok (slice url firstBytePos (lastBytePos + 1))
  else Throw (Error "Range Not Satisfiable").

Definition fetchHeader (comtUrl : Buffer) : result Buffer :=
  fetchBinaryData comtUrl 0 (INITIAL_CHUNK_SIZE - 1).

Definition validateMetadata (metadata : Metadata)
  (downloadedPyramidIndexEntries : Z) : result unit :=
  if negb (bool_decide (tileFormat metadata = "pbf"%string))
  then Throw (Error "Currently pbf (MapboxVectorTiles) is the only supported tileFormat.")
  else
    let tileMatrixSet := tileMatrixSet metadata in
    let supportedOrdering := [None; Some SUPPORTED_ORDERING] in
    if negb (forallb (fun ordering =>
                        existsb (fun o => bool_decide (o = ordering)) supportedOrdering)
               [fragmentOrdering tileMatrixSet; tileOrdering tileMatrixSet])
    then Throw (Error "The only supported fragment and tile ordering is RowMajor")
    else if match tileMatrixCRS tileMatrixSet with
            | Some crs =>
                negb (bool_decide (Text.toLowerCase (Text.trim crs)
                                   = Text.toLowerCase SUPPORTED_TILE_MATRIX_CRS))
            | None => false
            end
    then Throw (Error "The only supported TileMatrixCRS is WebMercatorQuad.")
    else
      let pyramidIndexEntries :=
        foldl (fun numIndexEntries tm =>
                 let limits := tileMatrixLimits tm in
                 numIndexEntries
                 + (maxTileCol limits - minTileCol limits + 1)
                   * (maxTileRow limits - minTileRow limits + 1))
          0 (filter (fun tm => aggregationCoefficient tm = -1)
               (tileMatrix tileMatrixSet)) in
      if downloadedPyramidIndexEntries <? pyramidIndexEntries
      then Throw (Error "The fragmented part (aggregationCoefficient=-1) of the index has to be part of the initial fetch. Only index fragments can be reloaded")
      else Ok tt.

Definition loadHeader (comtUrl : Buffer) : result Header :=
  buffer ← fetchHeader comtUrl;
  version ← DataView.getUint32LE buffer 4;
  if negb (version =? SUPPORTED_VERSION)
  then Throw (Error "The specified version of the COMT archive is not supported.")
  else
    metadataSize ← DataView.getUint32LE buffer 8;
    pyramidIndexLength ← DataView.getUint32LE buffer 12;
    fragmentIndexLength ← DataView.getUint32LE buffer 16;
    let indexOffset := METADATA_OFFSET_INDEX + metadataSize in
    let metadataBuffer := slice buffer METADATA_OFFSET_INDEX indexOffset in
    metadata ← JSON_parse metadataBuffer;
    let numCompleteIndexEntries :=
      JS.floorDiv (INITIAL_CHUNK_SIZE - indexOffset) INDEX_ENTRY_NUM_BYTES in
    _ ← validateMetadata metadata numCompleteIndexEntries;
    let endOffset := indexOffset + pyramidIndexLength in
    let partialIndex := slice buffer indexOffset endOffset in
    let dataOffset := indexOffset + pyramidIndexLength + fragmentIndexLength in
    Ok {| indexOffset := indexOffset;
          pyramidIndexLength := pyramidIndexLength;
          fragmentIndexLength := fragmentIndexLength;
          dataOffset := dataOffset;
          metadata := metadata;
          partialIndex := partialIndex |}.

(** The state of a [ComtCache]: the archive behind [comtUrl], the header
    once it is loaded, and the two index objects [initIndex] creates.  The
    requests of a cache are modelled one at a time, so that [requestCache]
    and [headerLoaded], which only join overlapping requests, are left out;
    a throw ends the modelled request. *)
Record ComtCache : Type := {
  comtUrl : Buffer;
  header : option Header;
  indexCache : option IndexCache;
  comtIndex : option TileMatrixSet;
}.

Definition createSync (comtUrl : Buffer) : ComtCache :=
  {| comtUrl := comtUrl; header := None; indexCache := None; comtIndex := None |}.

Definition initIndex (c : ComtCache) (h : Header) : result ComtCache :=
  ic ← IndexCache_new (metadata h) (partialIndex h) (indexOffset h)
         (pyramidIndexLength h) (fragmentIndexLength h);
  ci ← ComtIndex.new (metadata h);
  Ok {| comtUrl := comtUrl c; header := Some h;
        indexCache := Some ic; comtIndex := Some ci |}.

(** [ComtCache.create(comtUrl)] with the default [PREFETCH]. *)
Definition create (comtUrl : Buffer) : result ComtCache :=
  h ← loadHeader comtUrl;
  initIndex (createSync comtUrl) h.

(** The entry is [None] for the [null] that [IndexCache.get] may return. *)
Definition fetchIndexEntry (c : ComtCache) (tmsIndex : TileIndex.t)
  : result (option IndexEntry.t * ComtCache) :=
  match header c, indexCache c, comtIndex c with
  | Some h, Some ic, Some ci =>
      fragmentRange ← ComtIndex.getFragmentRangeForTile ci
                        (TileIndex.z tmsIndex) (TileIndex.x tmsIndex)
                        (TileIndex.y tmsIndex)
                        (indexOffset h) (pyramidIndexLength h);
      indexFragment ← fetchBinaryData (comtUrl c)
                        (startOffset fragmentRange) (endOffset fragmentRange);
      let ic := setIndexFragment ic fragmentRange indexFragment in
      e ← IndexCache_get ic tmsIndex;
      Ok (e, {| comtUrl := comtUrl c; header := header c;
                indexCache := Some ic; comtIndex := comtIndex c |})
  | _, _, _ => Throw TypeError
  end.

(** [None] is [Optional.empty()]. *)
Definition getIndexEntry (c : ComtCache) (xyzIndex : TileIndex.t)
  : result (option (IndexEntry.t * Z) * ComtCache) :=
  c ← match header c with
      | Some _ => Ok c
      | None => h ← loadHeader (comtUrl c); initIndex c h
      end;
  match header c, indexCache c with
  | Some h, Some ic =>
      let metadata := metadata h in
      let x := TileIndex.x xyzIndex in
      let y := TileIndex.y xyzIndex in
      let z := TileIndex.z xyzIndex in
      let tmsY := JS.shl 1 z - y - 1 in
      tm ← match (if z <? 0 then None
                  else tileMatrix (tileMatrixSet metadata) !! Z.to_nat z) with
           | Some tm => Ok tm
           | None => Throw TypeError
           end;
      let limit := tileMatrixLimits tm in
      if (x <? minTileCol limit) || (maxTileCol limit <? x)
         || (tmsY <? minTileRow limit) || (maxTileRow limit <? tmsY)
      then Ok (None, c)
      else
        let tmsIndex := {| TileIndex.z := z; TileIndex.x := x; TileIndex.y := tmsY |} in
        cached ← IndexCache_get ic tmsIndex;
        r ← match cached with
            | Some e => Ok (Some e, c)
            | None => fetchIndexEntry c tmsIndex
            end;
        match fst r with
        | Some indexEntry =>
            let absoluteTileOffset := dataOffset h + IndexEntry.offset indexEntry in
            Ok (Some (indexEntry, absoluteTileOffset), snd r)
        | None => Throw TypeError
        end
  | _, _ => Throw TypeError
  end.

Definition fetchTile (c : ComtCache) (xyzIndex : TileIndex.t)
  (tileProvider : TileIndex.t -> IndexEntry.t -> Z -> result Buffer)
  : result (Buffer * ComtCache) :=
  r ← getIndexEntry c xyzIndex;
  match fst r with
  | None => Ok ([], snd r)
  | Some (indexEntry, absoluteTileOffset) =>
      if IndexEntry.size indexEntry =? 0 then Ok ([], snd r)
      else
        tile ← tileProvider xyzIndex indexEntry absoluteTileOffset;
        Ok (tile, snd r)
  end.

Definition fetchMVT (c : ComtCache) (tileOffset tileSize : Z) : result Buffer :=
  buffer ← fetchBinaryData (comtUrl c) tileOffset (tileOffset + tileSize - 1);
  gunzipSync buffer.

Definition getTile (c : ComtCache) (xyzIndex : TileIndex.t)
  : result (Buffer * ComtCache) :=
  fetchTile c xyzIndex
    (fun index indexEntry absoluteTileOffset =>
       fetchMVT c absoluteTileOffset (IndexEntry.size indexEntry)).

End Reader.

(** ** Definitions of the statements *)

Definition isByte (b : Z) : Prop := 0 <= b < 256.

(** The value of a little-endian byte string. *)
Fixpoint leValue (bs : list Z) : Z :=
  match bs with
  | [] => 0
  | b :: bs' => b + 256 * leValue bs'
  end.

(** *** Index geometry as the specification words it *)

Module Spec.

(** [numTiles(z)] *)
Definition numTiles (tm : TileMatrix) : Z :=
  let l := tileMatrixLimits tm in
  (maxTileCol l - minTileCol l + 1) * (maxTileRow l - minTileRow l + 1).

(** The sum of [numTiles] over the tile matrices of a zoom below [z]. *)
Definition tilesBelow (z : Z) (tms : list TileMatrix) : Z :=
  foldr (fun tm n => numTiles tm + n) 0 (filter (fun tm => zoom tm < z) tms).

(** The dense fragment cell of side [F] that contains [(x, y)]:
    [[fc·F, fc·F+F−1] × [fr·F, fr·F+F−1]] with [fc = ⌊x/F⌋], [fr = ⌊y/F⌋]. *)
Definition denseBounds (F x y : Z) : TileMatrixLimits :=
  {| minTileCol := (x / F) * F;
     minTileRow := (y / F) * F;
     maxTileCol := (x / F) * F + F - 1;
     maxTileRow := (y / F) * F + F - 1 |}.

Definition intersect (a b : TileMatrixLimits) : TileMatrixLimits :=
  {| minTileCol := Z.max (minTileCol a) (minTileCol b);
     minTileRow := Z.max (minTileRow a) (minTileRow b);
     maxTileCol := Z.min (maxTileCol a) (maxTileCol b);
     maxTileRow := Z.min (maxTileRow a) (maxTileRow b) |}.

(** The sparse fragment bounds of the tile [(x, y)] of a fragmented zoom. *)
Definition sparseBounds (tm : TileMatrix) (x y : Z) : TileMatrixLimits :=
  intersect (denseBounds (2 ^ aggregationCoefficient tm) x y) (tileMatrixLimits tm).

Definition entriesBeforeFragment (sfb limit : TileMatrixLimits) : Z :=
  let leftBefore :=
    (minTileCol sfb - minTileCol limit) * (maxTileRow sfb - minTileRow limit + 1) in
  let belowBefore :=
    (maxTileCol limit - minTileCol sfb + 1) * (minTileRow sfb - minTileRow limit) in
  leftBefore + belowBefore.

Definition entriesInFragment (sfb : TileMatrixLimits) : Z :=
  (maxTileCol sfb - minTileCol sfb + 1) * (maxTileRow sfb - minTileRow sfb + 1).

(** The byte offset of the entry of [(x, y)] within the entries of its own
    zoom. *)
Definition offsetInZoom (tm : TileMatrix) (x y : Z) : Z :=
  let l := tileMatrixLimits tm in
  if aggregationCoefficient tm =? -1 then
    ((y - minTileRow l) * (maxTileCol l - minTileCol l + 1) + (x - minTileCol l)) * 3
  else
    let sfb := sparseBounds tm x y in
    let fullRowsInFragment := y - minTileRow sfb in
    let fragmentWidth := maxTileCol sfb - minTileCol sfb + 1 in
    let partialRow := x - minTileCol sfb in
    (entriesBeforeFragment sfb l + fullRowsInFragment * fragmentWidth + partialRow) * 3.

(** The number of fragment cells of a zoom in the rows of cells below the
    cell of [(x, y)], plus those to its left in its own row. *)
Definition fragmentsBefore (tm : TileMatrix) (x y : Z) : Z :=
  let l := tileMatrixLimits tm in
  let F := 2 ^ aggregationCoefficient tm in
  let cellsPerRow := maxTileCol l / F - minTileCol l / F + 1 in
  cellsPerRow * (y / F - minTileRow l / F) + (x / F - minTileCol l / F).

(** [pyramidMaxZoom]: the largest zoom whose aggregation coefficient is
    [-1], and [-1] when there is none. *)
Definition pyramidMaxZoom (tms : TileMatrixSet) : Z :=
  foldr (fun tm m => if aggregationCoefficient tm =? -1 then Z.max (zoom tm) m else m)
    (-1) (tileMatrix tms).

(** [tm] is the one tile matrix of zoom [z] in the set. *)
Definition onlyZoom (tms : TileMatrixSet) (z : Z) (tm : TileMatrix) : Prop :=
  filter (fun t => zoom t = z) (tileMatrix tms) = [tm].

(** The order of the index entries of a fragmented zoom whose fragments
    have [F] tiles a side: the fragment cells row by row, and inside a cell
    the tiles row by row. *)
Definition fragmentOrderLt (F x y x' y' : Z) : Prop :=
  y / F < y' / F
  \/ (y / F = y' / F /\ x / F < x' / F)
  \/ (y / F = y' / F /\ x / F = x' / F /\ (y < y' \/ (y = y' /\ x < x'))).

End Spec.

(** *** The reader's header *)

(** What [loadHeader] does with the buffer once [fetchHeader] has returned
    it. *)
Definition headerOfBuffer (JSON_parse : Buffer -> result Metadata)
  (buffer : Buffer) : result Header :=
  version ← DataView.getUint32LE buffer 4;
  if negb (version =? SUPPORTED_VERSION)
  then Throw (Error "The specified version of the COMT archive is not supported.")
  else
    metadataSize ← DataView.getUint32LE buffer 8;
    pyramidIndexLength ← DataView.getUint32LE buffer 12;
    fragmentIndexLength ← DataView.getUint32LE buffer 16;
    let indexOffset := METADATA_OFFSET_INDEX + metadataSize in
    let metadataBuffer := slice buffer METADATA_OFFSET_INDEX indexOffset in
    metadata ← JSON_parse metadataBuffer;
    let numCompleteIndexEntries :=
      JS.floorDiv (INITIAL_CHUNK_SIZE - indexOffset) INDEX_ENTRY_NUM_BYTES in
    _ ← validateMetadata metadata numCompleteIndexEntries;
    let endOffset := indexOffset + pyramidIndexLength in
    let partialIndex := slice buffer indexOffset endOffset in
    let dataOffset := indexOffset + pyramidIndexLength + fragmentIndexLength in
    Ok {| indexOffset := indexOffset;
          pyramidIndexLength := pyramidIndexLength;
          fragmentIndexLength := fragmentIndexLength;
          dataOffset := dataOffset;
          metadata := metadata;
          partialIndex := partialIndex |}.

(** *** The writer's fragment loop *)

(** [st'] is [st] after the bytes [bytes] went to the stream and the lines
    [lines] to the fragment log, with nothing else changed. *)
Definition extends (st st' : Converter.FragmentState) (bytes : Buffer)
  (lines : list LogLine) : Prop :=
  Converter.stream st' = Converter.stream st ++ bytes
  /\ Converter.logStreamFragments st' = Converter.logStreamFragments st ++ lines
  /\ Converter.indexFragmentLength st'
     = Converter.indexFragmentLength st + Z.of_nat (length bytes)
  /\ Converter.dataSectionOffset st' = Converter.dataSectionOffset st
  /\ Converter.previousFragmentIndex st' = Converter.previousFragmentIndex st
  /\ Converter.previousIndex st' = Converter.previousIndex st.

(** The bytes the writer sends to the stream where it logs a line. *)
Definition lineContent (line : LogLine) : Buffer :=
  match line with
  | LogFragmentOffset dataSectionOffset => NodeBuffer.le 5 dataSectionOffset
  | LogPadding => [0; 0; 0]
  | LogEntry size => NodeBuffer.le 3 size
  end.

(** The bytes a log line stands for in the fragment section. *)
Definition lineBytes (line : LogLine) : Z :=
  match line with
  | LogFragmentOffset _ => 5
  | LogPadding => 3
  | LogEntry _ => 3
  end.

Definition isFragmentOffset (line : LogLine) : bool :=
  match line with LogFragmentOffset _ => true | _ => false end.

Definition isPadding (line : LogLine) : bool :=
  match line with LogPadding => true | _ => false end.

Definition isEntry (line : LogLine) : bool :=
  match line with LogEntry _ => true | _ => false end.

Definition countLines (p : LogLine -> bool) (log : list LogLine) : Z :=
  Z.of_nat (length (List.filter p log)).

Definition sumZ (l : list Z) : Z := foldr Z.add 0 l.

(** The bytes of the fragment section that a fragment log accounts for. *)
Definition logBytes (log : list LogLine) : Z := sumZ (lineBytes <$> log).

(** The index that [calculateIndexOffsetForTile] gives a record of the
    size stream. *)
Definition tileIndexOf (comtIndex : TileMatrixSet) (t : TileInfo.t) : result Z :=
  oi ← ComtIndex.calculateIndexOffsetForTile comtIndex (TileInfo.zoom t)
         (TileInfo.column t) (TileInfo.row t);
  Ok (snd oi).

(** *** The bit-aligned fragment *)

(** The bytes that [encodeIndexFragmentBitAligned] leaves behind the
    offset when an entry has 20 bits.  An entry that starts at a byte
    boundary puts its low 4 bits in the high half of its first byte, its
    bits 4 to 11 in the second byte and its bits 12 to 19 in the third; the
    entry after it starts at that third byte and writes its own low byte
    over it, then its bits 8 to 15 and its bits 16 to 19. *)
Fixpoint packBitAligned (tileSizes : list Z) : Buffer :=
  match tileSizes with
  | a :: b :: rest =>
      [(a * 16) mod 256; (a / 16) mod 256; b mod 256; (b / 256) mod 256; b / 65536]
        ++ packBitAligned rest
  | [a] => [(a * 16) mod 256; (a / 16) mod 256; a / 4096]
  | [] => []
  end.

(** ** Fixtures of the closed statements *)

Module Fixture.

Definition limits (minCol minRow maxCol maxRow : Z) : TileMatrixLimits :=
  {| minTileCol := minCol; minTileRow := minRow;
     maxTileCol := maxCol; maxTileRow := maxRow |}.

Definition matrix (z coefficient : Z) (l : TileMatrixLimits) : TileMatrix :=
  {| zoom := z; aggregationCoefficient := coefficient; tileMatrixLimits := l |}.

Definition tileSet (l : list TileMatrix) : TileMatrixSet :=
  {| tileMatrixCRS := Some "WebMercatorQuad"%string;
     fragmentOrdering := Some "RowMajor"%string;
     tileOrdering := Some "RowMajor"%string;
     tileMatrix := l |}.

Definition metadataOf (l : list TileMatrix) : Metadata :=
  {| tileFormat := "pbf"; tileMatrixSet := tileSet l |}.

Definition tile (z column row size : Z) (fragment : option Z) : TileInfo.t :=
  {| TileInfo.zoom := z; TileInfo.column := column; TileInfo.row := row;
     TileInfo.size := size; TileInfo.fragmentIndex := fragment |}.

Definition tms (z x y : Z) : TileIndex.t :=
  {| TileIndex.z := z; TileIndex.x := x; TileIndex.y := y |}.

(** Scenario (c) of the specification: one fragmented zoom with sparse
    limits, fragments of 8 by 8 tiles. *)
Definition sparse : TileMatrixSet :=
  tileSet [matrix 4 3 (limits 3 2 13 11)].

(** Scenario (b) of the specification: one fragment of 64 tiles. *)
Definition oneFragment : TileMatrixSet :=
  tileSet [matrix 3 3 (limits 0 0 7 7)].

(** A pyramid of two zooms (five tiles) under a fragmented zoom 2. *)
Definition small : Metadata :=
  metadataOf [matrix 0 (-1) (limits 0 0 0 0);
              matrix 1 (-1) (limits 0 0 1 1);
              matrix 2 6 (limits 0 0 3 3)].

(** Its size stream when the data set has, at zoom 2, only the tile
    [(2, 0)]. *)
Definition smallTiles : list TileInfo.t :=
  [tile 0 0 0 10 None; tile 1 0 0 11 None; tile 1 1 0 12 None;
   tile 1 0 1 13 None; tile 1 1 1 14 None;
   tile 2 2 0 7 (Some 0)].

(** The decompressed pyramid index of [smallTiles]. *)
Definition smallPyramid : Buffer :=
  [10; 0; 0; 11; 0; 0; 12; 0; 0; 13; 0; 0; 14; 0; 0].

(** Zooms 0 to 7 in the pyramid, one tile each, under a fragmented zoom 8
    of two tiles: the layout of the converter's defaults
    ([pyramidMaxZoom = 7]) on a data set of small extent. *)
Definition deep : Metadata :=
  metadataOf [matrix 0 (-1) (limits 0 0 0 0); matrix 1 (-1) (limits 0 0 0 0);
              matrix 2 (-1) (limits 0 0 0 0); matrix 3 (-1) (limits 0 0 0 0);
              matrix 4 (-1) (limits 0 0 0 0); matrix 5 (-1) (limits 0 0 0 0);
              matrix 6 (-1) (limits 0 0 0 0); matrix 7 (-1) (limits 0 0 0 0);
              matrix 8 6 (limits 0 0 1 0)].

Definition deepTiles : list TileInfo.t :=
  [tile 0 0 0 1 None; tile 1 0 0 1 None; tile 2 0 0 1 None; tile 3 0 0 1 None;
   tile 4 0 0 1 None; tile 5 0 0 1 None; tile 6 0 0 1 None; tile 7 0 0 1 None;
   tile 8 0 0 10 (Some 0); tile 8 1 0 20 (Some 0)].

Definition deepPyramid : Buffer :=
  [1; 0; 0; 1; 0; 0; 1; 0; 0; 1; 0; 0; 1; 0; 0; 1; 0; 0; 1; 0; 0; 1; 0; 0].

(** The one index fragment of [deepTiles]: the data offset 8 of its first
    tile, then the sizes 10 and 20. *)
Definition deepFragment : Buffer := [8; 0; 0; 0; 0; 10; 0; 0; 20; 0; 0].

(** A pyramid of two one-tile zooms under a fragmented zoom 2. *)
Definition shallow : Metadata :=
  metadataOf [matrix 0 (-1) (limits 0 0 0 0); matrix 1 (-1) (limits 0 0 0 0);
              matrix 2 6 (limits 0 0 1 0)].

(** An index cache over [metadata] that holds no fragment yet. *)
Definition emptyCache (metadata : Metadata) (partialIndex : Buffer)
  (indexOffset : Z) : IndexCache :=
  {| ic_metadata := metadata;
     ic_partialIndex := partialIndex;
     ic_indexOffset := indexOffset;
     ic_pyramidIndexLength := Z.of_nat (length partialIndex);
     ic_fragmentIndexLength := 0;
     fragmentedIndex := ∅;
     ic_comtIndex := tileMatrixSet metadata |}.

(** Stand-ins for the codecs in the closed examples: a frame of the
    size of zlib's, a 2-byte header and a 4-byte check value around the
    bytes, and the identity for gzip. *)
Definition frame (b : Buffer) : Buffer := [120; 1] ++ b ++ [0; 0; 0; 0].

Definition unframe (b : Buffer) : result Buffer :=
  match b with
  | 120 :: 1 :: rest =>
      if (4 <=? length rest)%nat then Ok (take (length rest - 4) rest)
      else Throw (Error "unexpected EOF")
  | _ => Throw (Error "invalid zlib data")
  end.


Definition stored (b : Buffer) : result Buffer := Ok b.

(** A pyramid zoom under the fragmented zoom of scenario (c). *)
Definition mixed : TileMatrixSet :=
  tileSet [matrix 0 (-1) (limits 0 0 0 0); matrix 4 3 (limits 3 2 13 11)].

(** A cache whose header holds [mixed]: the tile matrix of zoom 4 is at
    the position 1 of the tile matrix array. *)
Definition mixedCache : ComtCache :=
  let metadata := {| tileFormat := "pbf"; tileMatrixSet := mixed |} in
  {| comtUrl := [];
     header := Some {| indexOffset := 26;
                       pyramidIndexLength := 9;
                       fragmentIndexLength := 0;
                       dataOffset := 35;
                       metadata := metadata;
                       partialIndex := frame [1; 0; 0] |};
     indexCache := Some (emptyCache metadata (frame [1; 0; 0]) 26);
     comtIndex := Some mixed |}.

(** The archive of [deepTiles]: a metadata document, the framed pyramid,
    the fragment, and payloads of the sizes of [deepTiles].  The document
    stands for the JSON text of [deep]; [parse] is the stand-in for
    [JSON.parse], which knows that one document. *)
Definition document : Buffer := [123; 125].

Definition parse (text : Buffer) : result Metadata :=
  if bool_decide (text = document) then Ok deep
  else Throw (Error "Unexpected token in JSON").

Definition deepPayloads : list Buffer :=
  [[1]; [2]; [3]; [4]; [5]; [6]; [7]; [8]; replicate 10 9; replicate 20 10].

Definition deepBody : Buffer :=
  [1; 0; 0; 0; 2; 0; 0; 0; 30; 0; 0; 0; 11; 0; 0; 0; 0; 0; 0; 0]
    ++ document ++ frame deepPyramid ++ deepFragment ++ concat deepPayloads.

Definition deepArchive : Buffer := Converter.MAGIC ++ deepBody.

(** The same archive under the magic "XXXX". *)
Definition wrongMagicArchive : Buffer := [88; 88; 88; 88] ++ deepBody.

Definition deepHeader : Header :=
  {| indexOffset := 26;
     pyramidIndexLength := 30;
     fragmentIndexLength := 11;
     dataOffset := 67;
     metadata := deep;
     partialIndex := frame deepPyramid |}.

(** The cache that [create] returns for [deepArchive]. *)
Definition deepCache : ComtCache :=
  {| comtUrl := deepArchive;
     header := Some deepHeader;
     indexCache :=
       Some {| ic_metadata := deep;
               ic_partialIndex := frame deepPyramid;
               ic_indexOffset := 26;
               ic_pyramidIndexLength := 30;
               ic_fragmentIndexLength := 11;
               fragmentedIndex := ∅;
               ic_comtIndex := tileMatrixSet deep |};
     comtIndex := Some (tileMatrixSet deep) |}.


(** A size stream of [small] with a gap at zoom 2: the tiles [(0, 0)] and
    [(2, 0)], of index 5 and 7, without the tile [(1, 0)] between them; its
    payloads, its fragment section (the data offset 60, the size 7, one
    padding entry, the size 9) and its archive. *)
Definition gapTiles : list TileInfo.t :=
  [tile 0 0 0 10 None; tile 1 0 0 11 None; tile 1 1 0 12 None;
   tile 1 0 1 13 None; tile 1 1 1 14 None;
   tile 2 0 0 7 (Some 0); tile 2 2 0 9 (Some 0)].

Definition gapPayloads : list Buffer :=
  [replicate 10 1; replicate 11 2; replicate 12 3; replicate 13 4;
   replicate 14 5; replicate 7 6; replicate 9 7].

Definition gapFragment : Buffer := [60; 0; 0; 0; 0; 7; 0; 0; 0; 0; 0; 9; 0; 0].

Definition gapArchive : Buffer :=
  Converter.MAGIC
    ++ [1; 0; 0; 0; 2; 0; 0; 0; 21; 0; 0; 0; 14; 0; 0; 0; 0; 0; 0; 0]
    ++ document ++ frame smallPyramid ++ gapFragment ++ concat gapPayloads.

(** A metadata text with a character outside ASCII: the three code units
    of ["ü"] in quotation marks, which are four bytes in UTF-8. *)
Definition umlautDocument : CodeUnits := [34; 252; 34].

(** The archive of [deepTiles] under that text: the header holds the
    length 3, the metadata section the four bytes.  [parseUmlaut] is the
    stand-in for [JSON.parse] that knows the text. *)
Definition umlautArchive : Buffer :=
  Converter.MAGIC
    ++ [1; 0; 0; 0; 3; 0; 0; 0; 30; 0; 0; 0; 11; 0; 0; 0; 0; 0; 0; 0]
    ++ [34; 195; 188; 34] ++ frame deepPyramid ++ deepFragment ++ concat deepPayloads.

Definition parseUmlaut (text : Buffer) : result Metadata :=
  if bool_decide (text = [34; 195; 188; 34]) then Ok deep
  else Throw (Error "Unexpected token in JSON").

(** What [writeIndex] returns for [smallTiles] with the stand-in codec. *)
Definition smallStats : Converter.IndexStats :=
  {| Converter.s_stream := frame smallPyramid ++ [60; 0; 0; 0; 0; 7; 0; 0];
     Converter.s_logStreamPyramid := [10; 11; 12; 13; 14];
     Converter.s_logStreamFragments := [LogFragmentOffset 60; LogEntry 7];
     Converter.s_dataSectionOffset := 67;
     Converter.pyramidSectionLength := 21;
     Converter.fragmentSectionLength := 8 |}.

(** The writer of [deepTiles] before and after the fragment of zoom 8. *)
Definition beforeFragment : Converter.FragmentState :=
  {| Converter.stream := [];
     Converter.logStreamFragments := [];
     Converter.dataSectionOffset := 8;
     Converter.previousFragmentIndex := Some (-1);
     Converter.previousIndex := 7;
     Converter.indexFragmentLength := 0 |}.

Definition afterFragment : Converter.FragmentState :=
  {| Converter.stream := deepFragment;
     Converter.logStreamFragments := [LogFragmentOffset 8; LogEntry 10; LogEntry 20];
     Converter.dataSectionOffset := 38;
     Converter.previousFragmentIndex := Some 0;
     Converter.previousIndex := 9;
     Converter.indexFragmentLength := 11 |}.

(** The index cache of [deepCache], and [deepCache] after the fragment of
    zoom 8 was fetched: the range request is answered with the fragment
    and the byte behind it. *)
Definition deepIndexCache : IndexCache :=
  {| ic_metadata := deep;
     ic_partialIndex := frame deepPyramid;
     ic_indexOffset := 26;
     ic_pyramidIndexLength := 30;
     ic_fragmentIndexLength := 11;
     fragmentedIndex := ∅;
     ic_comtIndex := tileMatrixSet deep |}.

Definition deepCacheFetched : ComtCache :=
  {| comtUrl := deepArchive;
     header := Some deepHeader;
     indexCache :=
       Some (setIndexFragment deepIndexCache
               {| fragmentIndex := 0; startOffset := 56; endOffset := 67 |}
               (deepFragment ++ [1]));
     comtIndex := Some (tileMatrixSet deep) |}.

End Fixture.

(** *** Checks and tactics of the proofs *)

(** The two hexadecimal digits of the byte [n], as [hex2] prints them. *)
Definition hex2_ok (n : nat) : bool :=
  let b := Z.of_nat n in
  bool_decide (JS.hexValue <$> Utils.hex2 b = [Some (b / 16); Some (b mod 16)]).

(** Case analysis on the integer comparisons of the goal and the
    hypotheses. *)
Ltac zbool :=
  repeat match goal with
         | |- context [?a <=? ?b] => destruct (Z.leb_spec a b)
         | |- context [?a <? ?b] => destruct (Z.ltb_spec a b)
         | |- context [?a =? ?b] => destruct (Z.eqb_spec a b)
         | H : context [?a <=? ?b] |- _ => destruct (Z.leb_spec a b)
         | H : context [?a <? ?b] |- _ => destruct (Z.ltb_spec a b)
         | H : context [?a =? ?b] |- _ => destruct (Z.eqb_spec a b)
         end.

(* ================================================================== *)
(** * Properties *)

(** ** The error monad and the codecs *)

Lemma bind_Ok {A B} (f : A -> result B) a : (Ok a ≫= f) = f a.
Proof. reflexivity. Qed.

Lemma ToInt32_small v : 0 <= v < 2 ^ 31 -> JS.ToInt32 v = v.
Proof.
  intros H. unfold JS.ToInt32.
  rewrite Z.mod_small by lia. lia.
Qed.

Lemma getUint8_app (pre rest : Buffer) v :
  DataView.getUint8 (pre ++ v :: rest) (Z.of_nat (length pre)) = Ok v.
Proof.
  unfold DataView.getUint8.
  destruct (Z.ltb_spec (Z.of_nat (length pre)) 0); [lia|].
  rewrite Nat2Z.id, list_lookup_middle by done. done.
Qed.

Lemma getUint8_lookup (b : Buffer) (i : nat) v :
  b !! i = Some v -> DataView.getUint8 b (Z.of_nat i) = Ok v.
Proof.
  intros H. unfold DataView.getUint8.
  destruct (Z.ltb_spec (Z.of_nat i) 0); [lia|].
  by rewrite Nat2Z.id, H.
Qed.

Lemma length_le n v : length (NodeBuffer.le n v) = n.
Proof. revert v; induction n as [|n IH]; intros v; simpl; [done|]. by rewrite IH. Qed.

Lemma leValue_le n v : 0 <= v < 256 ^ Z.of_nat n -> leValue (NodeBuffer.le n v) = v.
Proof.
  revert v; induction n as [|n IH]; intros v Hv.
  - simpl in *. lia.
  - cbn [NodeBuffer.le leValue].
    rewrite IH.
    + pose proof (Z.div_mod v 256). lia.
    + rewrite Nat2Z.inj_succ, Z.pow_succ_r in Hv by lia.
      split; [apply Z.div_pos; lia|].
      apply Z.div_lt_upper_bound; lia.
Qed.

Lemma le_bytes n v : Forall (fun b => 0 <= b < 256) (NodeBuffer.le n v).
Proof.
  revert v; induction n as [|n IH]; intros v; simpl; constructor; auto.
  apply Z.mod_pos_bound; lia.
Qed.

Lemma convertUInt40LE_app (b0 b1 b2 b3 b4 : Z) (rest : Buffer) :
  Utils.convertUInt40LEToNumber (b0 :: b1 :: b2 :: b3 :: b4 :: rest) 0
  = Ok (leValue [b0; b1; b2; b3; b4]).
Proof.
  unfold Utils.convertUInt40LEToNumber, DataView.getUint32LE, DataView.getUint8.
  simpl. f_equal. lia.
Qed.

Lemma hex2_table : forallb hex2_ok (seq 0 256) = true.
Proof. vm_compute. reflexivity. Qed.

Lemma hex2_digits b :
  0 <= b < 256 ->
  exists c1 c2, Utils.hex2 b = [c1; c2]
    /\ JS.hexValue c1 = Some (b / 16) /\ JS.hexValue c2 = Some (b mod 16).
Proof.
  intros Hb.
  pose proof hex2_table as T. rewrite forallb_forall in T.
  specialize (T (Z.to_nat b)).
  unfold hex2_ok in T. rewrite Z2Nat.id in T by lia.
  assert (In (Z.to_nat b) (seq 0 256)) as Hin by (apply in_seq; lia).
  apply T, bool_decide_eq_true_1 in Hin.
  destruct (Utils.hex2 b) as [|c1 [|c2 [|c3 r]]];
    cbn [fmap list_fmap] in Hin; try discriminate.
  injection Hin as H1 H2. eauto.
Qed.

Lemma parseHexFrom_hex2 b s acc :
  0 <= b < 256 ->
  JS.parseHexFrom (Utils.hex2 b ++ s) acc = JS.parseHexFrom s (acc * 256 + b).
Proof.
  intros Hb. destruct (hex2_digits b Hb) as (c1 & c2 & -> & H1 & H2).
  simpl. rewrite H1, H2. f_equal.
  pose proof (Z.div_mod b 16). lia.
Qed.

Lemma parseInt16_hex2 b0 b1 b2 :
  0 <= b0 < 256 -> 0 <= b1 < 256 -> 0 <= b2 < 256 ->
  JS.parseInt16 (Utils.hex2 b2 ++ Utils.hex2 b1 ++ Utils.hex2 b0)
  = Ok (leValue [b0; b1; b2]).
Proof.
  intros H0 H1 H2. unfold JS.parseInt16.
  destruct (hex2_digits b2 H2) as (c1 & c2 & E & Hc1 & Hc2).
  rewrite E at 1. simpl. rewrite Hc1. f_equal.
  rewrite !parseHexFrom_hex2 by done.
  replace (Utils.hex2 b0) with (Utils.hex2 b0 ++ []) by apply app_nil_r.
  rewrite parseHexFrom_hex2 by done. simpl. lia.
Qed.

Lemma convertUInt24LE_lookup (b : Buffer) (i : nat) b0 b1 b2 :
  b !! i = Some b0 -> b !! S i = Some b1 -> b !! S (S i) = Some b2 ->
  0 <= b0 < 256 -> 0 <= b1 < 256 -> 0 <= b2 < 256 ->
  Utils.convertUInt24LEToNumber b (Z.of_nat i) = Ok (leValue [b0; b1; b2]).
Proof.
  intros L0 L1 L2 H0 H1 H2. unfold Utils.convertUInt24LEToNumber.
  rewrite (getUint8_lookup _ _ _ L0).
  replace (Z.of_nat i + 1) with (Z.of_nat (S i)) by lia.
  replace (Z.of_nat i + 2) with (Z.of_nat (S (S i))) by lia.
  rewrite (getUint8_lookup _ _ _ L1), (getUint8_lookup _ _ _ L2).
  cbn [mbind result_bind]. by apply parseInt16_hex2.
Qed.

Lemma band_255 v : 0 <= v < 2 ^ 31 -> JS.band v 255 = v mod 256.
Proof.
  intros Hv. unfold JS.band.
  rewrite (ToInt32_small v), (ToInt32_small 255) by lia.
  change 255 with (Z.ones 8). rewrite Z.land_ones by lia. done.
Qed.

Lemma shr_small v n : 0 <= v < 2 ^ 31 -> 0 <= n < 32 -> JS.shr v n = v / 2 ^ n.
Proof.
  intros Hv Hn. unfold JS.shr.
  rewrite ToInt32_small, Z.mod_small, Z.shiftr_div_pow2 by lia. done.
Qed.

Lemma writeUint8_app (pre rest : Buffer) old v :
  0 <= v < 256 ->
  NodeBuffer.writeUint8 (pre ++ old :: rest) v (Z.of_nat (length pre))
  = Ok (pre ++ v :: rest).
Proof.
  intros Hv. unfold NodeBuffer.writeUint8.
  rewrite length_app. simpl.
  repeat match goal with
         | |- context [?a <=? ?b] => destruct (Z.leb_spec a b); try lia
         | |- context [?a <? ?b] => destruct (Z.ltb_spec a b); try lia
         end.
  simpl. rewrite Nat2Z.id. f_equal.
  by rewrite insert_app_r_alt, Nat.sub_diag by lia.
Qed.

Lemma le3 s : NodeBuffer.le 3 s = [s mod 256; (s / 256) mod 256; (s / 256 / 256) mod 256].
Proof. reflexivity. Qed.

Lemma encodeTileSize_app (pre rest : Buffer) x0 x1 x2 s :
  0 <= s < 2 ^ 24 ->
  Encoder.encodeTileSize (pre ++ x0 :: x1 :: x2 :: rest, Z.of_nat (length pre)) s
  = Ok (pre ++ NodeBuffer.le 3 s ++ rest, Z.of_nat (length pre) + 3).
Proof.
  intros Hs. unfold Encoder.encodeTileSize.
  assert (0 <= s / 2 ^ 8 < 2 ^ 16) as H8.
  { split; [apply Z.div_pos; lia|apply Z.div_lt_upper_bound; lia]. }
  assert (0 <= s / 2 ^ 16 < 2 ^ 8) as H16.
  { split; [apply Z.div_pos; lia|apply Z.div_lt_upper_bound; lia]. }
  rewrite (band_255 s), (shr_small s 8), (shr_small s 16) by lia.
  rewrite band_255 by lia.
  rewrite writeUint8_app by (apply Z.mod_pos_bound; lia).
  cbn [mbind result_bind].
  replace (Z.of_nat (length pre) + 1) with (Z.of_nat (length (pre ++ [s mod 256])))
    by (rewrite length_app; simpl; lia).
  replace (pre ++ s mod 256 :: x1 :: x2 :: rest)
    with ((pre ++ [s mod 256]) ++ x1 :: x2 :: rest) by (by rewrite <- app_assoc).
  rewrite writeUint8_app by (apply Z.mod_pos_bound; lia).
  cbn [mbind result_bind].
  replace (Z.of_nat (length pre) + 2)
    with (Z.of_nat (length ((pre ++ [s mod 256]) ++ [(s / 2 ^ 8) mod 256])))
    by (rewrite !length_app; simpl; lia).
  replace ((pre ++ [s mod 256]) ++ (s / 2 ^ 8) mod 256 :: x2 :: rest)
    with (((pre ++ [s mod 256]) ++ [(s / 2 ^ 8) mod 256]) ++ x2 :: rest)
    by (by rewrite <- !app_assoc).
  rewrite writeUint8_app by lia.
  cbn [mbind result_bind]. rewrite le3.
  rewrite <- !app_assoc. simpl. repeat f_equal.
  change (2 ^ 16) with (256 * 256). rewrite <- Z.div_div by lia.
  symmetry. apply Z.mod_small.
  change (2 ^ 16) with (256 * 256) in H16. rewrite <- Z.div_div in H16 by lia. lia.
Qed.

Lemma forEach_encodeTileSize (sizes : list Z) (pre : Buffer) :
  Forall (fun s => 0 <= s < 2 ^ 24) sizes ->
  forEach Encoder.encodeTileSize sizes
    (pre ++ replicate (3 * length sizes) 0, Z.of_nat (length pre))
  = Ok (pre ++ concat (NodeBuffer.le 3 <$> sizes),
        Z.of_nat (length pre) + 3 * Z.of_nat (length sizes)).
Proof.
  intros H. revert pre. induction H as [|s sizes Hs _ IH]; intros pre.
  - simpl. rewrite !app_nil_r. do 2 f_equal. lia.
  - cbn [forEach length].
    replace (3 * S (length sizes))%nat with (S (S (S (3 * length sizes)))) by lia.
    cbn [replicate]. rewrite encodeTileSize_app by done.
    cbn [mbind result_bind].
    replace (Z.of_nat (length pre) + 3)
      with (Z.of_nat (length (pre ++ NodeBuffer.le 3 s)))
      by (rewrite length_app, length_le; lia).
    rewrite app_assoc, IH.
    rewrite length_app, length_le. cbn [fmap list_fmap concat].
    rewrite <- app_assoc. do 2 f_equal. lia.
Qed.

Lemma fill_prefix (src : Buffer) (k : nat) :
  src <> [] ->
  NodeBuffer.fill (replicate (length src + k) 0) src 0 (Z.of_nat (length src))
  = src ++ replicate k 0.
Proof.
  intros Hne. apply list_eq. intros i. unfold NodeBuffer.fill.
  rewrite list_lookup_imap.
  destruct (decide (i < length src)%nat) as [Hi|Hi].
  - rewrite lookup_replicate_2 by lia. simpl.
    destruct (Z.leb_spec 0 (Z.of_nat i)); [|lia].
    destruct (Z.ltb_spec (Z.of_nat i) (Z.of_nat (length src))); [|lia].
    simpl. rewrite Z.sub_0_r, Nat2Z.id, Nat.mod_small by done.
    rewrite lookup_app_l by done.
    destruct (lookup_lt_is_Some_2 src i Hi) as [v ->]. done.
  - rewrite lookup_app_r by lia.
    destruct (decide (i < length src + k)%nat).
    + rewrite !lookup_replicate_2 by lia. simpl.
      destruct (Z.ltb_spec (Z.of_nat i) (Z.of_nat (length src))); [lia|].
      by rewrite andb_false_r.
    + rewrite !(proj1 (lookup_replicate_None _ _ _)) by lia. done.
Qed.

Lemma ceilDiv_fragment n : JS.ceilDiv (40 + Z.of_nat n * 24) 8 = 5 + 3 * Z.of_nat n.
Proof.
  unfold JS.ceilDiv.
  replace (- (40 + Z.of_nat n * 24)) with ((- (5 + 3 * Z.of_nat n)) * 8) by lia.
  rewrite Z.div_mul by lia. lia.
Qed.

Lemma encodeFragmentByteAligned_eq absoluteOffset (tileSizes : list Z) :
  0 <= absoluteOffset < 2 ^ 40 ->
  Forall (fun s => 0 <= s < 2 ^ 24) tileSizes ->
  Encoder.encodeFragmentByteAligned absoluteOffset tileSizes
  = Ok (NodeBuffer.le 5 absoluteOffset ++ concat (NodeBuffer.le 3 <$> tileSizes)).
Proof.
  intros Ho Hs. unfold Encoder.encodeFragmentByteAligned.
  unfold Encoder.indexOffsetBitWidth, Encoder.indexOffsetByteWidth.
  rewrite ceilDiv_fragment. unfold NodeBuffer.alloc.
  destruct (Z.ltb_spec (5 + 3 * Z.of_nat (length tileSizes)) 0); [lia|].
  cbn [mbind result_bind]. unfold Encoder.toBytesLE.
  destruct (Z.leb_spec 0 absoluteOffset); [|lia].
  destruct (Z.ltb_spec absoluteOffset (256 ^ 5)); [|lia].
  cbn [andb mbind result_bind].
  replace (Z.to_nat (5 + 3 * Z.of_nat (length tileSizes)))
    with (length (NodeBuffer.le (Z.to_nat 5) absoluteOffset) + 3 * length tileSizes)%nat
    by (rewrite length_le; lia).
  change 5 with (Z.of_nat (length (NodeBuffer.le (Z.to_nat 5) absoluteOffset))) at 2 3.
  rewrite fill_prefix by (intros E; apply (f_equal length) in E; rewrite length_le in E; done).
  rewrite forEach_encodeTileSize by done.
  reflexivity.
Qed.

Lemma concat_le3_split (sizes : list Z) (i : nat) s :
  sizes !! i = Some s ->
  exists pre rest,
    concat (NodeBuffer.le 3 <$> sizes) = pre ++ NodeBuffer.le 3 s ++ rest
    /\ length pre = (3 * i)%nat.
Proof.
  revert i. induction sizes as [|a sizes IH]; intros [|i] H; simplify_eq/=.
  - exists [], (concat (NodeBuffer.le 3 <$> sizes)). done.
  - destruct (IH i H) as (pre & rest & E & L).
    exists (NodeBuffer.le 3 a ++ pre), rest. split.
    + rewrite E. by rewrite <- !app_assoc.
    + rewrite length_app, length_le. lia.
Qed.

Lemma convertUInt24LE_middle (pre rest : Buffer) s :
  0 <= s < 2 ^ 24 ->
  Utils.convertUInt24LEToNumber (pre ++ NodeBuffer.le 3 s ++ rest)
    (Z.of_nat (length pre)) = Ok s.
Proof.
  intros Hs. rewrite le3. cbn [app].
  rewrite (convertUInt24LE_lookup _ _ (s mod 256) ((s / 256) mod 256)
             ((s / 256 / 256) mod 256)).
  - f_equal. rewrite <- le3. apply leValue_le. lia.
  - by rewrite list_lookup_middle.
  - rewrite lookup_app_r by lia.
    by replace (S (length pre) - length pre)%nat with 1%nat by lia.
  - rewrite lookup_app_r by lia.
    by replace (S (S (length pre)) - length pre)%nat with 2%nat by lia.
  - apply Z.mod_pos_bound; lia.
  - apply Z.mod_pos_bound; lia.
  - apply Z.mod_pos_bound; lia.
Qed.

Lemma convertUInt40LE_le5 v (rest : Buffer) :
  0 <= v < 2 ^ 40 ->
  Utils.convertUInt40LEToNumber (NodeBuffer.le 5 v ++ rest) 0 = Ok v.
Proof.
  intros Hv.
  change (NodeBuffer.le 5 v ++ rest)
    with (v mod 256 :: (v / 256) mod 256 :: (v / 256 / 256) mod 256
          :: (v / 256 / 256 / 256) mod 256
          :: (v / 256 / 256 / 256 / 256) mod 256 :: rest).
  rewrite convertUInt40LE_app. f_equal.
  change [v mod 256; (v / 256) mod 256; (v / 256 / 256) mod 256;
          (v / 256 / 256 / 256) mod 256; (v / 256 / 256 / 256 / 256) mod 256]
    with (NodeBuffer.le 5 v).
  apply leValue_le. lia.
Qed.

(** C9.  For an absolute offset below [2^40] and tile sizes below [2^24],
    [encodeFragmentByteAligned] returns a buffer of [5 + 3·n] bytes from
    which [convertUInt40LEToNumber] at byte 0 reads the offset back and
    [convertUInt24LEToNumber] at byte [5 + 3·i] the [i]-th tile size. *)
Theorem encodeFragmentByteAligned_roundtrip absoluteOffset (tileSizes : list Z) :
  0 <= absoluteOffset < 2 ^ 40 ->
  Forall (fun s => 0 <= s < 2 ^ 24) tileSizes ->
  exists buf,
    Encoder.encodeFragmentByteAligned absoluteOffset tileSizes = Ok buf
    /\ Z.of_nat (length buf) = 5 + 3 * Z.of_nat (length tileSizes)
    /\ Utils.convertUInt40LEToNumber buf 0 = Ok absoluteOffset
    /\ forall (i : nat) s, tileSizes !! i = Some s ->
         Utils.convertUInt24LEToNumber buf (5 + 3 * Z.of_nat i) = Ok s.
Proof.
  intros Ho Hs. eexists. split; [by apply encodeFragmentByteAligned_eq|].
  split; [|split].
  - rewrite length_app, length_le.
    assert (length (concat (NodeBuffer.le 3 <$> tileSizes))
            = (3 * length tileSizes)%nat) as ->; [|lia].
    clear. induction tileSizes as [|a l IH]; [done|].
    cbn [fmap list_fmap concat length]. rewrite length_app, length_le.
    cbn [fmap] in IH. rewrite IH. lia.
  - by apply convertUInt40LE_le5.
  - intros i s Hi.
    destruct (concat_le3_split _ _ _ Hi) as (pre & rest & -> & L).
    rewrite app_assoc.
    replace (5 + 3 * Z.of_nat i)
      with (Z.of_nat (length (NodeBuffer.le 5 absoluteOffset ++ pre)))
      by (rewrite length_app, length_le; lia).
    apply convertUInt24LE_middle.
    rewrite Forall_forall in Hs. apply Hs. by eapply list_elem_of_lookup_2.
Qed.

Lemma encodeFragmentByteAligned_roundtrip_witness :
  exists buf,
    Encoder.encodeFragmentByteAligned 1000 [100; 70000] = Ok buf
    /\ Z.of_nat (length buf) = 5 + 3 * Z.of_nat (length [100; 70000])
    /\ Utils.convertUInt40LEToNumber buf 0 = Ok 1000
    /\ forall (i : nat) s, [100; 70000] !! i = Some s ->
         Utils.convertUInt24LEToNumber buf (5 + 3 * Z.of_nat i) = Ok s.
Proof.
  apply (encodeFragmentByteAligned_roundtrip 1000 [100; 70000]).
  - lia.
  - repeat constructor; lia.
Defined.

(** ** Index geometry *)

Lemma inRange_spec x y l :
  ComtIndex.inRange x y l = true
  <-> minTileCol l <= x <= maxTileCol l /\ minTileRow l <= y <= maxTileRow l.
Proof. unfold ComtIndex.inRange. zbool; simpl; split; intros; try lia; done. Qed.

Lemma orElse_in_range x lo : 0 <= lo <= x -> JS.orElse x lo = x.
Proof. intros H. unfold JS.orElse. zbool; lia. Qed.

Lemma calculateBounds_sparse c limit x y :
  ComtIndex.inRange x y limit = true ->
  0 <= minTileCol limit -> 0 <= minTileRow limit ->
  ComtIndex.calculateBounds c limit (Some x) (Some y)
  = Spec.intersect (Spec.denseBounds (2 ^ c) x y) limit.
Proof.
  intros Hin Hc Hr. apply inRange_spec in Hin.
  unfold ComtIndex.calculateBounds, Spec.intersect, Spec.denseBounds.
  cbn [JS.orElseOpt minTileCol minTileRow maxTileCol maxTileRow].
  rewrite !orElse_in_range by lia.
  unfold JS.floorDiv, JS.pow2.
  f_equal; zbool; lia.
Qed.

Lemma indexOffsetStep_below z x y offset ts :
  zoom ts < z ->
  ComtIndex.indexOffsetStep z x y offset ts = Ok (offset + 3 * Spec.numTiles ts).
Proof.
  intros H. unfold ComtIndex.indexOffsetStep, ComtIndex.isPyramidSection.
  destruct (Z.eqb_spec (zoom ts) z); [lia|].
  destruct (Z.ltb_spec (zoom ts) z); [|lia].
  simpl. unfold Spec.numTiles, ComtIndex.NUM_BYTES_TILE_SIZE. f_equal. lia.
Qed.

Lemma indexOffsetStep_at x y offset ts :
  ComtIndex.inRange x y (tileMatrixLimits ts) = true ->
  0 <= minTileCol (tileMatrixLimits ts) -> 0 <= minTileRow (tileMatrixLimits ts) ->
  ComtIndex.indexOffsetStep (zoom ts) x y offset ts
  = Ok (offset + Spec.offsetInZoom ts x y).
Proof.
  intros Hin Hc Hr. unfold ComtIndex.indexOffsetStep, ComtIndex.isPyramidSection.
  rewrite Hin, Z.eqb_refl, Z.ltb_irrefl. cbn [negb andb].
  unfold Spec.offsetInZoom.
  destruct (Z.eqb_spec (aggregationCoefficient ts) (-1)).
  - reflexivity.
  - unfold ComtIndex.calculateFragmentIndexOffsetForTile.
    rewrite calculateBounds_sparse by done. reflexivity.
Qed.

Lemma indexOffsetStep_out x y offset ts :
  ComtIndex.inRange x y (tileMatrixLimits ts) = false ->
  ComtIndex.indexOffsetStep (zoom ts) x y offset ts
  = Throw (Error "Specified tile index not part of the TileSet").
Proof.
  intros Hin. unfold ComtIndex.indexOffsetStep.
  by rewrite Hin, Z.eqb_refl.
Qed.

Lemma tilesBelow_cons z t l :
  Spec.tilesBelow z (t :: l)
  = (if decide (zoom t < z) then Spec.numTiles t else 0) + Spec.tilesBelow z l.
Proof.
  unfold Spec.tilesBelow. rewrite filter_cons.
  destruct (decide (zoom t < z)); reflexivity.
Qed.

(** The fold over the zooms below [z], when the set has no zoom [z]. *)
Lemma indexOffset_fold_below z x y (l : list TileMatrix) offset :
  filter (fun t => zoom t = z) l = [] ->
  forEach (ComtIndex.indexOffsetStep z x y) (filter (fun tm => zoom tm <= z) l) offset
  = Ok (offset + 3 * Spec.tilesBelow z l).
Proof.
  revert offset. induction l as [|t l IH]; intros offset Hz.
  - simpl. f_equal. unfold Spec.tilesBelow. simpl. lia.
  - rewrite filter_cons in Hz. rewrite filter_cons, tilesBelow_cons.
    destruct (decide (zoom t = z)) as [|Hne]; [done|].
    destruct (decide (zoom t <= z)).
    + rewrite decide_True by lia.
      cbn [forEach]. rewrite indexOffsetStep_below by lia.
      cbn [mbind result_bind]. rewrite IH by done. f_equal. lia.
    + rewrite decide_False by lia. rewrite IH by done. f_equal.
Qed.

Lemma indexOffset_fold z x y (l : list TileMatrix) tm offset :
  filter (fun t => zoom t = z) l = [tm] ->
  ComtIndex.inRange x y (tileMatrixLimits tm) = true ->
  0 <= minTileCol (tileMatrixLimits tm) -> 0 <= minTileRow (tileMatrixLimits tm) ->
  forEach (ComtIndex.indexOffsetStep z x y) (filter (fun tm => zoom tm <= z) l) offset
  = Ok (offset + 3 * Spec.tilesBelow z l + Spec.offsetInZoom tm x y).
Proof.
  intros Hz Hin Hc Hr. revert offset Hz.
  induction l as [|t l IH]; intros offset Hz; [done|].
  rewrite filter_cons in Hz. rewrite filter_cons, tilesBelow_cons.
  destruct (decide (zoom t = z)) as [Heq|Hne].
  - injection Hz as -> Hz. subst z.
    rewrite decide_True, decide_False by lia.
    cbn [forEach]. rewrite indexOffsetStep_at by done.
    cbn [mbind result_bind]. rewrite indexOffset_fold_below by done.
    f_equal. lia.
  - destruct (decide (zoom t <= z)).
    + rewrite decide_True by lia.
      cbn [forEach]. rewrite indexOffsetStep_below by lia.
      cbn [mbind result_bind]. rewrite IH by done. f_equal. lia.
    + rewrite decide_False by lia. rewrite IH by done. f_equal.
Qed.

Lemma indexOffset_fold_out z x y (l : list TileMatrix) tm offset :
  filter (fun t => zoom t = z) l = [tm] ->
  ComtIndex.inRange x y (tileMatrixLimits tm) = false ->
  forEach (ComtIndex.indexOffsetStep z x y) (filter (fun tm => zoom tm <= z) l) offset
  = Throw (Error "Specified tile index not part of the TileSet").
Proof.
  intros Hz Hin. revert offset Hz.
  induction l as [|t l IH]; intros offset Hz; [done|].
  rewrite filter_cons in Hz. rewrite filter_cons.
  destruct (decide (zoom t = z)) as [Heq|Hne].
  - injection Hz as -> Hz. subst z.
    rewrite decide_True by lia.
    cbn [forEach]. by rewrite indexOffsetStep_out.
  - destruct (decide (zoom t <= z)).
    + cbn [forEach]. rewrite indexOffsetStep_below by lia.
      cbn [mbind result_bind]. by rewrite IH.
    + by rewrite IH.
Qed.

Lemma indexOffsetStep_at_ok x y offset ts :
  ComtIndex.inRange x y (tileMatrixLimits ts) = true ->
  exists o, ComtIndex.indexOffsetStep (zoom ts) x y offset ts = Ok o.
Proof.
  intros Hin. unfold ComtIndex.indexOffsetStep, ComtIndex.isPyramidSection.
  rewrite Hin, Z.eqb_refl, Z.ltb_irrefl. cbn [negb andb].
  destruct (aggregationCoefficient ts =? -1); eauto.
Qed.

Lemma indexOffset_fold_ok z x y (l : list TileMatrix) tm offset :
  filter (fun t => zoom t = z) l = [tm] ->
  ComtIndex.inRange x y (tileMatrixLimits tm) = true ->
  exists o,
    forEach (ComtIndex.indexOffsetStep z x y) (filter (fun tm => zoom tm <= z) l) offset
    = Ok o.
Proof.
  intros Hz Hin. revert offset Hz.
  induction l as [|t l IH]; intros offset Hz; [done|].
  rewrite filter_cons in Hz. rewrite filter_cons.
  destruct (decide (zoom t = z)) as [Heq|Hne].
  - injection Hz as -> Hz. subst z.
    rewrite decide_True by lia. cbn [forEach].
    destruct (indexOffsetStep_at_ok x y offset tm Hin) as [o ->].
    cbn [mbind result_bind]. rewrite indexOffset_fold_below by done. eauto.
  - destruct (decide (zoom t <= z)); [|by apply IH].
    cbn [forEach]. rewrite indexOffsetStep_below by lia.
    cbn [mbind result_bind]. by apply IH.
Qed.

Lemma offsetInZoom_mult tm x y : exists k, Spec.offsetInZoom tm x y = 3 * k.
Proof.
  unfold Spec.offsetInZoom.
  destruct (aggregationCoefficient tm =? -1); eexists; rewrite Z.mul_comm; reflexivity.
Qed.

(** C4.  For a tile inside the limits of its zoom,
    [calculateIndexOffsetForTile] returns 3 bytes for every tile of every
    lower zoom plus, at the zoom itself, the row-major offset of a pyramid
    zoom or the offset [(entriesBeforeFragment + fullRowsInFragment ×
    fragmentWidth + partialRow) × 3] of a fragmented zoom, the sparse
    fragment bounds being the intersection of the tile's dense fragment cell
    with the limits.  The tile matrix set has one tile matrix of that zoom,
    with limits that are not negative; an aggregation coefficient is [-1] or
    a natural number. *)
Theorem calculateIndexOffsetForTile_spec tms z x y tm :
  Spec.onlyZoom tms z tm ->
  ComtIndex.inRange x y (tileMatrixLimits tm) = true ->
  0 <= minTileCol (tileMatrixLimits tm) ->
  0 <= minTileRow (tileMatrixLimits tm) ->
  aggregationCoefficient tm = -1 \/ 0 <= aggregationCoefficient tm ->
  let offset := 3 * Spec.tilesBelow z (tileMatrix tms) + Spec.offsetInZoom tm x y in
  ComtIndex.calculateIndexOffsetForTile tms z x y = Ok (offset, offset / 3)
  /\ 3 * (offset / 3) = offset.
Proof.
  intros Hz Hin Hc Hr _ offset. unfold ComtIndex.calculateIndexOffsetForTile.
  rewrite (indexOffset_fold _ _ _ _ tm) by done.
  cbn [mbind result_bind]. split; [reflexivity|].
  subst offset. destruct (offsetInZoom_mult tm x y) as [k ->].
  replace (0 + 3 * Spec.tilesBelow z (tileMatrix tms) + 3 * k)
    with ((Spec.tilesBelow z (tileMatrix tms) + k) * 3) by lia.
  replace (3 * Spec.tilesBelow z (tileMatrix tms) + 3 * k)
    with ((Spec.tilesBelow z (tileMatrix tms) + k) * 3) by lia.
  rewrite Z.div_mul by lia. lia.
Qed.

Lemma fragmentRangeStep_below z x y m p st ts :
  zoom ts < z ->
  exists st', ComtIndex.fragmentRangeStep z x y m p st ts = Ok st'.
Proof.
  intros H. unfold ComtIndex.fragmentRangeStep.
  destruct (Z.eqb_spec (zoom ts) z); [lia|].
  destruct (Z.ltb_spec (zoom ts) z); [|lia].
  simpl. eauto.
Qed.

Lemma fragmentRangeStep_at x y m p st ts :
  ComtIndex.fragmentRangeStep (zoom ts) x y m p st ts
  = if ComtIndex.inRange x y (tileMatrixLimits ts) then
      let sfb := ComtIndex.calculateBounds (aggregationCoefficient ts)
                   (tileMatrixLimits ts) (Some x) (Some y) in
      let start :=
        startOffset st
        + ((ComtIndex.calculateNumberOfFragmentsBefore x y (tileMatrixLimits ts)
              (aggregationCoefficient ts) - 1) * 5
           + ComtIndex.numberOfIndexEntriesBeforeFragment sfb (tileMatrixLimits ts) * 3
           + m + p) in
      Ok {| fragmentIndex := fragmentIndex st;
            startOffset := start;
            endOffset := start + Spec.entriesInFragment sfb * 3 + 5 |}
    else Throw (Error "Specified tile index not part of the TileSet.").
Proof.
  unfold ComtIndex.fragmentRangeStep.
  rewrite Z.eqb_refl, Z.ltb_irrefl.
  destruct (ComtIndex.inRange x y (tileMatrixLimits ts)); reflexivity.
Qed.

Lemma fragmentRange_fold_below z x y m p (l : list TileMatrix) st :
  filter (fun t => zoom t = z) l = [] ->
  exists st',
    forEach (ComtIndex.fragmentRangeStep z x y m p)
      (filter (fun t => aggregationCoefficient t <> -1 /\ zoom t <= z) l) st
    = Ok st'.
Proof.
  revert st. induction l as [|t l IH]; intros st Hz; [simpl; eauto|].
  rewrite filter_cons in Hz. rewrite filter_cons.
  destruct (decide (zoom t = z)) as [|Hne]; [done|].
  destruct (decide (aggregationCoefficient t <> -1 /\ zoom t <= z)) as [[? ?]|]; [|by apply IH].
  cbn [forEach].
  destruct (fragmentRangeStep_below z x y m p st t) as [st' ->]; [lia|].
  cbn [mbind result_bind]. by apply IH.
Qed.

Lemma fragmentRange_fold_isOk z x y m p (l : list TileMatrix) tm st :
  filter (fun t => zoom t = z) l = [tm] ->
  isOk (forEach (ComtIndex.fragmentRangeStep z x y m p)
          (filter (fun t => aggregationCoefficient t <> -1 /\ zoom t <= z) l) st)
  = (aggregationCoefficient tm =? -1) || ComtIndex.inRange x y (tileMatrixLimits tm).
Proof.
  revert st. induction l as [|t l IH]; intros st Hz; [done|].
  rewrite filter_cons in Hz. rewrite filter_cons.
  destruct (decide (zoom t = z)) as [Heq|Hne].
  - injection Hz as -> Hz. subst z.
    destruct (Z.eqb_spec (aggregationCoefficient tm) (-1)) as [E|E].
    + rewrite decide_False by lia.
      destruct (fragmentRange_fold_below (zoom tm) x y m p l st Hz) as [st' ->]. done.
    + rewrite decide_True by lia.
      cbn [forEach]. rewrite fragmentRangeStep_at.
      destruct (ComtIndex.inRange x y (tileMatrixLimits tm)); [|done].
      cbn [mbind result_bind].
      match goal with |- isOk (forEach _ _ ?s) = _ =>
        destruct (fragmentRange_fold_below (zoom tm) x y m p l s Hz) as [st' ->] end.
      done.
  - destruct (decide (aggregationCoefficient t <> -1 /\ zoom t <= z)) as [[? ?]|]; [|by apply IH].
    cbn [forEach].
    destruct (fragmentRangeStep_below z x y m p st t) as [st' ->]; [lia|].
    cbn [mbind result_bind]. by apply IH.
Qed.

Lemma getIndexEntry_outside unzlibSync JSON_parse (c : ComtCache) h ic tm xyz :
  header c = Some h -> indexCache c = Some ic ->
  0 <= TileIndex.z xyz ->
  tileMatrix (tileMatrixSet (metadata h)) !! Z.to_nat (TileIndex.z xyz) = Some tm ->
  ComtIndex.inRange (TileIndex.x xyz)
    (JS.shl 1 (TileIndex.z xyz) - TileIndex.y xyz - 1) (tileMatrixLimits tm) = false ->
  getIndexEntry unzlibSync JSON_parse c xyz = Ok (None, c).
Proof.
  intros Hh Hic Hz Htm Hout. unfold getIndexEntry.
  rewrite Hh. cbn [mbind result_bind]. rewrite Hh, Hic.
  destruct (Z.ltb_spec (TileIndex.z xyz) 0); [lia|].
  rewrite Htm. cbn [mbind result_bind].
  unfold ComtIndex.inRange in Hout.
  set (l := tileMatrixLimits tm) in *.
  set (tmsY := JS.shl 1 (TileIndex.z xyz) - TileIndex.y xyz - 1) in *.
  assert ((TileIndex.x xyz <? minTileCol l) || (maxTileCol l <? TileIndex.x xyz)
          || (tmsY <? minTileRow l) || (maxTileRow l <? tmsY) = true) as ->; [|done].
  clearbody l tmsY. zbool; simpl in *; try done; lia.
Qed.

Lemma getTile_outside unzlibSync gunzipSync JSON_parse (c : ComtCache) h ic tm xyz :
  header c = Some h -> indexCache c = Some ic ->
  0 <= TileIndex.z xyz ->
  tileMatrix (tileMatrixSet (metadata h)) !! Z.to_nat (TileIndex.z xyz) = Some tm ->
  ComtIndex.inRange (TileIndex.x xyz)
    (JS.shl 1 (TileIndex.z xyz) - TileIndex.y xyz - 1) (tileMatrixLimits tm) = false ->
  getTile unzlibSync gunzipSync JSON_parse c xyz = Ok ([], c).
Proof.
  intros. unfold getTile, fetchTile.
  by erewrite getIndexEntry_outside.
Qed.

(** [getIndexEntry] takes the limits from the position [z] of the tile
    matrix array, not from the tile matrix whose zoom is [z]: where the array
    has no such position the request ends in a [TypeError], whatever the
    address. *)
Lemma getTile_no_position unzlibSync gunzipSync JSON_parse (c : ComtCache) h ic xyz :
  header c = Some h -> indexCache c = Some ic ->
  0 <= TileIndex.z xyz ->
  tileMatrix (tileMatrixSet (metadata h)) !! Z.to_nat (TileIndex.z xyz) = None ->
  getTile unzlibSync gunzipSync JSON_parse c xyz = Throw TypeError.
Proof.
  intros Hh Hic Hz Htm. unfold getTile, fetchTile, getIndexEntry.
  rewrite Hh. cbn [mbind result_bind]. rewrite Hh, Hic.
  destruct (Z.ltb_spec (TileIndex.z xyz) 0); [lia|].
  by rewrite Htm.
Qed.

(** C8.  Where the code departs from the claim: for a tile outside the
    limits of a pyramid zoom (aggregation coefficient [-1]) that the tile
    matrix set describes, [calculateIndexOffsetForTile] throws and
    [getFragmentRangeForTile] does not.  Its filter drops the pyramid zooms
    before the range check; the source marks the place with "TODO: throw
    exception if zoom < fragment index". *)
Theorem getFragmentRangeForTile_misses_pyramid_zoom (tms : TileMatrixSet) z tm x y
  metadataLength pyramidLength :
  Spec.onlyZoom tms z tm ->
  aggregationCoefficient tm = -1 ->
  ComtIndex.inRange x y (tileMatrixLimits tm) = false ->
  isOk (ComtIndex.calculateIndexOffsetForTile tms z x y) = false
  /\ isOk (ComtIndex.getFragmentRangeForTile tms z x y metadataLength pyramidLength)
     = true.
Proof.
  intros Hz Hc Hout. split.
  - unfold ComtIndex.calculateIndexOffsetForTile.
    by rewrite (indexOffset_fold_out _ _ _ _ tm).
  - unfold ComtIndex.getFragmentRangeForTile.
    rewrite (fragmentRange_fold_isOk _ _ _ _ _ _ tm) by done.
    rewrite Hc. reflexivity.
Qed.

(** ** The writer *)

Lemma extends_refl st : extends st st [] [].
Proof. unfold extends. rewrite !app_nil_r. simpl. repeat split; lia. Qed.

Lemma extends_trans st1 st2 st3 b1 b2 l1 l2 :
  extends st1 st2 b1 l1 -> extends st2 st3 b2 l2 ->
  extends st1 st3 (b1 ++ b2) (l1 ++ l2).
Proof.
  intros (S1 & L1 & N1 & D1 & F1 & P1) (S2 & L2 & N2 & D2 & F2 & P2).
  unfold extends. rewrite S2, S1, L2, L1, N2, N1, D2, D1, F2, F1, P2, P1.
  rewrite !app_assoc, length_app. repeat split; lia.
Qed.

Lemma emit_extends st bytes line n :
  Z.of_nat (length bytes) = n ->
  extends st (Converter.emit st bytes line n) bytes [line].
Proof. intros <-. unfold extends, Converter.emit, Converter.writeBuffer. simpl. done. Qed.

Lemma toBytesLE_ok v n b :
  Encoder.toBytesLE v n = Ok b -> 0 <= n ->
  b = NodeBuffer.le (Z.to_nat n) v /\ Z.of_nat (length b) = n /\ 0 <= v < 256 ^ n.
Proof.
  unfold Encoder.toBytesLE. intros H Hn.
  destruct (Z.leb_spec 0 v); [|done].
  destruct (Z.ltb_spec v (256 ^ n)); [|done].
  simpl in H. injection H as <-. rewrite length_le. repeat split; lia.
Qed.

Lemma writePadding_eq st i :
  Converter.writePadding st i = Ok (Converter.emit st [0; 0; 0] LogPadding 3).
Proof. reflexivity. Qed.

Lemma writePadding_extends (l : list Z) st :
  exists st',
    forEach Converter.writePadding l st = Ok st'
    /\ extends st st' (replicate (3 * length l) 0) (replicate (length l) LogPadding).
Proof.
  revert st. induction l as [|i l IH]; intros st.
  - exists st. split; [done|]. apply extends_refl.
  - cbn [forEach]. rewrite writePadding_eq.
    cbn [mbind result_bind].
    destruct (IH (Converter.emit st [0; 0; 0] LogPadding 3))
      as (st' & -> & E).
    exists st'. split; [done|].
    replace (3 * length (i :: l))%nat with (3 + 3 * length l)%nat by (simpl; lia).
    change (replicate (3 + 3 * length l) 0) with ([0; 0; 0] ++ replicate (3 * length l) 0).
    change (replicate (length (i :: l)) LogPadding)
      with ([LogPadding] ++ replicate (length l) LogPadding).
    eapply extends_trans; [|exact E]. by apply emit_extends.
Qed.

(** What one turn of the fragment loop writes. *)
Lemma fragmentLoopBody_ok comtIndex st tile st' :
  Converter.fragmentLoopBody comtIndex st tile = Ok st' ->
  exists off idx,
    ComtIndex.calculateIndexOffsetForTile comtIndex (TileInfo.zoom tile)
      (TileInfo.column tile) (TileInfo.row tile) = Ok (off, idx)
    /\ TileInfo.size tile <= Converter.MAX_TILE_SIZE
    /\ let k := Z.to_nat (idx - Converter.previousIndex st - 1) in
       let newFragment :=
         JS.gtOpt (TileInfo.fragmentIndex tile) (Converter.previousFragmentIndex st) in
       let prefix :=
         if newFragment then NodeBuffer.le 5 (Converter.dataSectionOffset st) else [] in
       let prefixLine :=
         if newFragment then [LogFragmentOffset (Converter.dataSectionOffset st)] else [] in
       Converter.stream st'
       = Converter.stream st ++ prefix ++ replicate (3 * k) 0
           ++ NodeBuffer.le 3 (TileInfo.size tile)
       /\ Converter.logStreamFragments st'
          = Converter.logStreamFragments st ++ prefixLine
              ++ replicate k LogPadding ++ [LogEntry (TileInfo.size tile)]
       /\ Converter.indexFragmentLength st'
          = Converter.indexFragmentLength st + Z.of_nat (length prefix)
            + 3 * Z.of_nat k + 3
       /\ Converter.dataSectionOffset st'
          = Converter.dataSectionOffset st + TileInfo.size tile
       /\ Converter.previousFragmentIndex st' = TileInfo.fragmentIndex tile
       /\ Converter.previousIndex st' = idx.
Proof.
  unfold Converter.fragmentLoopBody. intros H.
  unfold Converter.validateTileSize in H.
  destruct (Z.ltb_spec Converter.MAX_TILE_SIZE (TileInfo.size tile)) as [|Hsz]; [done|].
  cbn [mbind result_bind] in H.
  (* the fragment offset *)
  set (newFragment := JS.gtOpt _ _) in *.
  assert (exists st1 prefix prefixLine,
             (if newFragment
              then absoluteFragmentOffset ←
                     Encoder.toBytesLE (Converter.dataSectionOffset st)
                       Converter.NUM_BYTES_ABSOLUTE_OFFSET;
                   Ok (Converter.emit st absoluteFragmentOffset
                         (LogFragmentOffset (Converter.dataSectionOffset st))
                         Converter.NUM_BYTES_ABSOLUTE_OFFSET)
              else Ok st) = Ok st1
             /\ extends st st1 prefix prefixLine
             /\ prefix = (if newFragment
                          then NodeBuffer.le 5 (Converter.dataSectionOffset st) else [])
             /\ prefixLine = (if newFragment
                              then [LogFragmentOffset (Converter.dataSectionOffset st)]
                              else [])) as (st1 & prefix & prefixLine & E1 & X1 & -> & ->).
  { destruct newFragment.
    - destruct (Encoder.toBytesLE (Converter.dataSectionOffset st) _) as [b|e] eqn:Eb;
        [|by cbn in H].
      apply toBytesLE_ok in Eb as (-> & Lb & _);
        [|unfold Converter.NUM_BYTES_ABSOLUTE_OFFSET; lia].
      eexists _, _, _. split; [reflexivity|]. split; [|done].
      by apply emit_extends.
    - eexists _, _, _. split; [reflexivity|]. split; [apply extends_refl|done]. }
  rewrite E1 in H. cbn [mbind result_bind] in H.
  destruct (ComtIndex.calculateIndexOffsetForTile _ _ _ _) as [[off idx]|e] eqn:Ei; [|done].
  cbn [mbind result_bind snd] in H.
  exists off, idx. split; [done|]. split; [done|].
  (* the padding *)
  set (padding := idx - Converter.previousIndex st1 - 1) in *.
  assert (exists st2,
             (if 0 <? padding
              then forEach Converter.writePadding (seqZ 0 padding) st1
              else Ok st1) = Ok st2
             /\ extends st1 st2 (replicate (3 * Z.to_nat padding) 0)
                  (replicate (Z.to_nat padding) LogPadding)) as (st2 & E2 & X2).
  { destruct (Z.ltb_spec 0 padding).
    - destruct (writePadding_extends (seqZ 0 padding) st1) as (st2 & -> & X).
      rewrite length_seqZ in X. eauto.
    - exists st1. split; [done|].
      replace (Z.to_nat padding) with 0%nat by lia. apply extends_refl. }
  rewrite E2 in H. cbn [mbind result_bind] in H.
  destruct (Encoder.toBytesLE (TileInfo.size tile) _) as [b|e] eqn:Eb; [|done].
  apply toBytesLE_ok in Eb as (-> & Lb & _);
    [|unfold Converter.NUM_BYTES_TILE_SIZE; lia].
  cbn [mbind result_bind] in H. injection H as <-.
  pose proof (extends_trans _ _ _ _ _ _ _ X1 X2) as (S & L & N & D & F & P).
  destruct X1 as (_ & _ & _ & _ & _ & P1).
  cbn [Converter.stream Converter.logStreamFragments Converter.indexFragmentLength
       Converter.dataSectionOffset Converter.previousFragmentIndex
       Converter.previousIndex Converter.emit].
  unfold Converter.writeBuffer.
  subst padding. rewrite P1 in *.
  rewrite S, L, N, D. rewrite <- !app_assoc. repeat split; try done.
  rewrite !length_app, length_replicate. unfold Converter.NUM_BYTES_TILE_SIZE. lia.
Qed.

Lemma copy_middle (src pre mid rest : Buffer) :
  length mid = length src ->
  NodeBuffer.copy src (pre ++ mid ++ rest) (Z.of_nat (length pre))
  = pre ++ src ++ rest.
Proof.
  intros Hlen. apply list_eq. intros i. unfold NodeBuffer.copy.
  rewrite list_lookup_imap.
  destruct (decide (i < length pre)%nat) as [Hi|Hi].
  - rewrite !lookup_app_l by done.
    destruct (lookup_lt_is_Some_2 pre i Hi) as [v ->]. simpl.
    destruct (Z.leb_spec (Z.of_nat (length pre)) (Z.of_nat i)); [lia|done].
  - rewrite !(lookup_app_r pre) by lia.
    destruct (decide (i - length pre < length mid)%nat) as [Hm|Hm].
    + rewrite !lookup_app_l by lia.
      destruct (lookup_lt_is_Some_2 mid _ Hm) as [v ->]. simpl.
      destruct (Z.leb_spec (Z.of_nat (length pre)) (Z.of_nat i)); [|lia].
      replace (Z.to_nat (Z.of_nat i - Z.of_nat (length pre))) with (i - length pre)%nat by lia.
      destruct (lookup_lt_is_Some_2 src (i - length pre)) as [w ->]; [lia|done].
    + rewrite !lookup_app_r by lia. rewrite Hlen.
      destruct (rest !! _) as [v|] eqn:E; [|done]. simpl.
      destruct (Z.leb_spec (Z.of_nat (length pre)) (Z.of_nat i)); [|lia].
      replace (Z.to_nat (Z.of_nat i - Z.of_nat (length pre))) with (i - length pre)%nat by lia.
      rewrite (lookup_ge_None_2 src) by lia. done.
Qed.

Lemma pyramidLoopBody_ok st i st' :
  Converter.pyramidLoopBody st i = Ok st' ->
  exists tileInfo,
    Converter.p_tileIterator st = tileInfo :: Converter.p_tileIterator st'
    /\ Converter.indexPyramidBuffer st'
       = NodeBuffer.copy (NodeBuffer.le 3 (TileInfo.size tileInfo))
           (Converter.indexPyramidBuffer st) (i * 3)
    /\ Converter.logStreamPyramid st'
       = Converter.logStreamPyramid st ++ [TileInfo.size tileInfo]
    /\ Converter.p_dataSectionOffset st'
       = Converter.p_dataSectionOffset st + TileInfo.size tileInfo
    /\ 0 <= TileInfo.size tileInfo <= Converter.MAX_TILE_SIZE.
Proof.
  unfold Converter.pyramidLoopBody. intros H.
  destruct (Converter.p_tileIterator st) as [|tileInfo rest]; [done|].
  unfold Converter.validateTileSize in H.
  destruct (Z.ltb_spec Converter.MAX_TILE_SIZE (TileInfo.size tileInfo)); [done|].
  cbn [mbind result_bind] in H.
  destruct (Encoder.toBytesLE (TileInfo.size tileInfo) _) as [b|e] eqn:Eb; [|done].
  apply toBytesLE_ok in Eb as (-> & Lb & Hb);
    [|unfold Converter.NUM_BYTES_TILE_SIZE; lia].
  cbn [mbind result_bind] in H. injection H as <-.
  exists tileInfo. simpl. repeat split; try done; lia.
Qed.

(** The first loop of [writeIndex] consumes [n] tiles and lays their sizes
    out in the pyramid buffer. *)
Lemma pyramidLoop_ok (n : nat) k (st p : Converter.PyramidState) (pre : Buffer) :
  forEach Converter.pyramidLoopBody (seqZ k (Z.of_nat n)) st = Ok p ->
  Converter.indexPyramidBuffer st = pre ++ replicate (3 * n) 0 ->
  Z.of_nat (length pre) = 3 * k ->
  exists consumed,
    Converter.p_tileIterator st = consumed ++ Converter.p_tileIterator p
    /\ length consumed = n
    /\ Converter.indexPyramidBuffer p
       = pre ++ concat (NodeBuffer.le 3 <$> (TileInfo.size <$> consumed))
    /\ Converter.logStreamPyramid p
       = Converter.logStreamPyramid st ++ (TileInfo.size <$> consumed)
    /\ Converter.p_dataSectionOffset p
       = Converter.p_dataSectionOffset st + sumZ (TileInfo.size <$> consumed)
    /\ Forall (fun t => 0 <= TileInfo.size t <= Converter.MAX_TILE_SIZE) consumed.
Proof.
  revert k st pre. induction n as [|n IH]; intros k st pre H Hbuf Hpre.
  - simpl in H. injection H as <-. exists [].
    rewrite Hbuf. simpl. rewrite !app_nil_r.
    repeat split; try done. unfold sumZ; simpl; lia.
  - rewrite seqZ_cons in H by lia. cbn [forEach] in H.
    destruct (Converter.pyramidLoopBody st k) as [st1|e] eqn:E1; [|done].
    cbn [mbind result_bind] in H.
    apply pyramidLoopBody_ok in E1 as (tileInfo & Hit1 & Hb1 & Hlog1 & Hdso1 & Hsz).
    rewrite Hbuf in Hb1.
    replace (3 * S n)%nat with (3 + 3 * n)%nat in Hb1 by lia.
    change (replicate (3 + 3 * n) 0) with ([0; 0; 0] ++ replicate (3 * n) 0) in Hb1.
    replace (k * 3) with (Z.of_nat (length pre)) in Hb1 by lia.
    rewrite copy_middle in Hb1 by (by rewrite length_le).
    replace (Z.pred (Z.of_nat (S n))) with (Z.of_nat n) in H by lia.
    rewrite app_assoc in Hb1.
    apply IH with (pre := pre ++ NodeBuffer.le 3 (TileInfo.size tileInfo)) in H
      as (consumed & Hit & Hlen & Hb & Hlog & Hdso & Hall); [| done |].
    + exists (tileInfo :: consumed). rewrite Hit1, Hit, Hb, Hlog, Hdso, Hlog1, Hdso1.
      cbn [fmap list_fmap concat length]. rewrite <- !app_assoc.
      repeat split; try done; [by rewrite Hlen| |by constructor].
      unfold sumZ. simpl. lia.
    + rewrite length_app, length_le. lia.
Qed.

Lemma logBytes_app l1 l2 : logBytes (l1 ++ l2) = logBytes l1 + logBytes l2.
Proof.
  unfold logBytes, sumZ. rewrite fmap_app, foldr_app.
  generalize (foldr Z.add 0 (lineBytes <$> l2)). intros c.
  induction (lineBytes <$> l1) as [|a l IH]; simpl; lia.
Qed.

Lemma logBytes_padding k : logBytes (replicate k LogPadding) = 3 * Z.of_nat k.
Proof.
  induction k as [|k IH]; [done|].
  change (replicate (S k) LogPadding) with ([LogPadding] ++ replicate k LogPadding).
  rewrite logBytes_app, IH. unfold logBytes, sumZ. simpl. lia.
Qed.

Lemma logBytes_count log :
  logBytes log
  = 5 * countLines isFragmentOffset log
    + 3 * (countLines isPadding log + countLines isEntry log).
Proof.
  unfold logBytes, sumZ, countLines.
  induction log as [|[o| |s] log IH];
    cbn [fmap list_fmap foldr List.filter isFragmentOffset isPadding isEntry
         lineBytes length] in *;
    rewrite ?Nat2Z.inj_succ; lia.
Qed.

(** The second loop of [writeIndex]: the stream grows by what the log
    accounts for, and [indexFragmentLength] counts those bytes. *)
Lemma fragmentLoop_ok comtIndex (tiles : list TileInfo.t) st st' :
  forEach (Converter.fragmentLoopBody comtIndex) tiles st = Ok st' ->
  exists frag lines,
    Converter.stream st' = Converter.stream st ++ frag
    /\ Converter.logStreamFragments st' = Converter.logStreamFragments st ++ lines
    /\ Converter.indexFragmentLength st'
       = Converter.indexFragmentLength st + Z.of_nat (length frag)
    /\ Z.of_nat (length frag) = logBytes lines
    /\ Converter.dataSectionOffset st'
       = Converter.dataSectionOffset st + sumZ (TileInfo.size <$> tiles).
Proof.
  revert st. induction tiles as [|tile tiles IH]; intros st H.
  - simpl in H. injection H as <-. exists [], [].
    rewrite !app_nil_r. unfold sumZ. simpl. repeat split; lia.
  - cbn [forEach] in H.
    destruct (Converter.fragmentLoopBody comtIndex st tile) as [st1|e] eqn:E1; [|done].
    cbn [mbind result_bind] in H.
    apply fragmentLoopBody_ok in E1
      as (off & idx & _ & _ & S1 & L1 & N1 & D1 & _ & _).
    apply IH in H as (frag & lines & S2 & L2 & N2 & B2 & D2).
    eexists _, _. rewrite S2, S1, L2, L1, N2, N1, D2, D1.
    rewrite <- !app_assoc. split; [reflexivity|]. split; [reflexivity|].
    rewrite !length_app, !logBytes_app, logBytes_padding, length_replicate, length_le.
    split; [lia|]. split.
    + rewrite !Nat2Z.inj_add, B2.
      change (logBytes [LogEntry (TileInfo.size tile)]) with 3.
      destruct (JS.gtOpt _ _).
      * rewrite length_le.
        change (logBytes [LogFragmentOffset (Converter.dataSectionOffset st)]) with 5.
        lia.
      * change (logBytes []) with 0. cbn [length]. lia.
    + unfold sumZ. cbn [fmap list_fmap foldr]. lia.
Qed.

(** Two tiles that follow one another inside the fragment loop: between
    their entries the writer logs [indexOf(B) - indexOf(A) - 1] padding lines
    (none when that number is not positive), after the offset line of a new
    fragment if [B] starts one. *)
Lemma padding_inside_fragment_loop comtIndex st tileA tileB stA stB :
  Converter.fragmentLoopBody comtIndex st tileA = Ok stA ->
  Converter.fragmentLoopBody comtIndex stA tileB = Ok stB ->
  exists offA idxA offB idxB,
    ComtIndex.calculateIndexOffsetForTile comtIndex (TileInfo.zoom tileA)
      (TileInfo.column tileA) (TileInfo.row tileA) = Ok (offA, idxA)
    /\ ComtIndex.calculateIndexOffsetForTile comtIndex (TileInfo.zoom tileB)
         (TileInfo.column tileB) (TileInfo.row tileB) = Ok (offB, idxB)
    /\ Converter.logStreamFragments stB
       = Converter.logStreamFragments stA
           ++ (if JS.gtOpt (TileInfo.fragmentIndex tileB) (TileInfo.fragmentIndex tileA)
               then [LogFragmentOffset (Converter.dataSectionOffset stA)] else [])
           ++ replicate (Z.to_nat (idxB - idxA - 1)) LogPadding
           ++ [LogEntry (TileInfo.size tileB)].
Proof.
  intros HA HB.
  apply fragmentLoopBody_ok in HA as (offA & idxA & EA & _ & _ & _ & _ & _ & FA & PA).
  apply fragmentLoopBody_ok in HB as (offB & idxB & EB & _ & _ & LB & _).
  exists offA, idxA, offB, idxB. split; [done|]. split; [done|].
  by rewrite LB, FA, PA.
Qed.

Lemma sumZ_app l1 l2 : sumZ (l1 ++ l2) = sumZ l1 + sumZ l2.
Proof. unfold sumZ. induction l1 as [|a l1 IH]; simpl; lia. Qed.

Lemma writeIndex_ok zlibSync (stream : Buffer) tiles metadata pyramidMaxZoom r :
  Converter.writeIndex zlibSync stream tiles metadata pyramidMaxZoom = Ok r ->
  exists frag consumed rest,
    tiles = consumed ++ rest
    /\ Converter.s_logStreamPyramid r = TileInfo.size <$> consumed
    /\ let compressedIndexPyramid :=
         zlibSync (concat (NodeBuffer.le 3 <$> Converter.s_logStreamPyramid r)) in
       Converter.s_stream r = stream ++ compressedIndexPyramid ++ frag
       /\ Converter.pyramidSectionLength r = Z.of_nat (length compressedIndexPyramid)
       /\ Converter.fragmentSectionLength r = Z.of_nat (length frag)
       /\ Z.of_nat (length frag) = logBytes (Converter.s_logStreamFragments r)
       /\ Converter.s_dataSectionOffset r = sumZ (TileInfo.size <$> tiles).
Proof.
  unfold Converter.writeIndex. intros H.
  destruct (ComtIndex.new metadata) as [comtIndex|e]; [|done].
  cbn [mbind result_bind] in H.
  set (n := Converter.calculateNumTiles _) in *.
  unfold NodeBuffer.alloc in H.
  destruct (Z.ltb_spec (n * Converter.NUM_BYTES_TILE_SIZE) 0) as [|Hn]; [done|].
  cbn [mbind result_bind] in H.
  unfold Converter.NUM_BYTES_TILE_SIZE in Hn.
  destruct (forEach Converter.pyramidLoopBody _ _) as [p|e] eqn:Ep; [|done].
  cbn [mbind result_bind] in H.
  replace n with (Z.of_nat (Z.to_nat n)) in Ep at 1 by lia.
  apply pyramidLoop_ok with (pre := []) in Ep
    as (consumed & Hit & Hlen & Hb & Hlog & Hdso & _); [| |done].
  2:{ cbn [Converter.indexPyramidBuffer app]. f_equal.
      unfold Converter.NUM_BYTES_TILE_SIZE. lia. }
  cbn [Converter.p_tileIterator Converter.logStreamPyramid
       Converter.p_dataSectionOffset app] in *.
  destruct (forEach (Converter.fragmentLoopBody comtIndex) _ _) as [st|e] eqn:Ef; [|done].
  cbn [mbind result_bind] in H. injection H as <-.
  apply fragmentLoop_ok in Ef as (frag & lines & S & L & N & B & D).
  cbn [Converter.fragmentLoopStart Converter.stream Converter.logStreamFragments
       Converter.indexFragmentLength Converter.dataSectionOffset app] in *.
  exists frag, consumed, (Converter.p_tileIterator p).
  cbn [Converter.s_stream Converter.s_logStreamPyramid Converter.s_logStreamFragments
       Converter.s_dataSectionOffset Converter.pyramidSectionLength
       Converter.fragmentSectionLength].
  rewrite Hlog, <- Hb, S, L, N, D, Hdso, Hit.
  unfold Converter.writeBuffer. rewrite <- app_assoc, fmap_app, sumZ_app.
  repeat split; try done; lia.
Qed.

Lemma writeTiles_eq (payloads : list Buffer) (stream : Buffer) :
  Converter.writeTiles stream payloads = stream ++ concat payloads.
Proof.
  unfold Converter.writeTiles. revert stream.
  induction payloads as [|tile payloads IH]; intros stream.
  - by rewrite app_nil_r.
  - cbn [foldl concat].
    destruct (Z.ltb_spec 0 (Z.of_nat (length tile))).
    + rewrite IH. unfold Converter.writeBuffer. by rewrite <- app_assoc.
    + rewrite IH. destruct tile; [done|simpl in *; lia].
Qed.

Lemma writeUInt32LE_ok v b :
  NodeBuffer.writeUInt32LE v = Ok b -> b = NodeBuffer.le 4 v /\ 0 <= v < 2 ^ 32.
Proof.
  unfold NodeBuffer.writeUInt32LE. intros H.
  destruct (Z.leb_spec 0 v); [|done]. destruct (Z.ltb_spec v (2 ^ 32)); [|done].
  simpl in H. injection H as <-. split; [done|lia].
Qed.

Lemma writeBigUint64LE_ok v b :
  NodeBuffer.writeBigUint64LE v = Ok b -> b = NodeBuffer.le 8 v /\ 0 <= v < 2 ^ 64.
Proof.
  unfold NodeBuffer.writeBigUint64LE. intros H.
  destruct (Z.leb_spec 0 v); [|done]. destruct (Z.ltb_spec v (2 ^ 64)); [|done].
  simpl in H. injection H as <-. split; [done|lia].
Qed.

Lemma writeHeader_ok (metadataByteLength : Z) stream :
  Converter.writeHeader [] metadataByteLength = Ok stream ->
  stream = Converter.MAGIC ++ NodeBuffer.le 4 1 ++ NodeBuffer.le 4 metadataByteLength
             ++ [0; 0; 0; 0] ++ [0; 0; 0; 0; 0; 0; 0; 0].
Proof.
  unfold Converter.writeHeader. intros H.
  change (NodeBuffer.writeUInt32LE Converter.VERSION) with (Ok (NodeBuffer.le 4 1)) in H.
  cbn [mbind result_bind] in H.
  destruct (NodeBuffer.writeUInt32LE metadataByteLength) as [b|e] eqn:E; [|done].
  apply writeUInt32LE_ok in E as [-> _].
  cbn [mbind result_bind] in H.
  change (NodeBuffer.alloc 4) with (Ok [0; 0; 0; 0] : result Buffer) in H.
  change (NodeBuffer.alloc 8) with (Ok [0; 0; 0; 0; 0; 0; 0; 0] : result Buffer) in H.
  cbn [mbind result_bind] in H. injection H as <-.
  unfold Converter.writeBuffer. by rewrite <- ?app_assoc.
Qed.

(** The archive as [createComTileArchive] leaves it. *)
Lemma createComTileArchive_ok zlibSync metadata (metadataJson : CodeUnits) sizes
  (payloads : list Buffer) pyramidMaxZoom archive :
  Converter.createComTileArchive zlibSync metadata metadataJson sizes payloads
    pyramidMaxZoom = Ok archive ->
  exists placeholder r frag,
    Converter.writeHeader [] (Z.of_nat (length metadataJson)) = Ok placeholder
    /\ Converter.writeIndex zlibSync (placeholder ++ NodeBuffer.utf8 metadataJson)
         sizes metadata pyramidMaxZoom = Ok r
    /\ let compressedIndexPyramid :=
         zlibSync (concat (NodeBuffer.le 3 <$> Converter.s_logStreamPyramid r)) in
       archive
       = (Converter.MAGIC ++ NodeBuffer.le 4 1
            ++ NodeBuffer.le 4 (Z.of_nat (length metadataJson)))
           ++ NodeBuffer.le 4 (Converter.pyramidSectionLength r)
           ++ NodeBuffer.le 8 (Converter.fragmentSectionLength r)
           ++ NodeBuffer.utf8 metadataJson ++ compressedIndexPyramid ++ frag
           ++ concat payloads
       /\ Converter.pyramidSectionLength r = Z.of_nat (length compressedIndexPyramid)
       /\ Converter.fragmentSectionLength r = Z.of_nat (length frag)
       /\ Z.of_nat (length frag) = logBytes (Converter.s_logStreamFragments r)
       /\ 0 <= Converter.pyramidSectionLength r < 2 ^ 32
       /\ 0 <= Converter.fragmentSectionLength r < 2 ^ 64
       /\ Converter.s_stream r
          = (placeholder ++ NodeBuffer.utf8 metadataJson)
              ++ compressedIndexPyramid ++ frag.
Proof.
  unfold Converter.createComTileArchive. intros H.
  destruct (Converter.writeHeader [] _) as [placeholder|e] eqn:Eh; [|done].
  cbn [mbind result_bind] in H. unfold Converter.writeMetadata, Converter.writeBuffer in H.
  set (text := NodeBuffer.utf8 metadataJson) in *.
  destruct (Converter.writeIndex _ _ _ _ _) as [r|e] eqn:Ei; [|done].
  cbn [mbind result_bind] in H.
  destruct (NodeBuffer.writeUInt32LE _) as [pb|e] eqn:Ep; [|done].
  apply writeUInt32LE_ok in Ep as [-> Hp].
  cbn [mbind result_bind] in H.
  destruct (NodeBuffer.writeBigUint64LE _) as [fb|e] eqn:Ef; [|done].
  apply writeBigUint64LE_ok in Ef as [-> Hf].
  cbn [mbind result_bind] in H. injection H as <-.
  exists placeholder, r.
  pose proof Ei as Ei'.
  apply writeIndex_ok in Ei' as (frag & consumed & rest & _ & _ & S & P & F & B & _).
  exists frag. split; [done|]. split; [done|].
  cbn zeta. split; [|done].
  rewrite writeTiles_eq, S. clear S. apply writeHeader_ok in Eh as ->.
  unfold Converter.writeSync.
  set (pre := Converter.MAGIC ++ NodeBuffer.le 4 1
                ++ NodeBuffer.le 4 (Z.of_nat (length metadataJson))).
  set (comp := zlibSync _).
  replace ((((Converter.MAGIC ++ NodeBuffer.le 4 1
              ++ NodeBuffer.le 4 (Z.of_nat (length metadataJson))
              ++ [0; 0; 0; 0] ++ [0; 0; 0; 0; 0; 0; 0; 0]) ++ text)
             ++ comp ++ frag) ++ concat payloads)
    with (pre ++ [0; 0; 0; 0]
            ++ ([0; 0; 0; 0; 0; 0; 0; 0] ++ text ++ comp ++ frag ++ concat payloads))
    by (subst pre; by rewrite <- !app_assoc).
  change 12 with (Z.of_nat (length pre)).
  rewrite copy_middle by done.
  rewrite (app_assoc pre).
  change 16 with (Z.of_nat (length (pre ++ NodeBuffer.le 4 (Converter.pyramidSectionLength r)))).
  rewrite copy_middle by done.
  by rewrite <- !app_assoc.
Qed.

(** One turn of the fragment loop does not throw on a tile of the tile set
    whose size and data offset fit their fields. *)
Lemma fragmentLoopBody_run comtIndex st tile off idx :
  ComtIndex.calculateIndexOffsetForTile comtIndex (TileInfo.zoom tile)
    (TileInfo.column tile) (TileInfo.row tile) = Ok (off, idx) ->
  0 <= TileInfo.size tile <= Converter.MAX_TILE_SIZE ->
  0 <= Converter.dataSectionOffset st < 2 ^ 40 ->
  exists st', Converter.fragmentLoopBody comtIndex st tile = Ok st'.
Proof.
  intros Hi Hs Hd. unfold Converter.fragmentLoopBody, Converter.validateTileSize.
  destruct (Z.ltb_spec Converter.MAX_TILE_SIZE (TileInfo.size tile)); [lia|].
  cbn [mbind result_bind]. rewrite Hi.
  assert (Encoder.toBytesLE (Converter.dataSectionOffset st)
            Converter.NUM_BYTES_ABSOLUTE_OFFSET
          = Ok (NodeBuffer.le 5 (Converter.dataSectionOffset st))) as E5.
  { unfold Encoder.toBytesLE, Converter.NUM_BYTES_ABSOLUTE_OFFSET.
    destruct (Z.leb_spec 0 (Converter.dataSectionOffset st)); [|lia].
    destruct (Z.ltb_spec (Converter.dataSectionOffset st) (256 ^ 5)); [done|lia]. }
  assert (Encoder.toBytesLE (TileInfo.size tile) Converter.NUM_BYTES_TILE_SIZE
          = Ok (NodeBuffer.le 3 (TileInfo.size tile))) as E3.
  { unfold Encoder.toBytesLE, Converter.NUM_BYTES_TILE_SIZE.
    destruct (Z.leb_spec 0 (TileInfo.size tile)); [|lia].
    change Converter.MAX_TILE_SIZE with 1048575 in Hs.
    destruct (Z.ltb_spec (TileInfo.size tile) (256 ^ 3)); [done|lia]. }
  rewrite E5, E3.
  destruct (JS.gtOpt _ _); cbn [mbind result_bind snd].
  - match goal with |- context [if ?c then forEach _ ?l ?s else _] =>
      destruct c; [destruct (writePadding_extends l s) as (st2 & -> & _)|] end;
      cbn [mbind result_bind]; eauto.
  - match goal with |- context [if ?c then forEach _ ?l ?s else _] =>
      destruct c; [destruct (writePadding_extends l s) as (st2 & -> & _)|] end;
      cbn [mbind result_bind]; eauto.
Qed.

Lemma slice_middle (pre mid rest : Buffer) s e :
  s = Z.of_nat (length pre) -> e = s + Z.of_nat (length mid) ->
  slice (pre ++ mid ++ rest) s e = mid.
Proof.
  intros -> ->. unfold slice.
  rewrite Nat2Z.id, drop_app_length.
  replace (Z.to_nat (Z.of_nat (length pre) + Z.of_nat (length mid) - Z.of_nat (length pre)))
    with (length mid) by lia.
  by rewrite take_app_length.
Qed.

Lemma lineContent_padding (k : nat) :
  concat (lineContent <$> replicate k LogPadding) = replicate (3 * k) 0.
Proof.
  induction k as [|k IH]; [reflexivity|].
  replace (3 * S k)%nat with (3 + 3 * k)%nat by lia.
  cbn [replicate fmap list_fmap concat lineContent app Nat.add].
  fold (fmap (M:=list) lineContent (replicate k LogPadding)). by rewrite IH.
Qed.

(** The second loop of [writeIndex] sends to the stream, line by line, the
    bytes of what it logs. *)
Lemma fragmentLoop_content comtIndex (tiles : list TileInfo.t) st st' :
  forEach (Converter.fragmentLoopBody comtIndex) tiles st = Ok st' ->
  exists lines,
    Converter.logStreamFragments st' = Converter.logStreamFragments st ++ lines
    /\ Converter.stream st' = Converter.stream st ++ concat (lineContent <$> lines).
Proof.
  revert st. induction tiles as [|tile tiles IH]; intros st H.
  - simpl in H. injection H as <-. exists []. by rewrite !app_nil_r.
  - cbn [forEach] in H.
    destruct (Converter.fragmentLoopBody comtIndex st tile) as [st1|e] eqn:E1; [|done].
    cbn [mbind result_bind] in H.
    apply fragmentLoopBody_ok in E1 as (off & idx & _ & _ & S1 & L1 & _).
    apply IH in H as (lines & L2 & S2).
    eexists. rewrite L2, L1, S2, S1. rewrite <- !app_assoc.
    split; [reflexivity|].
    rewrite !fmap_app, !concat_app, lineContent_padding. rewrite <- ?app_assoc.
    f_equal.
    destruct (JS.gtOpt _ _); cbn [fmap list_fmap concat lineContent app];
      rewrite ?app_nil_r; reflexivity.
Qed.

(** What [writeIndex] appends to the stream: the compressed pyramid and,
    line by line, the bytes of the fragment log. *)
Lemma writeIndex_content zlibSync (stream : Buffer) tiles metadata pyramidMaxZoom r :
  Converter.writeIndex zlibSync stream tiles metadata pyramidMaxZoom = Ok r ->
  Converter.s_stream r
  = stream ++ zlibSync (concat (NodeBuffer.le 3 <$> Converter.s_logStreamPyramid r))
      ++ concat (lineContent <$> Converter.s_logStreamFragments r).
Proof.
  unfold Converter.writeIndex. intros H.
  destruct (ComtIndex.new metadata) as [comtIndex|e]; [|done].
  cbn [mbind result_bind] in H.
  set (n := Converter.calculateNumTiles _) in *.
  unfold NodeBuffer.alloc in H.
  destruct (Z.ltb_spec (n * Converter.NUM_BYTES_TILE_SIZE) 0) as [|Hn]; [done|].
  cbn [mbind result_bind] in H.
  unfold Converter.NUM_BYTES_TILE_SIZE in Hn.
  destruct (forEach Converter.pyramidLoopBody _ _) as [p|e] eqn:Ep; [|done].
  cbn [mbind result_bind] in H.
  replace n with (Z.of_nat (Z.to_nat n)) in Ep at 1 by lia.
  apply pyramidLoop_ok with (pre := []) in Ep
    as (consumed & _ & _ & Hb & Hlog & _); [| |done].
  2:{ cbn [Converter.indexPyramidBuffer app]. f_equal.
      unfold Converter.NUM_BYTES_TILE_SIZE. lia. }
  cbn [Converter.logStreamPyramid app] in *.
  destruct (forEach (Converter.fragmentLoopBody comtIndex) _ _) as [st|e] eqn:Ef; [|done].
  cbn [mbind result_bind] in H. injection H as <-.
  apply fragmentLoop_content in Ef as (lines & L & S).
  cbn [Converter.fragmentLoopStart Converter.stream Converter.logStreamFragments app] in *.
  cbn [Converter.s_stream Converter.s_logStreamPyramid Converter.s_logStreamFragments].
  rewrite Hlog, <- Hb, S, L.
  unfold Converter.writeBuffer. by rewrite <- app_assoc.
Qed.

(** C10.  The two lengths [writeIndex] returns are the lengths of what it
    wrote.  What [writeIndex] appends to the stream is the compressed pyramid
    followed by the fragment section, which holds, line by line of the
    fragment log, the 5 bytes of a fragment offset, the 3 zero bytes of a
    padding entry and the 3 bytes of a size entry, and nothing else; the tile
    payloads follow it at once in the archive.  The first length is the
    length of the compressed pyramid, the second the length of the fragment
    section, 5 bytes for each offset line and 3 bytes for each padding line
    and each entry line; and they are the values [createComTileArchive] leaves
    in the header fields at the bytes 12 to 16 and 16 to 24. *)
Theorem index_lengths_match_archive zlibSync metadata (metadataJson : CodeUnits)
  sizes (payloads : list Buffer) pyramidMaxZoom archive :
  Converter.createComTileArchive zlibSync metadata metadataJson sizes payloads
    pyramidMaxZoom = Ok archive ->
  exists placeholder r,
    Converter.writeHeader [] (Z.of_nat (length metadataJson)) = Ok placeholder
    /\ Converter.writeIndex zlibSync (placeholder ++ NodeBuffer.utf8 metadataJson)
         sizes metadata pyramidMaxZoom = Ok r
    /\ let compressed :=
         zlibSync (concat (NodeBuffer.le 3 <$> Converter.s_logStreamPyramid r)) in
       let log := Converter.s_logStreamFragments r in
       let frag := concat (lineContent <$> log) in
       let indexStart := 24 + Z.of_nat (length (NodeBuffer.utf8 metadataJson)) in
       let fragmentStart := indexStart + Z.of_nat (length compressed) in
       Converter.s_stream r
       = (placeholder ++ NodeBuffer.utf8 metadataJson) ++ compressed ++ frag
       /\ archive
          = (Converter.MAGIC ++ NodeBuffer.le 4 1
               ++ NodeBuffer.le 4 (Z.of_nat (length metadataJson)))
              ++ NodeBuffer.le 4 (Converter.pyramidSectionLength r)
              ++ NodeBuffer.le 8 (Converter.fragmentSectionLength r)
              ++ NodeBuffer.utf8 metadataJson ++ compressed ++ frag ++ concat payloads
       /\ slice archive indexStart fragmentStart = compressed
       /\ slice archive fragmentStart (fragmentStart + Z.of_nat (length frag)) = frag
       /\ Converter.pyramidSectionLength r = Z.of_nat (length compressed)
       /\ leValue (slice archive 12 16) = Z.of_nat (length compressed)
       /\ Converter.fragmentSectionLength r = Z.of_nat (length frag)
       /\ leValue (slice archive 16 24) = Z.of_nat (length frag)
       /\ Z.of_nat (length frag)
          = 5 * countLines isFragmentOffset log
            + 3 * (countLines isPadding log + countLines isEntry log).
Proof.
  intros H.
  apply createComTileArchive_ok in H
    as (placeholder & r & frag & Hh & Hi & Ha & HP & HF & HB & HPr & HFr & HS).
  exists placeholder, r. split; [done|]. split; [done|].
  cbn zeta in *.
  assert (frag = concat (lineContent <$> Converter.s_logStreamFragments r)) as ->.
  { rewrite (writeIndex_content _ _ _ _ _ _ Hi) in HS.
    by apply app_inv_head, app_inv_head in HS. }
  set (frag := concat (lineContent <$> _)) in *.
  set (text := NodeBuffer.utf8 metadataJson) in *.
  set (compressed := zlibSync _) in *.
  set (pre := Converter.MAGIC ++ NodeBuffer.le 4 1
                ++ NodeBuffer.le 4 (Z.of_nat (length metadataJson))) in *.
  set (p4 := NodeBuffer.le 4 (Converter.pyramidSectionLength r)) in *.
  set (f8 := NodeBuffer.le 8 (Converter.fragmentSectionLength r)) in *.
  assert (length pre = 12%nat) as Lpre by reflexivity.
  assert (length p4 = 4%nat) as Lp4 by apply length_le.
  assert (length f8 = 8%nat) as Lf8 by apply length_le.
  split; [done|]. split; [done|].
  split; [|split; [|split; [done|split; [|split; [done|split]]]]].
  - rewrite Ha.
    replace (pre ++ p4 ++ f8 ++ text ++ compressed ++ frag ++ concat payloads)
      with ((pre ++ p4 ++ f8 ++ text) ++ compressed ++ frag ++ concat payloads)
      by (by rewrite <- !app_assoc).
    apply slice_middle; [|done]. rewrite !length_app. lia.
  - rewrite Ha.
    replace (pre ++ p4 ++ f8 ++ text ++ compressed ++ frag ++ concat payloads)
      with ((pre ++ p4 ++ f8 ++ text ++ compressed) ++ frag ++ concat payloads)
      by (by rewrite <- !app_assoc).
    apply slice_middle; [|done]. rewrite !length_app. lia.
  - rewrite Ha, slice_middle with (mid := p4) by (rewrite ?Lpre, ?Lp4; lia).
    subst p4. rewrite leValue_le, HP; [done|]. change (Z.of_nat 4) with 4. lia.
  - rewrite Ha, (app_assoc pre p4), slice_middle with (mid := f8)
      by (rewrite ?length_app, ?Lpre, ?Lp4, ?Lf8; lia).
    subst f8. rewrite leValue_le, HF; [done|]. change (Z.of_nat 8) with 8. lia.
  - rewrite HB. apply logBytes_count.
Qed.

(** ** The reader *)

(** [IndexCache.get] at a zoom of 8 or more: the entry comes from the cached
    fragment, decoded at the relative offset 0. *)
Lemma IndexCache_get_fragment unzlibSync (ic : IndexCache) tmsIndex oi range cached :
  8 <= TileIndex.z tmsIndex ->
  ComtIndex.calculateIndexOffsetForTile (ic_comtIndex ic) (TileIndex.z tmsIndex)
    (TileIndex.x tmsIndex) (TileIndex.y tmsIndex) = Ok oi ->
  ComtIndex.getFragmentRangeForTile (ic_comtIndex ic) (TileIndex.z tmsIndex)
    (TileIndex.x tmsIndex) (TileIndex.y tmsIndex)
    (ic_indexOffset ic) (ic_pyramidIndexLength ic) = Ok range ->
  fragmentedIndex ic !! startOffset range = Some cached ->
  IndexCache_get unzlibSync ic tmsIndex
  = (e ← getIndexEntryFragmentSection 0 cached.2; Ok (Some e)).
Proof.
  intros Hz Hoi Hr Hc. unfold IndexCache_get.
  rewrite Hoi. cbn [mbind result_bind]. rewrite Hr. cbn [mbind result_bind].
  unfold inPartialIndex.
  destruct (Z.ltb_spec (TileIndex.z tmsIndex) 8); [lia|].
  rewrite andb_false_r, Hc. reflexivity.
Qed.

(** [IndexCache.get] below zoom 8, when the tile's index is at most the
    length of the compressed pyramid minus 3: the entry comes from the
    decompressed pyramid, whatever the cache holds. *)
Lemma IndexCache_get_pyramid unzlibSync (ic : IndexCache) tmsIndex oi range :
  TileIndex.z tmsIndex < 8 ->
  ComtIndex.calculateIndexOffsetForTile (ic_comtIndex ic) (TileIndex.z tmsIndex)
    (TileIndex.x tmsIndex) (TileIndex.y tmsIndex) = Ok oi ->
  ComtIndex.getFragmentRangeForTile (ic_comtIndex ic) (TileIndex.z tmsIndex)
    (TileIndex.x tmsIndex) (TileIndex.y tmsIndex)
    (ic_indexOffset ic) (ic_pyramidIndexLength ic) = Ok range ->
  oi.2 <= Z.of_nat (length (ic_partialIndex ic)) - 3 ->
  IndexCache_get unzlibSync ic tmsIndex
  = (pyramid ← unzlibSync (ic_partialIndex ic);
     e ← getIndexEntryPyramidSection oi.2 pyramid;
     Ok (Some e)).
Proof.
  intros Hz Hoi Hr Hlen. unfold IndexCache_get.
  rewrite Hoi. cbn [mbind result_bind]. rewrite Hr. cbn [mbind result_bind].
  unfold inPartialIndex, INDEX_ENTRY_NUM_BYTES.
  destruct (Z.ltb_spec (TileIndex.z tmsIndex) 8); [|lia].
  destruct (Z.leb_spec oi.2 (Z.of_nat (length (ic_partialIndex ic)) - 3)); [|lia].
  reflexivity.
Qed.

(** The fragment range of a tile when its zoom is the only fragmented zoom
    up to it. *)
Lemma getFragmentRangeForTile_single tms tm x y m p :
  filter (fun t => aggregationCoefficient t <> -1 /\ zoom t <= zoom tm) (tileMatrix tms)
  = [tm] ->
  ComtIndex.inRange x y (tileMatrixLimits tm) = true ->
  let sfb := ComtIndex.calculateBounds (aggregationCoefficient tm)
               (tileMatrixLimits tm) (Some x) (Some y) in
  let start :=
    (ComtIndex.calculateNumberOfFragmentsBefore x y (tileMatrixLimits tm)
       (aggregationCoefficient tm) - 1) * 5
    + ComtIndex.numberOfIndexEntriesBeforeFragment sfb (tileMatrixLimits tm) * 3
    + m + p in
  ComtIndex.getFragmentRangeForTile tms (zoom tm) x y m p
  = Ok {| fragmentIndex := 0; startOffset := start;
          endOffset := start + Spec.entriesInFragment sfb * 3 + 5 |}.
Proof.
  intros Hf Hin sfb start. unfold ComtIndex.getFragmentRangeForTile.
  rewrite Hf. cbn [forEach]. rewrite fragmentRangeStep_at, Hin.
  reflexivity.
Qed.

Lemma getIndexEntryFragmentSection_first (frag : Buffer) :
  getIndexEntryFragmentSection 0 frag
  = (size ← Utils.convertUInt24LEToNumber frag 5;
     offset ← Utils.convertUInt40LEToNumber frag 0;
     Ok {| IndexEntry.offset := offset; IndexEntry.size := size |}).
Proof.
  unfold getIndexEntryFragmentSection.
  destruct (Utils.convertUInt24LEToNumber frag (0 * INDEX_ENTRY_NUM_BYTES + 5)) eqn:E;
    change (0 * INDEX_ENTRY_NUM_BYTES + 5) with 5 in E; rewrite E; [|done].
  cbn [mbind result_bind].
  destruct (Utils.convertUInt40LEToNumber frag 0); done.
Qed.

Lemma deep_fragment_range x m p :
  ComtIndex.inRange x 0 (Fixture.limits 0 0 1 0) = true ->
  ComtIndex.getFragmentRangeForTile (tileMatrixSet Fixture.deep) 8 x 0 m p
  = Ok {| fragmentIndex := 0; startOffset := m + p; endOffset := m + p + 11 |}.
Proof.
  intros Hin.
  pose proof (getFragmentRangeForTile_single (tileMatrixSet Fixture.deep)
                (Fixture.matrix 8 6 (Fixture.limits 0 0 1 0)) x 0 m p) as H.
  cbn [zoom Fixture.matrix aggregationCoefficient tileMatrixLimits] in H.
  rewrite H; [|by vm_compute|done]. clear H.
  apply inRange_spec in Hin. cbn [Fixture.limits minTileCol maxTileCol] in Hin.
  assert (x = 0 \/ x = 1) as [-> | ->] by lia; cbn zeta;
    match goal with
    | |- context [?c * 5 + ?d * 3 + m + p + ?n * 3 + 5] =>
        replace c with 0 by (vm_compute; reflexivity);
        replace d with 0 by (vm_compute; reflexivity);
        replace n with 2 by (vm_compute; reflexivity)
    end; do 2 f_equal; lia.
Qed.

Lemma deepFragment_first_entry :
  getIndexEntryFragmentSection 0 Fixture.deepFragment
  = Ok {| IndexEntry.offset := 8; IndexEntry.size := 10 |}.
Proof. vm_compute. reflexivity. Qed.

Lemma deep_IndexCache_get unzlibSync (partialIndex : Buffer) indexOffset x :
  ComtIndex.inRange x 0 (Fixture.limits 0 0 1 0) = true ->
  let range := {| fragmentIndex := 0;
                  startOffset := indexOffset + Z.of_nat (length partialIndex);
                  endOffset := indexOffset + Z.of_nat (length partialIndex) + 11 |} in
  IndexCache_get unzlibSync
    (setIndexFragment (Fixture.emptyCache Fixture.deep partialIndex indexOffset)
       range Fixture.deepFragment)
    (Fixture.tms 8 x 0)
  = Ok (Some {| IndexEntry.offset := 8; IndexEntry.size := 10 |}).
Proof.
  intros Hin range.
  assert (exists oi, ComtIndex.calculateIndexOffsetForTile
                       (tileMatrixSet Fixture.deep) 8 x 0 = Ok oi) as [oi Hoi].
  { apply inRange_spec in Hin. cbn [Fixture.limits minTileCol maxTileCol] in Hin.
    assert (x = 0 \/ x = 1) as [-> | ->] by lia; eexists; vm_compute; reflexivity. }
  rewrite (IndexCache_get_fragment _ _ _ oi range (range, Fixture.deepFragment)).
  - cbn [snd]. by rewrite deepFragment_first_entry.
  - cbn. lia.
  - exact Hoi.
  - cbn [setIndexFragment Fixture.emptyCache ic_comtIndex ic_indexOffset
         ic_pyramidIndexLength Fixture.tms TileIndex.z TileIndex.x TileIndex.y].
    by apply deep_fragment_range.
  - cbn [setIndexFragment fragmentedIndex startOffset range]. apply lookup_insert_eq.
Qed.

(** C2.  The decode of a cached fragment does not depend on the tile: the
    two tiles of the fragment of [Fixture.deep], whose entries are the first
    and the second of the fragment, both resolve to the first entry. *)
Theorem fragment_tiles_resolve_to_first_entry unzlibSync (partialIndex : Buffer)
  indexOffset :
  let range := {| fragmentIndex := 0;
                  startOffset := indexOffset + Z.of_nat (length partialIndex);
                  endOffset := indexOffset + Z.of_nat (length partialIndex) + 11 |} in
  let ic := setIndexFragment (Fixture.emptyCache Fixture.deep partialIndex indexOffset)
              range Fixture.deepFragment in
  Encoder.encodeFragmentByteAligned 8 [10; 20] = Ok Fixture.deepFragment
  /\ ComtIndex.calculateIndexOffsetForTile (tileMatrixSet Fixture.deep) 8 0 0 = Ok (24, 8)
  /\ ComtIndex.calculateIndexOffsetForTile (tileMatrixSet Fixture.deep) 8 1 0 = Ok (27, 9)
  /\ IndexCache_get unzlibSync ic (Fixture.tms 8 0 0)
     = Ok (Some {| IndexEntry.offset := 8; IndexEntry.size := 10 |})
  /\ IndexCache_get unzlibSync ic (Fixture.tms 8 1 0)
     = Ok (Some {| IndexEntry.offset := 8; IndexEntry.size := 10 |}).
Proof.
  intros range ic.
  split; [by vm_compute|]. split; [by vm_compute|]. split; [by vm_compute|].
  split; by apply deep_IndexCache_get.
Qed.

Lemma fragmentLoopBody_step comtIndex st tile off idx :
  ComtIndex.calculateIndexOffsetForTile comtIndex (TileInfo.zoom tile)
    (TileInfo.column tile) (TileInfo.row tile) = Ok (off, idx) ->
  0 <= TileInfo.size tile <= Converter.MAX_TILE_SIZE ->
  0 <= Converter.dataSectionOffset st < 2 ^ 40 ->
  exists st',
    Converter.fragmentLoopBody comtIndex st tile = Ok st'
    /\ let k := Z.to_nat (idx - Converter.previousIndex st - 1) in
       let newFragment :=
         JS.gtOpt (TileInfo.fragmentIndex tile) (Converter.previousFragmentIndex st) in
       let prefix :=
         if newFragment then NodeBuffer.le 5 (Converter.dataSectionOffset st) else [] in
       let prefixLine :=
         if newFragment then [LogFragmentOffset (Converter.dataSectionOffset st)] else [] in
       Converter.stream st'
       = Converter.stream st ++ prefix ++ replicate (3 * k) 0
           ++ NodeBuffer.le 3 (TileInfo.size tile)
       /\ Converter.logStreamFragments st'
          = Converter.logStreamFragments st ++ prefixLine
              ++ replicate k LogPadding ++ [LogEntry (TileInfo.size tile)]
       /\ Converter.indexFragmentLength st'
          = Converter.indexFragmentLength st + Z.of_nat (length prefix)
            + 3 * Z.of_nat k + 3
       /\ Converter.dataSectionOffset st'
          = Converter.dataSectionOffset st + TileInfo.size tile
       /\ Converter.previousFragmentIndex st' = TileInfo.fragmentIndex tile
       /\ Converter.previousIndex st' = idx.
Proof.
  intros Hi Hs Hd.
  destruct (fragmentLoopBody_run comtIndex st tile off idx Hi Hs Hd) as [st' E].
  exists st'. split; [done|].
  apply fragmentLoopBody_ok in E as (off' & idx' & Hi' & _ & H).
  rewrite Hi in Hi'. by injection Hi' as <- <-.
Qed.

(** C1.  On the archive the writer produces from [Fixture.deepTiles], the
    writer's [dataSectionOffset] is 18 when it comes to the second tile of
    zoom 8; the reader, given the fragment the writer wrote, reconstructs the
    offset 8 and the size 10 for that tile, those of the first tile. *)
Theorem reader_offset_differs_from_writer zlibSync unzlibSync indexOffset :
  let compressed := zlibSync Fixture.deepPyramid in
  7 <= Z.of_nat (length compressed) ->
  let range := {| fragmentIndex := 0;
                  startOffset := indexOffset + Z.of_nat (length compressed);
                  endOffset := indexOffset + Z.of_nat (length compressed) + 11 |} in
  exists r stA,
    Converter.writeIndex zlibSync [] Fixture.deepTiles Fixture.deep 7 = Ok r
    /\ Converter.s_stream r = compressed ++ Fixture.deepFragment
    /\ Converter.s_logStreamFragments r
       = [LogFragmentOffset 8; LogEntry 10; LogEntry 20]
    /\ Converter.fragmentLoopBody (tileMatrixSet Fixture.deep)
         (Converter.fragmentLoopStart compressed 8 compressed)
         (Fixture.tile 8 0 0 10 (Some 0)) = Ok stA
    /\ Converter.dataSectionOffset stA = 18
    /\ IndexCache_get unzlibSync
         (setIndexFragment (Fixture.emptyCache Fixture.deep compressed indexOffset)
            range Fixture.deepFragment)
         (Fixture.tms 8 1 0)
       = Ok (Some {| IndexEntry.offset := 8; IndexEntry.size := 10 |}).
Proof.
  intros compressed Hlen range.
  set (st0 := Converter.fragmentLoopStart compressed 8 compressed).
  destruct (fragmentLoopBody_step (tileMatrixSet Fixture.deep) st0
              (Fixture.tile 8 0 0 10 (Some 0)) 24 8)
    as (stA & EA & SA & LA & NA & DA & FA & PA);
    [by vm_compute | by vm_compute | by vm_compute |].
  destruct (fragmentLoopBody_step (tileMatrixSet Fixture.deep) stA
              (Fixture.tile 8 1 0 20 (Some 0)) 27 9)
    as (stB & EB & SB & LB & NB & DB & FB & PB);
    [by vm_compute | by vm_compute | rewrite DA; by vm_compute |].
  cbn [Converter.fragmentLoopStart Converter.previousIndex Converter.stream
       Converter.logStreamFragments Converter.dataSectionOffset
       Converter.previousFragmentIndex Fixture.tile TileInfo.size
       TileInfo.fragmentIndex st0] in SA, LA, DA, FA.
  replace (Z.to_nat (8 - Z.of_nat (length compressed) - 1)) with 0%nat in SA, LA by lia.
  rewrite PA, FA, DA in SB, LB.
  cbn [Fixture.tile TileInfo.size TileInfo.fragmentIndex] in SB, LB, DB.
  exists {| Converter.s_stream := Converter.stream stB;
            Converter.s_logStreamPyramid := [1; 1; 1; 1; 1; 1; 1; 1];
            Converter.s_logStreamFragments := Converter.logStreamFragments stB;
            Converter.s_dataSectionOffset := Converter.dataSectionOffset stB;
            Converter.pyramidSectionLength := Z.of_nat (length compressed);
            Converter.fragmentSectionLength := Converter.indexFragmentLength stB |}, stA.
  split; [|split; [|split; [|split; [done|split]]]].
  - unfold Converter.writeIndex.
    destruct (ComtIndex.new Fixture.deep) as [ci|e] eqn:En; vm_compute in En; [|done].
    injection En as <-. cbn [mbind result_bind].
    destruct (NodeBuffer.alloc _) as [buf|e] eqn:Ea; vm_compute in Ea; [|done].
    injection Ea as <-. cbn [mbind result_bind].
    destruct (forEach Converter.pyramidLoopBody _ _) as [p|e] eqn:Ep;
      vm_compute in Ep; [|done].
    injection Ep as <-. cbn [mbind result_bind Converter.indexPyramidBuffer
                             Converter.p_tileIterator Converter.p_dataSectionOffset
                             Converter.logStreamPyramid].
    unfold Converter.writeBuffer. cbn [app forEach].
    fold Fixture.deepPyramid. fold compressed.
    change (Converter.fragmentLoopStart compressed 8 compressed) with st0.
    change {| TileInfo.zoom := 8; TileInfo.column := 0; TileInfo.row := 0;
              TileInfo.size := 10; TileInfo.fragmentIndex := Some 0 |}
      with (Fixture.tile 8 0 0 10 (Some 0)).
    change {| TileInfo.zoom := 8; TileInfo.column := 1; TileInfo.row := 0;
              TileInfo.size := 20; TileInfo.fragmentIndex := Some 0 |}
      with (Fixture.tile 8 1 0 20 (Some 0)).
    change {| tileMatrixCRS := _; fragmentOrdering := _; tileOrdering := _;
              tileMatrix := _ |} with (tileMatrixSet Fixture.deep).
    rewrite EA. cbn [mbind result_bind]. rewrite EB. reflexivity.
  - cbn [Converter.s_stream]. rewrite SB, SA. cbn. rewrite <- app_assoc. reflexivity.
  - cbn [Converter.s_logStreamFragments]. rewrite LB, LA. reflexivity.
  - rewrite DA. reflexivity.
  - by apply deep_IndexCache_get.
Qed.

(** C7.  In [Fixture.shallow] the pyramid ends at zoom 1 and zoom 2 is
    fragmented; a request at zoom 2 is all the same answered from the pyramid
    buffer, whatever the cache holds, and reads behind the two entries of the
    decompressed pyramid. *)
Theorem fragmented_zoom_read_from_pyramid unzlibSync (ic : IndexCache)
  (pyramid : Buffer) :
  ic_comtIndex ic = tileMatrixSet Fixture.shallow ->
  5 <= Z.of_nat (length (ic_partialIndex ic)) ->
  unzlibSync (ic_partialIndex ic) = Ok pyramid ->
  length pyramid = 6%nat ->
  Spec.pyramidMaxZoom (tileMatrixSet Fixture.shallow) = 1
  /\ IndexCache_get unzlibSync ic (Fixture.tms 2 0 0)
     = (pyramid ← unzlibSync (ic_partialIndex ic);
        e ← getIndexEntryPyramidSection 2 pyramid;
        Ok (Some e))
  /\ IndexCache_get unzlibSync ic (Fixture.tms 2 0 0) = Throw RangeError.
Proof.
  intros Hci Hlen Hz Hp. split; [reflexivity|].
  assert (IndexCache_get unzlibSync ic (Fixture.tms 2 0 0)
          = (pyramid ← unzlibSync (ic_partialIndex ic);
             e ← getIndexEntryPyramidSection 2 pyramid;
             Ok (Some e))) as E.
  { apply (IndexCache_get_pyramid unzlibSync ic (Fixture.tms 2 0 0) (6, 2)
             {| fragmentIndex := 0;
                startOffset := ic_indexOffset ic + ic_pyramidIndexLength ic;
                endOffset := ic_indexOffset ic + ic_pyramidIndexLength ic + 11 |}).
    - cbn. lia.
    - rewrite Hci. by vm_compute.
    - rewrite Hci.
      pose proof (getFragmentRangeForTile_single (tileMatrixSet Fixture.shallow)
                    (Fixture.matrix 2 6 (Fixture.limits 0 0 1 0)) 0 0
                    (ic_indexOffset ic) (ic_pyramidIndexLength ic)) as H.
      cbn [zoom Fixture.matrix aggregationCoefficient tileMatrixLimits] in H.
      cbn [Fixture.tms TileIndex.z TileIndex.x TileIndex.y].
      rewrite H; [|by vm_compute|by vm_compute]. cbn zeta.
      match goal with
      | |- context [?c * 5 + ?d * 3 + _ + _ + ?n * 3 + 5] =>
          replace c with 0 by (vm_compute; reflexivity);
          replace d with 0 by (vm_compute; reflexivity);
          replace n with 2 by (vm_compute; reflexivity)
      end. do 2 f_equal; lia.
    - cbn [snd]. lia. }
  split; [exact E|]. rewrite E, Hz. cbn [mbind result_bind].
  unfold getIndexEntryPyramidSection, Utils.convertUInt24LEToNumber, DataView.getUint8.
  change (2 * INDEX_ENTRY_NUM_BYTES) with 6. change (6 <? 0) with false.
  change (Z.to_nat 6) with 6%nat. cbv iota.
  rewrite (lookup_ge_None_2 pyramid 6) by lia. reflexivity.
Qed.

Lemma fragmented_zoom_read_from_pyramid_witness :
  let ic := Fixture.emptyCache Fixture.shallow (Fixture.frame [5; 0; 0; 6; 0; 0]) 100 in
  Spec.pyramidMaxZoom (tileMatrixSet Fixture.shallow) = 1
  /\ IndexCache_get Fixture.unframe ic (Fixture.tms 2 0 0)
     = (pyramid ← Fixture.unframe (ic_partialIndex ic);
        e ← getIndexEntryPyramidSection 2 pyramid;
        Ok (Some e))
  /\ IndexCache_get Fixture.unframe ic (Fixture.tms 2 0 0) = Throw RangeError.
Proof.
  apply (fragmented_zoom_read_from_pyramid Fixture.unframe
           (Fixture.emptyCache Fixture.shallow (Fixture.frame [5; 0; 0; 6; 0; 0]) 100)
           [5; 0; 0; 6; 0; 0]).
  - reflexivity.
  - vm_compute. discriminate.
  - reflexivity.
  - reflexivity.
Defined.

(** C3.  Scenario (c) of the specification: the tile (5, 4) lies in the
    first fragment of the zoom, no fragment cell and no index entry come
    before it, and yet the range starts 5 bytes behind the start of the
    fragment section. *)
Theorem first_fragment_range_is_shifted metadataLength pyramidLength :
  let limit := Fixture.limits 3 2 13 11 in
  let tm := Fixture.matrix 4 3 limit in
  Spec.sparseBounds tm 5 4 = Fixture.limits 3 2 7 7
  /\ Spec.fragmentsBefore tm 5 4 = 0
  /\ Spec.entriesBeforeFragment (Spec.sparseBounds tm 5 4) limit = 0
  /\ Spec.entriesInFragment (Spec.sparseBounds tm 5 4) = 30
  /\ ComtIndex.calculateNumberOfFragmentsBefore 5 4 limit 3 - 1 = 1
  /\ ComtIndex.getFragmentRangeForTile Fixture.sparse 4 5 4 metadataLength pyramidLength
     = Ok {| fragmentIndex := 0;
             startOffset := 5 + metadataLength + pyramidLength;
             endOffset := 5 + metadataLength + pyramidLength + 95 |}.
Proof.
  intros limit tm. repeat (split; [by vm_compute|]).
  pose proof (getFragmentRangeForTile_single Fixture.sparse tm 5 4
                metadataLength pyramidLength) as H.
  cbn [zoom Fixture.matrix aggregationCoefficient tileMatrixLimits tm] in H.
  rewrite H; [|by vm_compute|by vm_compute]. cbn zeta.
  match goal with
  | |- context [?c * 5 + ?d * 3 + _ + _ + ?n * 3 + 5] =>
      replace c with 1 by (vm_compute; reflexivity);
      replace d with 0 by (vm_compute; reflexivity);
      replace n with 30 by (vm_compute; reflexivity)
  end. do 2 f_equal; lia.
Qed.

(** C5.  The pair that straddles the end of the pyramid in
    [Fixture.smallTiles]: the last pyramid tile has index 4, the first tile
    of the fragment loop has index 7, two tiles are missing in between.  The
    number of padding lines the writer logs between them counts from the
    length of the compressed pyramid instead: it is 2 only if that length
    were 4. *)
Theorem padding_at_pyramid_boundary zlibSync :
  let compressed := zlibSync Fixture.smallPyramid in
  exists r,
    Converter.writeIndex zlibSync [] Fixture.smallTiles Fixture.small 1 = Ok r
    /\ ComtIndex.calculateIndexOffsetForTile (tileMatrixSet Fixture.small) 1 1 1
       = Ok (12, 4)
    /\ ComtIndex.calculateIndexOffsetForTile (tileMatrixSet Fixture.small) 2 2 0
       = Ok (21, 7)
    /\ Converter.s_logStreamPyramid r = [10; 11; 12; 13; 14]
    /\ Converter.s_logStreamFragments r
       = [LogFragmentOffset 60]
           ++ replicate (Z.to_nat (6 - Z.of_nat (length compressed))) LogPadding
           ++ [LogEntry 7]
    /\ countLines isPadding (Converter.s_logStreamFragments r)
       = Z.max 0 (6 - Z.of_nat (length compressed)).
Proof.
  intros compressed.
  set (st0 := Converter.fragmentLoopStart compressed 60 compressed).
  destruct (fragmentLoopBody_step (tileMatrixSet Fixture.small) st0
              (Fixture.tile 2 2 0 7 (Some 0)) 21 7)
    as (stB & EB & SB & LB & NB & DB & FB & PB);
    [by vm_compute | by vm_compute | by vm_compute |].
  cbn [Converter.fragmentLoopStart Converter.previousIndex Converter.stream
       Converter.logStreamFragments Converter.dataSectionOffset
       Converter.previousFragmentIndex Fixture.tile TileInfo.size
       TileInfo.fragmentIndex st0] in LB.
  replace (7 - Z.of_nat (length compressed) - 1)
    with (6 - Z.of_nat (length compressed)) in LB by lia.
  change (JS.gtOpt (Some 0) (Some (-1))) with true in LB. cbv iota in LB.
  exists {| Converter.s_stream := Converter.stream stB;
            Converter.s_logStreamPyramid := [10; 11; 12; 13; 14];
            Converter.s_logStreamFragments := Converter.logStreamFragments stB;
            Converter.s_dataSectionOffset := Converter.dataSectionOffset stB;
            Converter.pyramidSectionLength := Z.of_nat (length compressed);
            Converter.fragmentSectionLength := Converter.indexFragmentLength stB |}.
  split; [|split; [by vm_compute|split; [by vm_compute|split; [done|split]]]].
  - unfold Converter.writeIndex.
    destruct (ComtIndex.new Fixture.small) as [ci|e] eqn:En; vm_compute in En; [|done].
    injection En as <-. cbn [mbind result_bind].
    destruct (NodeBuffer.alloc _) as [buf|e] eqn:Ea; vm_compute in Ea; [|done].
    injection Ea as <-. cbn [mbind result_bind].
    destruct (forEach Converter.pyramidLoopBody _ _) as [p|e] eqn:Ep;
      vm_compute in Ep; [|done].
    injection Ep as <-. cbn [mbind result_bind Converter.indexPyramidBuffer
                             Converter.p_tileIterator Converter.p_dataSectionOffset
                             Converter.logStreamPyramid].
    unfold Converter.writeBuffer. cbn [app forEach].
    fold Fixture.smallPyramid. fold compressed.
    change (Converter.fragmentLoopStart compressed 60 compressed) with st0.
    change {| TileInfo.zoom := 2; TileInfo.column := 2; TileInfo.row := 0;
              TileInfo.size := 7; TileInfo.fragmentIndex := Some 0 |}
      with (Fixture.tile 2 2 0 7 (Some 0)).
    change {| tileMatrixCRS := _; fragmentOrdering := _; tileOrdering := _;
              tileMatrix := _ |} with (tileMatrixSet Fixture.small).
    rewrite EB. reflexivity.
  - cbn [Converter.s_logStreamFragments]. rewrite LB. reflexivity.
  - cbn [Converter.s_logStreamFragments]. rewrite LB. unfold countLines.
    cbn [app List.filter isPadding].
    rewrite List.filter_app. cbn [List.filter isPadding].
    rewrite ?app_nil_r.
    assert (forall k, List.filter isPadding (replicate k LogPadding)
                      = replicate k LogPadding) as ->.
    { induction k as [|k IH]; [done|]. cbn [replicate List.filter isPadding]. by rewrite IH. }
    rewrite length_replicate. lia.
Qed.

(** ** The header *)

Lemma getUint8_skip4 a b c d (X : Buffer) off :
  4 <= off ->
  DataView.getUint8 (a :: b :: c :: d :: X) off = DataView.getUint8 X (off - 4).
Proof.
  intros H. unfold DataView.getUint8.
  destruct (Z.ltb_spec off 0); [lia|]. destruct (Z.ltb_spec (off - 4) 0); [lia|].
  replace (Z.to_nat off) with (4 + Z.to_nat (off - 4))%nat by lia. reflexivity.
Qed.

Lemma getUint32LE_skip4 a b c d (X : Buffer) off :
  4 <= off ->
  DataView.getUint32LE (a :: b :: c :: d :: X) off = DataView.getUint32LE X (off - 4).
Proof.
  intros H. unfold DataView.getUint32LE.
  rewrite !getUint8_skip4 by lia.
  replace (off + 1 - 4) with (off - 4 + 1) by lia.
  replace (off + 2 - 4) with (off - 4 + 2) by lia.
  replace (off + 3 - 4) with (off - 4 + 3) by lia.
  reflexivity.
Qed.

Lemma slice_skip4 a b c d (X : Buffer) s e :
  4 <= s -> slice (a :: b :: c :: d :: X) s e = slice X (s - 4) (e - 4).
Proof.
  intros H. unfold slice.
  replace (Z.to_nat s) with (4 + Z.to_nat (s - 4))%nat by lia.
  replace (e - 4 - (s - 4)) with (e - s) by lia. reflexivity.
Qed.

Lemma getUint8_byte (X : Buffer) off v :
  Forall isByte X -> DataView.getUint8 X off = Ok v -> isByte v.
Proof.
  intros HX. unfold DataView.getUint8.
  destruct (off <? 0); [done|].
  destruct (X !! Z.to_nat off) as [w|] eqn:E; [|done].
  intros [= <-]. rewrite Forall_forall in HX. apply HX.
  by eapply list_elem_of_lookup_2.
Qed.

Lemma getUint32LE_range (X : Buffer) off v :
  Forall isByte X -> DataView.getUint32LE X off = Ok v -> 0 <= v < 2 ^ 32.
Proof.
  intros HX. unfold DataView.getUint32LE.
  destruct (DataView.getUint8 X off) as [b0|] eqn:E0; [|done].
  destruct (DataView.getUint8 X (off + 1)) as [b1|] eqn:E1; [|done].
  destruct (DataView.getUint8 X (off + 2)) as [b2|] eqn:E2; [|done].
  destruct (DataView.getUint8 X (off + 3)) as [b3|] eqn:E3; [|done].
  cbn [mbind result_bind]. intros [= <-].
  apply (getUint8_byte _ _ _ HX) in E0, E1, E2, E3.
  unfold isByte in *. lia.
Qed.

Lemma headerOfBuffer_magic JSON_parse m0 m1 m2 m3 n0 n1 n2 n3 (X : Buffer) :
  Forall isByte X ->
  headerOfBuffer JSON_parse (m0 :: m1 :: m2 :: m3 :: X)
  = headerOfBuffer JSON_parse (n0 :: n1 :: n2 :: n3 :: X).
Proof.
  intros HX. unfold headerOfBuffer.
  rewrite !getUint32LE_skip4 by lia.
  destruct (DataView.getUint32LE X (4 - 4)) as [version|]; [|done].
  cbn [mbind result_bind].
  destruct (negb (version =? SUPPORTED_VERSION)); [done|].
  destruct (DataView.getUint32LE X (8 - 4)) as [metadataSize|] eqn:Em; [|done].
  apply getUint32LE_range in Em; [|done].
  cbn [mbind result_bind].
  destruct (DataView.getUint32LE X (12 - 4)) as [pyramidLength|]; [|done].
  destruct (DataView.getUint32LE X (16 - 4)) as [fragmentLength|]; [|done].
  cbn [mbind result_bind].
  unfold METADATA_OFFSET_INDEX.
  rewrite !slice_skip4 by lia. reflexivity.
Qed.

Lemma fetchBinaryData_prefix (x : Z) (url : Buffer) n :
  0 < n ->
  fetchBinaryData (x :: url) 0 (n - 1) = Ok (take (Z.to_nat n) (x :: url)).
Proof.
  intros Hn. unfold fetchBinaryData.
  destruct (Z.ltb_spec 0 0); [lia|]. destruct (Z.ltb_spec (n - 1) 0); [lia|].
  cbn [orb].
  destruct (Z.ltb_spec 0 (Z.of_nat (length (x :: url)))) as [|Hl];
    [|cbn [length] in Hl; lia].
  unfold slice. replace (n - 1 + 1 - 0) with n by lia.
  change (Z.to_nat 0) with 0%nat. by rewrite drop_0.
Qed.

Lemma loadHeader_unfold JSON_parse (url : Buffer) :
  loadHeader JSON_parse url
  = (buffer ← fetchHeader url; headerOfBuffer JSON_parse buffer).
Proof. reflexivity. Qed.

Lemma loadHeader_eq JSON_parse (x : Z) (url : Buffer) :
  loadHeader JSON_parse (x :: url)
  = headerOfBuffer JSON_parse (take (Z.to_nat INITIAL_CHUNK_SIZE) (x :: url)).
Proof.
  rewrite loadHeader_unfold. unfold fetchHeader.
  rewrite fetchBinaryData_prefix by (unfold INITIAL_CHUNK_SIZE; lia).
  reflexivity.
Qed.

Lemma take_four (n : nat) a b c d (X : Buffer) :
  (4 <= n)%nat -> take n (a :: b :: c :: d :: X) = a :: b :: c :: d :: take (n - 4) X.
Proof.
  intros H. destruct n as [|[|[|[|n]]]]; try lia.
  cbn [take]. replace (S (S (S (S n))) - 4)%nat with n by lia. done.
Qed.

Lemma chunk_size : (4 <= Z.to_nat INITIAL_CHUNK_SIZE)%nat.
Proof. unfold INITIAL_CHUNK_SIZE. lia. Qed.

Lemma getUint8_take (n : nat) (b : Buffer) off v :
  DataView.getUint8 (take n b) off = Ok v -> DataView.getUint8 b off = Ok v.
Proof.
  unfold DataView.getUint8. destruct (off <? 0); [done|].
  destruct (take n b !! Z.to_nat off) as [w|] eqn:E; [|done].
  intros [= <-]. apply lookup_take_Some in E as [-> _]. done.
Qed.

Lemma getUint32LE_take (n : nat) (b : Buffer) off v :
  DataView.getUint32LE (take n b) off = Ok v -> DataView.getUint32LE b off = Ok v.
Proof.
  unfold DataView.getUint32LE.
  destruct (DataView.getUint8 (take n b) off) as [b0|] eqn:E0; [|done].
  destruct (DataView.getUint8 (take n b) (off + 1)) as [b1|] eqn:E1; [|done].
  destruct (DataView.getUint8 (take n b) (off + 2)) as [b2|] eqn:E2; [|done].
  destruct (DataView.getUint8 (take n b) (off + 3)) as [b3|] eqn:E3; [|done].
  apply getUint8_take in E0, E1, E2, E3. by rewrite E0, E1, E2, E3.
Qed.

Lemma getUint8_lookup_inv (b : Buffer) off v :
  DataView.getUint8 b off = Ok v -> 0 <= off /\ b !! Z.to_nat off = Some v.
Proof.
  unfold DataView.getUint8. destruct (Z.ltb_spec off 0); [done|].
  destruct (b !! Z.to_nat off); [|done]. intros [= <-]. split; [lia|done].
Qed.

Lemma leValue_nonneg (bs : list Z) : Forall isByte bs -> 0 <= leValue bs.
Proof. induction 1 as [|b bs Hb _ IH]; simpl; unfold isByte in *; lia. Qed.

(** The 32-bit read of a field agrees with the 64-bit value of the field
    when that value is below [2^32]. *)
Lemma getUint32LE_of_uint64 (b : Buffer) off v :
  Forall isByte b ->
  DataView.getUint32LE b off = Ok v ->
  leValue (slice b off (off + 8)) < 2 ^ 32 ->
  v = leValue (slice b off (off + 8)).
Proof.
  intros Hb H Hlt. unfold DataView.getUint32LE in H.
  destruct (DataView.getUint8 b off) as [b0|] eqn:E0; [|done].
  destruct (DataView.getUint8 b (off + 1)) as [b1|] eqn:E1; [|done].
  destruct (DataView.getUint8 b (off + 2)) as [b2|] eqn:E2; [|done].
  destruct (DataView.getUint8 b (off + 3)) as [b3|] eqn:E3; [|done].
  cbn [mbind result_bind] in H. injection H as <-.
  pose proof (getUint8_byte _ _ _ Hb E0) as B0.
  pose proof (getUint8_byte _ _ _ Hb E1) as B1.
  pose proof (getUint8_byte _ _ _ Hb E2) as B2.
  pose proof (getUint8_byte _ _ _ Hb E3) as B3.
  apply getUint8_lookup_inv in E0 as [Ho E0], E1 as [_ E1], E2 as [_ E2], E3 as [_ E3].
  replace (Z.to_nat (off + 1)) with (S (Z.to_nat off)) in E1 by lia.
  replace (Z.to_nat (off + 2)) with (S (S (Z.to_nat off))) in E2 by lia.
  replace (Z.to_nat (off + 3)) with (S (S (S (Z.to_nat off)))) in E3 by lia.
  unfold slice in *. replace (off + 8 - off) with 8 in * by lia.
  rewrite (drop_S _ _ _ E0), (drop_S _ _ _ E1), (drop_S _ _ _ E2), (drop_S _ _ _ E3) in *.
  set (T := drop (S (S (S (S (Z.to_nat off))))) b) in *.
  change (Z.to_nat 8) with 8%nat in *.
  cbn [take leValue] in *.
  assert (0 <= leValue (take 4 T)) as HT.
  { apply leValue_nonneg. apply Forall_take. subst T. by apply Forall_drop. }
  unfold isByte in *. lia.
Qed.

Lemma headerOfBuffer_fields JSON_parse (N : nat) m0 m1 m2 m3 n0 n1 n2 n3
  (rest : Buffer) h :
  (4 <= N)%nat ->
  let archive := m0 :: m1 :: m2 :: m3 :: rest in
  Forall isByte rest ->
  headerOfBuffer JSON_parse (take N archive) = Ok h ->
  leValue (slice archive 16 24) < 2 ^ 32 ->
  headerOfBuffer JSON_parse (take N (n0 :: n1 :: n2 :: n3 :: rest)) = Ok h
  /\ DataView.getUint32LE archive 4 = Ok 1
  /\ exists metaLen pyramidLen,
       DataView.getUint32LE archive 8 = Ok metaLen
       /\ DataView.getUint32LE archive 12 = Ok pyramidLen
       /\ let fragmentLen := leValue (slice archive 16 24) in
          indexOffset h = 24 + metaLen
          /\ pyramidIndexLength h = pyramidLen
          /\ fragmentIndexLength h = fragmentLen
          /\ dataOffset h = 24 + metaLen + pyramidLen + fragmentLen.
Proof.
  intros HN archive Hb H Hlt. subst archive.
  rewrite take_four in H by done.
  set (X := take (N - 4) rest) in *.
  assert (Forall isByte X) as HX by (by apply Forall_take).
  split.
  { rewrite take_four by done. fold X.
    by rewrite (headerOfBuffer_magic _ n0 n1 n2 n3 m0 m1 m2 m3). }
  unfold headerOfBuffer in H. rewrite !getUint32LE_skip4 in H by lia.
  rewrite !getUint32LE_skip4, slice_skip4 by lia.
  rewrite slice_skip4 in Hlt by lia.
  destruct (DataView.getUint32LE X (4 - 4)) as [version|] eqn:Ev; [|done].
  cbn [mbind result_bind] in H.
  destruct (Z.eqb_spec version SUPPORTED_VERSION) as [->|]; [|done].
  cbn [negb] in H.
  destruct (DataView.getUint32LE X (8 - 4)) as [metadataSize|] eqn:Em; [|done].
  destruct (DataView.getUint32LE X (12 - 4)) as [pyramidLength|] eqn:Ep; [|done].
  destruct (DataView.getUint32LE X (16 - 4)) as [fragmentLength|] eqn:Ef; [|done].
  cbn [mbind result_bind] in H.
  destruct (JSON_parse _) as [md|]; [|done]. cbn [mbind result_bind] in H.
  destruct (validateMetadata _ _); [|done]. cbn [mbind result_bind] in H.
  injection H as <-.
  apply getUint32LE_take in Ev, Em, Ep, Ef.
  split; [exact Ev|]. exists metadataSize, pyramidLength.
  split; [exact Em|]. split; [exact Ep|].
  cbn [indexOffset pyramidIndexLength fragmentIndexLength dataOffset].
  unfold METADATA_OFFSET_INDEX.
  assert (fragmentLength = leValue (slice rest (16 - 4) (24 - 4))) as ->.
  { apply (getUint32LE_of_uint64 rest 12); done. }
  done.
Qed.

(** C6, as amended.  An archive that [loadHeader] accepts has the version
    1; its first four bytes are not looked at; and the data section starts
    at [24 + metaLen + pyramidLen + fragmentLen], where [fragmentLen] is the
    64-bit field of the header when its value is below [2^32]. *)
Theorem loadHeader_accepts_by_version JSON_parse m0 m1 m2 m3 n0 n1 n2 n3
  (rest : Buffer) h :
  let archive := m0 :: m1 :: m2 :: m3 :: rest in
  Forall isByte rest ->
  loadHeader JSON_parse archive = Ok h ->
  leValue (slice archive 16 24) < 2 ^ 32 ->
  loadHeader JSON_parse (n0 :: n1 :: n2 :: n3 :: rest) = Ok h
  /\ DataView.getUint32LE archive 4 = Ok 1
  /\ exists metaLen pyramidLen,
       DataView.getUint32LE archive 8 = Ok metaLen
       /\ DataView.getUint32LE archive 12 = Ok pyramidLen
       /\ let fragmentLen := leValue (slice archive 16 24) in
          indexOffset h = 24 + metaLen
          /\ pyramidIndexLength h = pyramidLen
          /\ fragmentIndexLength h = fragmentLen
          /\ dataOffset h = 24 + metaLen + pyramidLen + fragmentLen.
Proof.
  intros archive Hb H Hlt. subst archive.
  rewrite loadHeader_eq in H. rewrite loadHeader_eq.
  exact (headerOfBuffer_fields JSON_parse _ m0 m1 m2 m3 n0 n1 n2 n3 rest h
           chunk_size Hb H Hlt).
Qed.

(** ** The fixtures *)

Lemma isByte_forallb (l : list Z) :
  forallb (fun b => (0 <=? b) && (b <? 256)) l = true -> Forall isByte l.
Proof.
  intros H. rewrite forallb_forall in H. apply Forall_forall. intros b Hb.
  apply list_elem_of_In, H in Hb. unfold isByte. lia.
Qed.

(** The writer produces [Fixture.deepArchive] from [Fixture.deepTiles]. *)
Example deepArchive_written :
  Converter.createComTileArchive Fixture.frame Fixture.deep Fixture.document
    Fixture.deepTiles Fixture.deepPayloads 7 = Ok Fixture.deepArchive.
Proof. vm_compute. reflexivity. Qed.

Example deepHeader_loaded :
  loadHeader Fixture.parse Fixture.deepArchive = Ok Fixture.deepHeader.
Proof. vm_compute. reflexivity. Qed.

Example deepCache_created :
  create Fixture.parse Fixture.deepArchive = Ok Fixture.deepCache.
Proof. vm_compute. reflexivity. Qed.

(** The request for the second tile of zoom 8 (the TMS row 0 is the XYZ row
    255) returns the payload of the first. *)
Example getTile_second_tile :
  (r ← getTile Fixture.unframe Fixture.stored Fixture.parse
         Fixture.deepCache (Fixture.tms 8 1 255);
   Ok r.1)
  = Ok (replicate 10 9).
Proof. vm_compute. reflexivity. Qed.

(** ** Closed instances *)

Lemma calculateIndexOffsetForTile_spec_witness :
  let tm := Fixture.matrix 4 3 (Fixture.limits 3 2 13 11) in
  let offset := 3 * Spec.tilesBelow 4 (tileMatrix Fixture.mixed) + Spec.offsetInZoom tm 9 4 in
  offset = 132
  /\ ComtIndex.calculateIndexOffsetForTile Fixture.mixed 4 9 4 = Ok (offset, offset / 3)
  /\ 3 * (offset / 3) = offset.
Proof.
  split; [reflexivity|].
  apply (calculateIndexOffsetForTile_spec Fixture.mixed 4 9 4
           (Fixture.matrix 4 3 (Fixture.limits 3 2 13 11))).
  - reflexivity.
  - reflexivity.
  - simpl. lia.
  - simpl. lia.
  - right. simpl. lia.
Defined.

Lemma getFragmentRangeForTile_misses_pyramid_zoom_witness :
  let tm := Fixture.matrix 0 (-1) (Fixture.limits 0 0 0 0) in
  Spec.onlyZoom Fixture.mixed 0 tm
  /\ aggregationCoefficient tm = -1
  /\ ComtIndex.inRange 5 5 (tileMatrixLimits tm) = false
  /\ isOk (ComtIndex.calculateIndexOffsetForTile Fixture.mixed 0 5 5) = false
  /\ isOk (ComtIndex.getFragmentRangeForTile Fixture.mixed 0 5 5 24 11) = true.
Proof.
  split; [reflexivity|]. split; [reflexivity|]. split; [reflexivity|].
  apply (getFragmentRangeForTile_misses_pyramid_zoom Fixture.mixed 0
           (Fixture.matrix 0 (-1) (Fixture.limits 0 0 0 0)) 5 5 24 11).
  - reflexivity.
  - reflexivity.
  - reflexivity.
Defined.

(** The range that [getFragmentRangeForTile] returns for a tile outside
    the limits of the one pyramid zoom of a tile set. *)
Example getFragmentRangeForTile_pyramid_zoom_no_throw :
  ComtIndex.inRange 5 5 (Fixture.limits 0 0 0 0) = false
  /\ ComtIndex.getFragmentRangeForTile
       (Fixture.tileSet [Fixture.matrix 0 (-1) (Fixture.limits 0 0 0 0)]) 0 5 5 24 11
     = Ok {| fragmentIndex := 0; startOffset := 0; endOffset := 0 |}.
Proof. split; reflexivity. Qed.

(** A request for zoom 4 of [Fixture.mixed], whose tile matrix array has
    the positions 0 and 1: a [TypeError], not the empty buffer, for the
    address (0, 15), which lies outside the limits of zoom 4. *)
Example getTile_zoom_without_position :
  ComtIndex.inRange 0 (JS.shl 1 4 - 0 - 1) (Fixture.limits 3 2 13 11) = false
  /\ getTile Fixture.unframe Fixture.stored Fixture.parse Fixture.mixedCache
       (Fixture.tms 4 0 0) = Throw TypeError.
Proof. split; vm_compute; reflexivity. Qed.

(** The fragment log of [Fixture.gapTiles] has a padding line. *)
Example gapTiles_log :
  (r ← Converter.writeIndex Fixture.frame [] Fixture.gapTiles Fixture.small 1;
   Ok (Converter.s_logStreamFragments r))
  = Ok [LogFragmentOffset 60; LogEntry 7; LogPadding; LogEntry 9].
Proof. vm_compute. reflexivity. Qed.

Lemma index_lengths_match_archive_witness :
  Converter.createComTileArchive Fixture.frame Fixture.small Fixture.document
    Fixture.gapTiles Fixture.gapPayloads 1 = Ok Fixture.gapArchive
  /\ exists placeholder r,
      Converter.writeHeader [] (Z.of_nat (length Fixture.document)) = Ok placeholder
      /\ Converter.writeIndex Fixture.frame
           (placeholder ++ NodeBuffer.utf8 Fixture.document)
           Fixture.gapTiles Fixture.small 1 = Ok r
      /\ let compressed :=
           Fixture.frame (concat (NodeBuffer.le 3 <$> Converter.s_logStreamPyramid r)) in
         let log := Converter.s_logStreamFragments r in
         let frag := concat (lineContent <$> log) in
         let indexStart := 24 + Z.of_nat (length (NodeBuffer.utf8 Fixture.document)) in
         let fragmentStart := indexStart + Z.of_nat (length compressed) in
         Converter.s_stream r
         = (placeholder ++ NodeBuffer.utf8 Fixture.document) ++ compressed ++ frag
         /\ Fixture.gapArchive
            = (Converter.MAGIC ++ NodeBuffer.le 4 1
                 ++ NodeBuffer.le 4 (Z.of_nat (length Fixture.document)))
                ++ NodeBuffer.le 4 (Converter.pyramidSectionLength r)
                ++ NodeBuffer.le 8 (Converter.fragmentSectionLength r)
                ++ NodeBuffer.utf8 Fixture.document ++ compressed ++ frag
                ++ concat Fixture.gapPayloads
         /\ slice Fixture.gapArchive indexStart fragmentStart = compressed
         /\ slice Fixture.gapArchive fragmentStart
              (fragmentStart + Z.of_nat (length frag)) = frag
         /\ Converter.pyramidSectionLength r = Z.of_nat (length compressed)
         /\ leValue (slice Fixture.gapArchive 12 16) = Z.of_nat (length compressed)
         /\ Converter.fragmentSectionLength r = Z.of_nat (length frag)
         /\ leValue (slice Fixture.gapArchive 16 24) = Z.of_nat (length frag)
         /\ Z.of_nat (length frag)
            = 5 * countLines isFragmentOffset log
              + 3 * (countLines isPadding log + countLines isEntry log).
Proof.
  assert (Converter.createComTileArchive Fixture.frame Fixture.small Fixture.document
            Fixture.gapTiles Fixture.gapPayloads 1 = Ok Fixture.gapArchive) as H
    by (vm_compute; reflexivity).
  split; [exact H|].
  exact (index_lengths_match_archive Fixture.frame Fixture.small Fixture.document
           Fixture.gapTiles Fixture.gapPayloads 1 Fixture.gapArchive H).
Defined.

Lemma reader_offset_differs_from_writer_witness :
  let compressed := Fixture.frame Fixture.deepPyramid in
  let range := {| fragmentIndex := 0;
                  startOffset := 26 + Z.of_nat (length compressed);
                  endOffset := 26 + Z.of_nat (length compressed) + 11 |} in
  7 <= Z.of_nat (length compressed)
  /\ exists r stA,
      Converter.writeIndex Fixture.frame [] Fixture.deepTiles Fixture.deep 7 = Ok r
      /\ Converter.s_stream r = compressed ++ Fixture.deepFragment
      /\ Converter.s_logStreamFragments r
         = [LogFragmentOffset 8; LogEntry 10; LogEntry 20]
      /\ Converter.fragmentLoopBody (tileMatrixSet Fixture.deep)
           (Converter.fragmentLoopStart compressed 8 compressed)
           (Fixture.tile 8 0 0 10 (Some 0)) = Ok stA
      /\ Converter.dataSectionOffset stA = 18
      /\ IndexCache_get Fixture.unframe
           (setIndexFragment (Fixture.emptyCache Fixture.deep compressed 26)
              range Fixture.deepFragment)
           (Fixture.tms 8 1 0)
         = Ok (Some {| IndexEntry.offset := 8; IndexEntry.size := 10 |}).
Proof.
  assert (7 <= Z.of_nat (length (Fixture.frame Fixture.deepPyramid))) as H
    by (vm_compute; discriminate).
  split; [exact H|].
  exact (reader_offset_differs_from_writer Fixture.frame Fixture.unframe 26 H).
Defined.

(** C6, the counterexample: an archive whose magic is "XXXX" is accepted. *)
Lemma loadHeader_accepts_wrong_magic :
  take 4 Fixture.wrongMagicArchive = [88; 88; 88; 88]
  /\ take 4 Fixture.wrongMagicArchive <> Converter.MAGIC
  /\ loadHeader Fixture.parse Fixture.wrongMagicArchive
     = Ok Fixture.deepHeader.
Proof. split; [reflexivity|]. split; [discriminate|]. vm_compute. reflexivity. Qed.

Lemma loadHeader_accepts_by_version_witness :
  let archive := Fixture.deepArchive in
  Forall isByte Fixture.deepBody
  /\ loadHeader Fixture.parse archive = Ok Fixture.deepHeader
  /\ leValue (slice archive 16 24) < 2 ^ 32
  /\ loadHeader Fixture.parse Fixture.wrongMagicArchive
     = Ok Fixture.deepHeader
  /\ DataView.getUint32LE archive 4 = Ok 1
  /\ exists metaLen pyramidLen,
       DataView.getUint32LE archive 8 = Ok metaLen
       /\ DataView.getUint32LE archive 12 = Ok pyramidLen
       /\ let fragmentLen := leValue (slice archive 16 24) in
          indexOffset Fixture.deepHeader = 24 + metaLen
          /\ pyramidIndexLength Fixture.deepHeader = pyramidLen
          /\ fragmentIndexLength Fixture.deepHeader = fragmentLen
          /\ dataOffset Fixture.deepHeader = 24 + metaLen + pyramidLen + fragmentLen.
Proof.
  assert (Forall isByte Fixture.deepBody) as Hb
    by (apply isByte_forallb; vm_compute; reflexivity).
  assert (loadHeader Fixture.parse Fixture.deepArchive
          = Ok Fixture.deepHeader) as Hl by (vm_compute; reflexivity).
  assert (leValue (slice Fixture.deepArchive 16 24) < 2 ^ 32) as Hlt
    by (vm_compute; reflexivity).
  split; [exact Hb|]. split; [exact Hl|]. split; [exact Hlt|].
  exact (loadHeader_accepts_by_version Fixture.parse
           67 79 77 84 88 88 88 88 Fixture.deepBody Fixture.deepHeader Hb Hl Hlt).
Defined.

(* ================================================================== *)
(** * Further properties *)

(** ** The two decoders of the provider *)

Lemma getUint8_total (b : Buffer) off :
  DataView.getUint8 b off
  = if (0 <=? off) && (off <? Z.of_nat (length b))
    then match b !! Z.to_nat off with Some v => Ok v | None => Throw RangeError end
    else Throw RangeError.
Proof.
  unfold DataView.getUint8. zbool; simpl; try lia; try reflexivity.
  rewrite lookup_ge_None_2 by lia. reflexivity.
Qed.

Lemma getUint8_cases (b : Buffer) off :
  (exists v, DataView.getUint8 b off = Ok v) \/ DataView.getUint8 b off = Throw RangeError.
Proof.
  unfold DataView.getUint8. destruct (off <? 0); [by right|].
  destruct (b !! Z.to_nat off); [left; eauto | by right].
Qed.

Lemma getUint8_outside (b : Buffer) off :
  off < 0 \/ Z.of_nat (length b) <= off -> DataView.getUint8 b off = Throw RangeError.
Proof.
  intros H. rewrite getUint8_total. zbool; simpl; try lia; reflexivity.
Qed.

Lemma getUint8_inside (b : Buffer) off :
  0 <= off < Z.of_nat (length b) ->
  exists v, b !! Z.to_nat off = Some v /\ DataView.getUint8 b off = Ok v.
Proof.
  intros H. destruct (lookup_lt_is_Some_2 b (Z.to_nat off)) as [v Hv]; [lia|].
  exists v. split; [done|]. rewrite getUint8_total, Hv. zbool; simpl; try lia; reflexivity.
Qed.

Lemma slice_three (b : Buffer) (i : nat) b0 b1 b2 :
  b !! i = Some b0 -> b !! S i = Some b1 -> b !! S (S i) = Some b2 ->
  slice b (Z.of_nat i) (Z.of_nat i + 3) = [b0; b1; b2].
Proof.
  intros H0 H1 H2. unfold slice.
  replace (Z.to_nat (Z.of_nat i + 3 - Z.of_nat i)) with 3%nat by lia.
  rewrite Nat2Z.id.
  rewrite (drop_S _ _ _ H0), (drop_S _ _ _ H1), (drop_S _ _ _ H2). reflexivity.
Qed.

(** X1. On a buffer of bytes [convertUInt24LEToNumber] returns the
    little-endian value [b0 + 256·b1 + 65536·b2] of the three bytes at
    [offset], whatever the hexadecimal strings it goes through, when they lie
    inside the buffer ([0 <= offset] and [offset + 3 <= length]); everywhere
    else it throws a [RangeError]. *)
Theorem convertUInt24LEToNumber_total (buffer : Buffer) (offset : Z) :
  Forall isByte buffer ->
  Utils.convertUInt24LEToNumber buffer offset
  = if (0 <=? offset) && (offset + 3 <=? Z.of_nat (length buffer))
    then Ok (leValue (slice buffer offset (offset + 3)))
    else Throw RangeError.
Proof.
  intros Hb.
  destruct (Z.leb_spec 0 offset) as [H0|H0]; simpl.
  - destruct (Z.leb_spec (offset + 3) (Z.of_nat (length buffer))) as [H3|H3].
    + destruct (getUint8_inside buffer offset) as (b0 & L0 & _); [lia|].
      destruct (getUint8_inside buffer (offset + 1)) as (b1 & L1 & _); [lia|].
      destruct (getUint8_inside buffer (offset + 2)) as (b2 & L2 & _); [lia|].
      replace (Z.to_nat (offset + 1)) with (S (Z.to_nat offset)) in L1 by lia.
      replace (Z.to_nat (offset + 2)) with (S (S (Z.to_nat offset))) in L2 by lia.
      rewrite <- (Z2Nat.id offset) by lia.
      rewrite (slice_three _ _ _ _ _ L0 L1 L2).
      apply convertUInt24LE_lookup; try done;
        eapply (proj1 (Forall_lookup _ _) Hb); eauto.
    + unfold Utils.convertUInt24LEToNumber.
      rewrite (getUint8_outside buffer (offset + 2)) by lia.
      destruct (getUint8_cases buffer offset) as [[v0 ->]| ->]; [|reflexivity].
      destruct (getUint8_cases buffer (offset + 1)) as [[v1 ->]| ->]; reflexivity.
  - unfold Utils.convertUInt24LEToNumber.
    rewrite (getUint8_outside buffer offset) by lia. reflexivity.
Qed.

Lemma getUint32LE_cases (b : Buffer) off :
  (exists v, DataView.getUint32LE b off = Ok v)
  \/ DataView.getUint32LE b off = Throw RangeError.
Proof.
  unfold DataView.getUint32LE.
  destruct (getUint8_cases b off) as [[v0 ->]| ->]; [|by right].
  destruct (getUint8_cases b (off + 1)) as [[v1 ->]| ->]; [|by right].
  destruct (getUint8_cases b (off + 2)) as [[v2 ->]| ->]; [|by right].
  destruct (getUint8_cases b (off + 3)) as [[v3 ->]| ->]; [|by right].
  left. eexists. reflexivity.
Qed.

Lemma getUint32LE_outside (b : Buffer) off :
  off < 0 \/ Z.of_nat (length b) < off + 4 ->
  DataView.getUint32LE b off = Throw RangeError.
Proof.
  intros H. unfold DataView.getUint32LE.
  destruct (Z.ltb_spec off 0) as [Hn|Hn].
  - rewrite (getUint8_outside b off) by lia. reflexivity.
  - rewrite (getUint8_outside b (off + 3)) by lia.
    destruct (getUint8_cases b off) as [[v0 ->]| ->]; [|reflexivity].
    destruct (getUint8_cases b (off + 1)) as [[v1 ->]| ->]; [|reflexivity].
    destruct (getUint8_cases b (off + 2)) as [[v2 ->]| ->]; reflexivity.
Qed.

Lemma convertUInt24LE_outside (b : Buffer) off :
  off < 0 \/ Z.of_nat (length b) < off + 3 ->
  Utils.convertUInt24LEToNumber b off = Throw RangeError.
Proof.
  intros H. unfold Utils.convertUInt24LEToNumber.
  destruct (Z.ltb_spec off 0) as [Hn|Hn].
  - rewrite (getUint8_outside b off) by lia. reflexivity.
  - rewrite (getUint8_outside b (off + 2)) by lia.
    destruct (getUint8_cases b off) as [[v0 ->]| ->]; [|reflexivity].
    destruct (getUint8_cases b (off + 1)) as [[v1 ->]| ->]; reflexivity.
Qed.

(** X2. [convertUInt40LEToNumber] returns the little-endian value of the five
    bytes at [offset] when they lie inside the buffer, and throws a
    [RangeError] everywhere else, also at [offset = -1], where its first read
    ([getUint32] at 0) succeeds. *)
Theorem convertUInt40LEToNumber_total (buffer : Buffer) (offset : Z) :
  Utils.convertUInt40LEToNumber buffer offset
  = if (0 <=? offset) && (offset + 5 <=? Z.of_nat (length buffer))
    then Ok (leValue (slice buffer offset (offset + 5)))
    else Throw RangeError.
Proof.
  unfold Utils.convertUInt40LEToNumber.
  destruct (Z.leb_spec 0 offset) as [H0|H0]; simpl.
  - destruct (Z.leb_spec (offset + 5) (Z.of_nat (length buffer))) as [H5|H5].
    + destruct (getUint8_inside buffer offset) as (b0 & L0 & E0); [lia|].
      destruct (getUint8_inside buffer (offset + 1)) as (b1 & L1 & E1); [lia|].
      destruct (getUint8_inside buffer (offset + 1 + 1)) as (b2 & L2 & E2); [lia|].
      destruct (getUint8_inside buffer (offset + 1 + 2)) as (b3 & L3 & E3); [lia|].
      destruct (getUint8_inside buffer (offset + 1 + 3)) as (b4 & L4 & E4); [lia|].
      unfold DataView.getUint32LE. rewrite E0, E1, E2, E3, E4. cbn.
      unfold slice.
      replace (Z.to_nat (offset + 5 - offset)) with 5%nat by lia.
      replace (Z.to_nat (offset + 1)) with (S (Z.to_nat offset)) in L1 by lia.
      replace (Z.to_nat (offset + 1 + 1)) with (S (S (Z.to_nat offset))) in L2 by lia.
      replace (Z.to_nat (offset + 1 + 2)) with (S (S (S (Z.to_nat offset)))) in L3 by lia.
      replace (Z.to_nat (offset + 1 + 3)) with (S (S (S (S (Z.to_nat offset))))) in L4 by lia.
      rewrite (drop_S _ _ _ L0), (drop_S _ _ _ L1), (drop_S _ _ _ L2),
        (drop_S _ _ _ L3), (drop_S _ _ _ L4).
      cbn [take leValue]. rewrite take_0. cbn [leValue]. f_equal. lia.
    + rewrite (getUint32LE_outside buffer (offset + 1)) by lia. reflexivity.
  - destruct (getUint32LE_cases buffer (offset + 1)) as [[v ->]| ->]; [|reflexivity].
    rewrite (getUint8_outside buffer offset) by lia. reflexivity.
Qed.

Lemma forEach_ext {St A} (f g : St -> A -> result St) (l : list A) st :
  (forall a st, a ∈ l -> f st a = g st a) ->
  forEach f l st = forEach g l st.
Proof.
  revert st. induction l as [|a l IH]; intros st H; [reflexivity|].
  cbn [forEach]. rewrite H by apply list_elem_of_here.
  destruct (g st a); [|reflexivity]. cbn. apply IH.
  intros b st' Hb. apply H. by apply list_elem_of_further.
Qed.

Lemma forEach_app {St A} (f : St -> A -> result St) (l1 l2 : list A) st :
  forEach f (l1 ++ l2) st = (st' ← forEach f l1 st; forEach f l2 st').
Proof.
  revert st. induction l1 as [|a l1 IH]; intros st; [reflexivity|].
  cbn [forEach app]. destruct (f st a); [|reflexivity]. cbn. apply IH.
Qed.

Lemma read_entry (pre rest : Buffer) (sizes : list Z) (i : nat) s :
  Forall (fun s => 0 <= s < 2 ^ 24) sizes ->
  sizes !! i = Some s ->
  Utils.convertUInt24LEToNumber (pre ++ concat (NodeBuffer.le 3 <$> sizes) ++ rest)
    (Z.of_nat (length pre) + 3 * Z.of_nat i) = Ok s.
Proof.
  intros Hs Hi.
  destruct (concat_le3_split sizes i s Hi) as (p & r & -> & Hp).
  replace (pre ++ (p ++ NodeBuffer.le 3 s ++ r) ++ rest)
    with ((pre ++ p) ++ NodeBuffer.le 3 s ++ (r ++ rest))
    by (rewrite <- !app_assoc; reflexivity).
  replace (Z.of_nat (length pre) + 3 * Z.of_nat i) with (Z.of_nat (length (pre ++ p)))
    by (rewrite length_app; lia).
  apply convertUInt24LE_middle.
  eapply (proj1 (Forall_lookup _ _) Hs); eauto.
Qed.

Lemma sumZ_take_S (sizes : list Z) (n : nat) s :
  sizes !! n = Some s -> sumZ (take (S n) sizes) = sumZ (take n sizes) + s.
Proof.
  intros H. rewrite (take_S_r _ _ _ H), sumZ_app. unfold sumZ. simpl. lia.
Qed.

Lemma sum_entries (pre rest : Buffer) (sizes : list Z) (n : nat) acc :
  Forall (fun s => 0 <= s < 2 ^ 24) sizes ->
  (n <= length sizes)%nat ->
  forEach (fun offset i =>
             s ← Utils.convertUInt24LEToNumber
                   (pre ++ concat (NodeBuffer.le 3 <$> sizes) ++ rest)
                   (Z.of_nat (length pre) + 3 * i);
             Ok (offset + s))
    (seqZ 0 (Z.of_nat n)) acc
  = Ok (acc + sumZ (take n sizes)).
Proof.
  intros Hs. induction n as [|n IH]; intros Hn.
  - cbn. f_equal. unfold sumZ. simpl. lia.
  - replace (Z.of_nat (S n)) with (Z.of_nat n + 1) by lia.
    rewrite seqZ_app by lia. rewrite forEach_app, IH by lia.
    rewrite seqZ_cons, seqZ_nil by lia. cbn [mbind result_bind forEach].
    replace (0 + Z.of_nat n) with (Z.of_nat n) by lia.
    destruct (lookup_lt_is_Some_2 sizes n) as [s Hi]; [lia|].
    rewrite (read_entry pre rest sizes n s Hs Hi). cbn.
    rewrite (sumZ_take_S _ _ _ Hi). f_equal. lia.
Qed.

Lemma length_concat_le3 (sizes : list Z) :
  length (concat (NodeBuffer.le 3 <$> sizes)) = (3 * length sizes)%nat.
Proof.
  induction sizes as [|s l IH]; [reflexivity|].
  cbn [fmap list_fmap concat]. rewrite length_app, length_le.
  fold (fmap (M:=list) (NodeBuffer.le 3) l). rewrite IH. cbn [length]. lia.
Qed.

Lemma pyramid_entry (sizes : list Z) (i : nat) s :
  Forall (fun s => 0 <= s < 2 ^ 24) sizes ->
  sizes !! i = Some s ->
  getIndexEntryPyramidSection (Z.of_nat i) (concat (NodeBuffer.le 3 <$> sizes))
  = Ok {| IndexEntry.offset := sumZ (take i sizes); IndexEntry.size := s |}.
Proof.
  intros Hs Hi. unfold getIndexEntryPyramidSection, INDEX_ENTRY_NUM_BYTES.
  pose proof (read_entry [] [] sizes i s Hs Hi) as R.
  rewrite app_nil_r in R. cbn [app length] in R.
  replace (Z.of_nat i * 3) with (Z.of_nat 0 + 3 * Z.of_nat i) by lia.
  rewrite R. cbn.
  pose proof (sum_entries [] [] sizes i 0 Hs) as S.
  rewrite app_nil_r in S. cbn [app length] in S.
  erewrite forEach_ext; [rewrite S|].
  - cbn. reflexivity.
  - apply lookup_lt_Some in Hi. lia.
  - intros a st _. cbn. replace (a * 3) with (0 + 3 * a) by lia. reflexivity.
Qed.

(** X3. On a pyramid index that holds the 3-byte sizes [sizes] one after the
    other, [getIndexEntryPyramidSection] at the index [i] returns the size of
    the entry [i] and, as its offset, the sum of the sizes of the entries
    before it; at an index behind the last entry it throws a [RangeError]. *)
Theorem getIndexEntryPyramidSection_sizes (sizes : list Z) (i : nat) :
  Forall (fun s => 0 <= s < 2 ^ 24) sizes ->
  getIndexEntryPyramidSection (Z.of_nat i) (concat (NodeBuffer.le 3 <$> sizes))
  = match sizes !! i with
    | Some s => Ok {| IndexEntry.offset := sumZ (take i sizes); IndexEntry.size := s |}
    | None => Throw RangeError
    end.
Proof.
  intros Hs. destruct (sizes !! i) as [s|] eqn:Hi.
  - by apply pyramid_entry.
  - apply lookup_ge_None_1 in Hi.
    unfold getIndexEntryPyramidSection, INDEX_ENTRY_NUM_BYTES.
    rewrite convertUInt24LE_outside; [reflexivity|].
    right. rewrite length_concat_le3. lia.
Qed.

Lemma getIndexEntryFragmentSection_le (base : Z) (sizes : list Z) (i : nat) :
  0 <= base < 2 ^ 40 ->
  Forall (fun s => 0 <= s < 2 ^ 24) sizes ->
  getIndexEntryFragmentSection (Z.of_nat i)
    (NodeBuffer.le 5 base ++ concat (NodeBuffer.le 3 <$> sizes))
  = match sizes !! i with
    | Some s => Ok {| IndexEntry.offset := base + sumZ (take i sizes);
                      IndexEntry.size := s |}
    | None => Throw RangeError
    end.
Proof.
  intros Hb Hs. unfold getIndexEntryFragmentSection, INDEX_ENTRY_NUM_BYTES.
  destruct (sizes !! i) as [s|] eqn:Hi.
  - pose proof (read_entry (NodeBuffer.le 5 base) [] sizes i s Hs Hi) as R.
    rewrite app_nil_r, length_le in R.
    replace (Z.of_nat i * 3 + 5) with (Z.of_nat 5 + 3 * Z.of_nat i) by lia.
    rewrite R. cbn [mbind result_bind].
    rewrite convertUInt40LE_le5 by done. cbn [mbind result_bind].
    pose proof (sum_entries (NodeBuffer.le 5 base) [] sizes i base Hs) as S.
    rewrite app_nil_r, length_le in S.
    erewrite forEach_ext; [rewrite S|].
    + cbn. reflexivity.
    + apply lookup_lt_Some in Hi. lia.
    + intros a st _. cbn beta. replace (5 + a * 3) with (Z.of_nat 5 + 3 * a) by lia.
      reflexivity.
  - apply lookup_ge_None_1 in Hi.
    rewrite convertUInt24LE_outside; [reflexivity|].
    right. rewrite length_app, length_le, length_concat_le3. lia.
Qed.

(** X4. Encode, then decode: on the fragment that [encodeFragmentByteAligned]
    builds from an absolute offset and tile sizes that fit their fields,
    [getIndexEntryFragmentSection] at the local index [i] returns the size of
    the entry [i] and the absolute offset plus the sizes of the entries before
    it; behind the last entry it throws a [RangeError]. *)
Theorem getIndexEntryFragmentSection_encoded absoluteOffset (tileSizes : list Z)
  (i : nat) :
  0 <= absoluteOffset < 2 ^ 40 ->
  Forall (fun s => 0 <= s < 2 ^ 24) tileSizes ->
  (fragment ← Encoder.encodeFragmentByteAligned absoluteOffset tileSizes;
   getIndexEntryFragmentSection (Z.of_nat i) fragment)
  = match tileSizes !! i with
    | Some s => Ok {| IndexEntry.offset := absoluteOffset + sumZ (take i tileSizes);
                      IndexEntry.size := s |}
    | None => Throw RangeError
    end.
Proof.
  intros Hb Hs. rewrite encodeFragmentByteAligned_eq by done.
  cbn [mbind result_bind]. by apply getIndexEntryFragmentSection_le.
Qed.

(** ** The byte-aligned encoder on sizes that do not fit *)

Lemma writeUint8_cases (b : Buffer) v off :
  (exists b', NodeBuffer.writeUint8 b v off = Ok b')
  \/ NodeBuffer.writeUint8 b v off = Throw RangeError.
Proof.
  unfold NodeBuffer.writeUint8. destruct (_ && _); [left; eauto | by right].
Qed.

Lemma writeUint8_not_byte (b : Buffer) v off :
  v < 0 \/ 255 < v -> NodeBuffer.writeUint8 b v off = Throw RangeError.
Proof.
  intros H. unfold NodeBuffer.writeUint8.
  destruct (Z.leb_spec 0 v); destruct (Z.leb_spec v 255); try lia; reflexivity.
Qed.

Lemma ToInt32_int32 v : - 2 ^ 31 <= v < 2 ^ 31 -> JS.ToInt32 v = v.
Proof.
  intros H. unfold JS.ToInt32. rewrite Z.mod_small by lia. lia.
Qed.

Lemma shr_16_out s :
  - 2 ^ 31 <= s < 2 ^ 31 -> s < 0 \/ 2 ^ 24 <= s ->
  JS.shr s 16 < 0 \/ 255 < JS.shr s 16.
Proof.
  intros Hs Hout. unfold JS.shr. rewrite ToInt32_int32 by lia.
  change (16 mod 32) with 16. rewrite Z.shiftr_div_pow2 by lia.
  destruct Hout as [Hn|Hp].
  - left. apply Z.div_lt_upper_bound; lia.
  - right. assert (256 <= s / 2 ^ 16); [|lia].
    apply Z.div_le_lower_bound; lia.
Qed.

Lemma encodeTileSize_out st s :
  - 2 ^ 31 <= s < 2 ^ 31 -> s < 0 \/ 2 ^ 24 <= s ->
  Encoder.encodeTileSize st s = Throw RangeError.
Proof.
  intros Hs Hout. destruct st as [b i]. unfold Encoder.encodeTileSize.
  destruct (writeUint8_cases b (JS.band s 255) i) as [[b1 ->]| ->]; [|reflexivity].
  cbn [mbind result_bind].
  destruct (writeUint8_cases b1 (JS.band (JS.shr s 8) 255) (i + 1)) as [[b2 ->]| ->];
    [|reflexivity].
  cbn [mbind result_bind].
  rewrite writeUint8_not_byte by (by apply shr_16_out). reflexivity.
Qed.

Lemma encodeTileSize_cases st s :
  (exists st', Encoder.encodeTileSize st s = Ok st')
  \/ Encoder.encodeTileSize st s = Throw RangeError.
Proof.
  destruct st as [b i]. unfold Encoder.encodeTileSize.
  destruct (writeUint8_cases b (JS.band s 255) i) as [[b1 ->]| ->]; [|by right].
  cbn [mbind result_bind].
  destruct (writeUint8_cases b1 (JS.band (JS.shr s 8) 255) (i + 1)) as [[b2 ->]| ->];
    [|by right].
  cbn [mbind result_bind].
  destruct (writeUint8_cases b2 (JS.shr s 16) (i + 2)) as [[b3 ->]| ->];
    [|by right].
  left. eexists. reflexivity.
Qed.

Lemma forEach_encodeTileSize_out (sizes : list Z) s st :
  s ∈ sizes ->
  - 2 ^ 31 <= s < 2 ^ 31 -> s < 0 \/ 2 ^ 24 <= s ->
  forEach Encoder.encodeTileSize sizes st = Throw RangeError.
Proof.
  intros Hin Hs Hout. revert st.
  induction sizes as [|a sizes IH]; intros st; [by apply elem_of_nil in Hin|].
  cbn [forEach].
  apply elem_of_cons in Hin as [<-|Hin].
  - rewrite encodeTileSize_out by done. reflexivity.
  - destruct (encodeTileSize_cases st a) as [[st' ->]| ->]; [|reflexivity].
    cbn [mbind result_bind]. by apply IH.
Qed.

(** X20. [encodeFragmentByteAligned] throws a [RangeError] when one of the
    tile sizes, a 32-bit integer, is negative or does not fit 3 bytes: the
    third byte it would write is not a byte. *)
Theorem encodeFragmentByteAligned_rejects absoluteOffset (tileSizes : list Z) s :
  0 <= absoluteOffset < 2 ^ 40 ->
  s ∈ tileSizes ->
  - 2 ^ 31 <= s < 2 ^ 31 ->
  s < 0 \/ 2 ^ 24 <= s ->
  Encoder.encodeFragmentByteAligned absoluteOffset tileSizes = Throw RangeError.
Proof.
  intros Hoff Hin Hs Hout. unfold Encoder.encodeFragmentByteAligned.
  unfold NodeBuffer.alloc. rewrite ceilDiv_fragment.
  destruct (Z.ltb_spec (5 + 3 * Z.of_nat (length tileSizes)) 0); [lia|].
  cbn [mbind result_bind]. unfold Encoder.toBytesLE, Encoder.indexOffsetByteWidth.
  destruct (Z.leb_spec 0 absoluteOffset); [|lia].
  destruct (Z.ltb_spec absoluteOffset (256 ^ 5)); [|lia].
  cbn [andb mbind result_bind].
  rewrite (forEach_encodeTileSize_out tileSizes s) by done. reflexivity.
Qed.

Lemma encodeFragmentByteAligned_rejects_witness :
  Encoder.encodeFragmentByteAligned 1000 [100; 16777216; 7] = Throw RangeError.
Proof.
  apply (encodeFragmentByteAligned_rejects 1000 [100; 16777216; 7] 16777216).
  - lia.
  - apply list_elem_of_further, list_elem_of_here.
  - lia.
  - right. lia.
Defined.

(** ** The order of the index entries *)

Lemma cell_bounds F x : 0 < F -> x / F * F <= x < x / F * F + F.
Proof.
  intros HF. pose proof (Z.div_mod x F ltac:(lia)). pose proof (Z.mod_pos_bound x F HF). lia.
Qed.

Lemma cell_next F x x' : 0 < F -> x / F < x' / F -> x / F * F + F <= x' / F * F.
Proof. intros HF H. nia. Qed.

Lemma fragmentOrder_trichotomy F x y x' y' :
  Spec.fragmentOrderLt F x y x' y' \/ (x = x' /\ y = y') \/ Spec.fragmentOrderLt F x' y' x y.
Proof.
  unfold Spec.fragmentOrderLt.
  destruct (Z.lt_trichotomy (y / F) (y' / F)) as [H|[H|H]]; [tauto| |tauto].
  destruct (Z.lt_trichotomy (x / F) (x' / F)) as [H1|[H1|H1]];
    [tauto| |right; right; right; left; split; [symmetry|]; assumption].
  destruct (Z.lt_trichotomy y y') as [H2|[H2|H2]].
  - left. right. right. repeat split; try assumption. left. assumption.
  - destruct (Z.lt_trichotomy x x') as [H3|[H3|H3]].
    + left. right. right. repeat split; try assumption. right. split; assumption.
    + right. left. split; assumption.
    + right. right. right. right. repeat split; try (symmetry; assumption).
      right. split; [symmetry|]; assumption.
  - right. right. right. right. repeat split; try (symmetry; assumption).
    left. assumption.
Qed.

(** The entries before a tile, counted as [calculateFragmentIndexOffsetForTile]
    does from the sparse bounds [C0..C1] x [R0..R1] of the tile's fragment,
    lie between the entries of the rows of cells below and those of the
    cells up to the tile's own. *)
Lemma entries_band_range a b A C0 C1 R0 R1 x y e :
  e = (C0 - a) * (R1 - b + 1) + (A - C0 + 1) * (R0 - b)
      + (y - R0) * (C1 - C0 + 1) + (x - C0) ->
  a <= C0 <= x -> x <= C1 <= A -> b <= R0 <= y -> y <= R1 ->
  (A - a + 1) * (R0 - b) + (C0 - a) * (R1 - R0 + 1) <= e
  /\ e < (A - a + 1) * (R0 - b) + (C1 + 1 - a) * (R1 - R0 + 1)
  /\ (A - a + 1) * (R0 - b) + (C1 + 1 - a) * (R1 - R0 + 1)
     <= (A - a + 1) * (R1 + 1 - b)
  /\ 0 <= (C0 - a) * (R1 - R0 + 1).
Proof.
  intros -> HC0 HC1 HR0 HR1.
  replace ((C0 - a) * (R1 - b + 1) + (A - C0 + 1) * (R0 - b)
           + (y - R0) * (C1 - C0 + 1) + (x - C0))
    with ((A - a + 1) * (R0 - b) + (C0 - a) * (R1 - R0 + 1)
          + (y - R0) * (C1 - C0 + 1) + (x - C0)) by ring.
  assert (0 <= (C0 - a) * (R1 - R0 + 1)) by (apply Z.mul_nonneg_nonneg; lia).
  assert (0 <= (y - R0) * (C1 - C0 + 1)) by (apply Z.mul_nonneg_nonneg; lia).
  assert ((y - R0) * (C1 - C0 + 1) <= (R1 - R0) * (C1 - C0 + 1))
    by (apply Z.mul_le_mono_nonneg_r; lia).
  assert ((C1 + 1 - a) * (R1 - R0 + 1) <= (A - a + 1) * (R1 - R0 + 1))
    by (apply Z.mul_le_mono_nonneg_r; lia).
  repeat split; lia.
Qed.

Section FragmentedZoom.

Variable tm : TileMatrix.
Hypothesis Hc : 0 <= aggregationCoefficient tm.

Lemma side_pos : 0 < 2 ^ aggregationCoefficient tm.
Proof. apply Z.pow_pos_nonneg; lia. Qed.

Lemma sparseBounds_contains x y :
  ComtIndex.inRange x y (tileMatrixLimits tm) = true ->
  let l := tileMatrixLimits tm in
  let sfb := Spec.sparseBounds tm x y in
  (minTileCol l <= minTileCol sfb <= x /\ x <= maxTileCol sfb <= maxTileCol l)
  /\ (minTileRow l <= minTileRow sfb <= y /\ y <= maxTileRow sfb <= maxTileRow l)
  /\ maxTileCol sfb - minTileCol sfb + 1 <= 2 ^ aggregationCoefficient tm
  /\ maxTileRow sfb - minTileRow sfb + 1 <= 2 ^ aggregationCoefficient tm.
Proof.
  intros Hin l sfb. apply inRange_spec in Hin. subst l sfb.
  pose proof (cell_bounds _ x side_pos). pose proof (cell_bounds _ y side_pos).
  unfold Spec.sparseBounds, Spec.intersect, Spec.denseBounds.
  cbn [minTileCol maxTileCol minTileRow maxTileRow]. lia.
Qed.

Lemma sparseBounds_next_col x y x' y' :
  x / 2 ^ aggregationCoefficient tm < x' / 2 ^ aggregationCoefficient tm ->
  maxTileCol (Spec.sparseBounds tm x y) + 1 <= minTileCol (Spec.sparseBounds tm x' y').
Proof.
  intros Hlt. pose proof (cell_next _ x x' side_pos Hlt).
  unfold Spec.sparseBounds, Spec.intersect, Spec.denseBounds.
  cbn [minTileCol maxTileCol minTileRow maxTileRow]. lia.
Qed.

Lemma sparseBounds_next_row x y x' y' :
  y / 2 ^ aggregationCoefficient tm < y' / 2 ^ aggregationCoefficient tm ->
  maxTileRow (Spec.sparseBounds tm x y) + 1 <= minTileRow (Spec.sparseBounds tm x' y').
Proof.
  intros Hlt. pose proof (cell_next _ y y' side_pos Hlt).
  unfold Spec.sparseBounds, Spec.intersect, Spec.denseBounds.
  cbn [minTileCol maxTileCol minTileRow maxTileRow]. lia.
Qed.

Lemma sparseBounds_same_cell x y x' y' :
  x / 2 ^ aggregationCoefficient tm = x' / 2 ^ aggregationCoefficient tm ->
  y / 2 ^ aggregationCoefficient tm = y' / 2 ^ aggregationCoefficient tm ->
  Spec.sparseBounds tm x y = Spec.sparseBounds tm x' y'.
Proof.
  intros Hx Hy. unfold Spec.sparseBounds, Spec.denseBounds. rewrite Hx, Hy.
  reflexivity.
Qed.

Lemma sparseBounds_same_rows x y x' y' :
  y / 2 ^ aggregationCoefficient tm = y' / 2 ^ aggregationCoefficient tm ->
  minTileRow (Spec.sparseBounds tm x y) = minTileRow (Spec.sparseBounds tm x' y')
  /\ maxTileRow (Spec.sparseBounds tm x y) = maxTileRow (Spec.sparseBounds tm x' y').
Proof.
  intros Hy. unfold Spec.sparseBounds, Spec.intersect, Spec.denseBounds.
  cbn [minTileCol maxTileCol minTileRow maxTileRow]. rewrite Hy. split; reflexivity.
Qed.

(** The offset of a tile inside its zoom, written out. *)
Lemma offsetInZoom_fragmented x y :
  let l := tileMatrixLimits tm in
  let sfb := Spec.sparseBounds tm x y in
  Spec.offsetInZoom tm x y
  = 3 * ((minTileCol sfb - minTileCol l) * (maxTileRow sfb - minTileRow l + 1)
         + (maxTileCol l - minTileCol sfb + 1) * (minTileRow sfb - minTileRow l)
         + (y - minTileRow sfb) * (maxTileCol sfb - minTileCol sfb + 1)
         + (x - minTileCol sfb)).
Proof.
  intros l sfb. unfold Spec.offsetInZoom.
  destruct (Z.eqb_spec (aggregationCoefficient tm) (-1)); [lia|].
  unfold Spec.entriesBeforeFragment. cbv zeta. subst l sfb. ring.
Qed.

Lemma offsetInZoom_range x y :
  ComtIndex.inRange x y (tileMatrixLimits tm) = true ->
  0 <= Spec.offsetInZoom tm x y < 3 * Spec.numTiles tm.
Proof.
  intros Hin. rewrite offsetInZoom_fragmented. cbv zeta.
  destruct (sparseBounds_contains x y Hin) as ((? & ?) & (? & ?) & _).
  unfold Spec.numTiles.
  set (l := tileMatrixLimits tm) in *. set (sfb := Spec.sparseBounds tm x y) in *.
  pose proof (entries_band_range (minTileCol l) (minTileRow l) (maxTileCol l)
                (minTileCol sfb) (maxTileCol sfb) (minTileRow sfb) (maxTileRow sfb)
                x y _ eq_refl ltac:(lia) ltac:(lia) ltac:(lia) ltac:(lia))
    as (L & U1 & U2 & P).
  assert (0 <= (maxTileCol l - minTileCol l + 1) * (minTileRow sfb - minTileRow l))
    by (apply Z.mul_nonneg_nonneg; lia).
  assert ((maxTileCol l - minTileCol l + 1) * (maxTileRow sfb + 1 - minTileRow l)
          <= (maxTileCol l - minTileCol l + 1) * (maxTileRow l - minTileRow l + 1))
    by (apply Z.mul_le_mono_nonneg_l; lia).
  lia.
Qed.

Lemma offsetInZoom_lt x y x' y' :
  ComtIndex.inRange x y (tileMatrixLimits tm) = true ->
  ComtIndex.inRange x' y' (tileMatrixLimits tm) = true ->
  Spec.fragmentOrderLt (2 ^ aggregationCoefficient tm) x y x' y' ->
  Spec.offsetInZoom tm x y < Spec.offsetInZoom tm x' y'.
Proof.
  intros Hin Hin' Hlt. rewrite !offsetInZoom_fragmented. cbv zeta.
  destruct (sparseBounds_contains x y Hin) as ((? & ?) & (? & ?) & _).
  destruct (sparseBounds_contains x' y' Hin') as ((? & ?) & (? & ?) & _).
  set (l := tileMatrixLimits tm) in *.
  pose proof (entries_band_range (minTileCol l) (minTileRow l) (maxTileCol l)
                (minTileCol (Spec.sparseBounds tm x y))
                (maxTileCol (Spec.sparseBounds tm x y))
                (minTileRow (Spec.sparseBounds tm x y))
                (maxTileRow (Spec.sparseBounds tm x y))
                x y _ eq_refl ltac:(lia) ltac:(lia) ltac:(lia) ltac:(lia))
    as (L & U1 & U2 & P).
  pose proof (entries_band_range (minTileCol l) (minTileRow l) (maxTileCol l)
                (minTileCol (Spec.sparseBounds tm x' y'))
                (maxTileCol (Spec.sparseBounds tm x' y'))
                (minTileRow (Spec.sparseBounds tm x' y'))
                (maxTileRow (Spec.sparseBounds tm x' y'))
                x' y' _ eq_refl ltac:(lia) ltac:(lia) ltac:(lia) ltac:(lia))
    as (L' & U1' & U2' & P').
  destruct Hlt as [Hr | [[Hr Hcol] | (Hr & Hcol & Hin2)]].
  - (* a lower row of cells *)
    pose proof (sparseBounds_next_row x y x' y' Hr).
    set (sfb := Spec.sparseBounds tm x y) in *.
    set (sfb' := Spec.sparseBounds tm x' y') in *.
    assert ((maxTileCol l - minTileCol l + 1) * (maxTileRow sfb + 1 - minTileRow l)
            <= (maxTileCol l - minTileCol l + 1) * (minTileRow sfb' - minTileRow l))
      by (apply Z.mul_le_mono_nonneg_l; lia).
    lia.
  - (* the same row of cells, a cell further left *)
    pose proof (sparseBounds_next_col x y x' y' Hcol).
    destruct (sparseBounds_same_rows x y x' y' Hr) as [E0 E1].
    set (sfb := Spec.sparseBounds tm x y) in *.
    set (sfb' := Spec.sparseBounds tm x' y') in *.
    rewrite <- E0, <- E1 in *.
    assert ((maxTileCol sfb + 1 - minTileCol l) * (maxTileRow sfb - minTileRow sfb + 1)
            <= (minTileCol sfb' - minTileCol l) * (maxTileRow sfb - minTileRow sfb + 1))
      by (apply Z.mul_le_mono_nonneg_r; lia).
    lia.
  - (* the same cell *)
    rewrite <- (sparseBounds_same_cell x y x' y' Hcol Hr) in *.
    set (sfb := Spec.sparseBounds tm x y) in *.
    destruct Hin2 as [Hin2 | [-> Hin2]]; [|lia].
    assert ((y - minTileRow sfb + 1) * (maxTileCol sfb - minTileCol sfb + 1)
            <= (y' - minTileRow sfb) * (maxTileCol sfb - minTileCol sfb + 1))
      by (apply Z.mul_le_mono_nonneg_r; lia).
    lia.
Qed.

End FragmentedZoom.

Lemma offsetInZoom_pyramid tm x y :
  aggregationCoefficient tm = -1 ->
  let l := tileMatrixLimits tm in
  Spec.offsetInZoom tm x y
  = 3 * ((y - minTileRow l) * (maxTileCol l - minTileCol l + 1) + (x - minTileCol l)).
Proof. intros H l. unfold Spec.offsetInZoom. rewrite H. cbn. fold l. ring. Qed.

Lemma offsetInZoom_pyramid_range tm x y :
  aggregationCoefficient tm = -1 ->
  ComtIndex.inRange x y (tileMatrixLimits tm) = true ->
  0 <= Spec.offsetInZoom tm x y < 3 * Spec.numTiles tm.
Proof.
  intros H Hin. apply inRange_spec in Hin. rewrite offsetInZoom_pyramid by done.
  cbv zeta. unfold Spec.numTiles. set (l := tileMatrixLimits tm) in *.
  assert (0 <= (y - minTileRow l) * (maxTileCol l - minTileCol l + 1))
    by (apply Z.mul_nonneg_nonneg; lia).
  assert ((y - minTileRow l + 1) * (maxTileCol l - minTileCol l + 1)
          <= (maxTileRow l - minTileRow l + 1) * (maxTileCol l - minTileCol l + 1))
    by (apply Z.mul_le_mono_nonneg_r; lia).
  lia.
Qed.

Lemma offsetInZoom_pyramid_lt tm x y x' y' :
  aggregationCoefficient tm = -1 ->
  ComtIndex.inRange x y (tileMatrixLimits tm) = true ->
  ComtIndex.inRange x' y' (tileMatrixLimits tm) = true ->
  y < y' \/ (y = y' /\ x < x') ->
  Spec.offsetInZoom tm x y < Spec.offsetInZoom tm x' y'.
Proof.
  intros H Hin Hin' Hlt. apply inRange_spec in Hin. apply inRange_spec in Hin'.
  rewrite !offsetInZoom_pyramid by done. cbv zeta.
  set (l := tileMatrixLimits tm) in *.
  destruct Hlt as [Hlt | [-> Hlt]]; [|lia].
  assert ((y - minTileRow l + 1) * (maxTileCol l - minTileCol l + 1)
          <= (y' - minTileRow l) * (maxTileCol l - minTileCol l + 1))
    by (apply Z.mul_le_mono_nonneg_r; lia).
  lia.
Qed.

Lemma rowMajor_trichotomy (x y x' y' : Z) :
  (y < y' \/ (y = y' /\ x < x')) \/ (x = x' /\ y = y') \/ (y' < y \/ (y' = y /\ x' < x)).
Proof. lia. Qed.

(** What [calculateIndexOffsetForTile] returns, with the index written out. *)
Lemma calculateIndexOffsetForTile_index tms z tm x y :
  Spec.onlyZoom tms z tm ->
  ComtIndex.inRange x y (tileMatrixLimits tm) = true ->
  0 <= minTileCol (tileMatrixLimits tm) ->
  0 <= minTileRow (tileMatrixLimits tm) ->
  exists k,
    Spec.offsetInZoom tm x y = 3 * k
    /\ ComtIndex.calculateIndexOffsetForTile tms z x y
       = Ok (3 * (Spec.tilesBelow z (tileMatrix tms) + k),
             Spec.tilesBelow z (tileMatrix tms) + k).
Proof.
  intros Hz Hin Hc Hr. destruct (offsetInZoom_mult tm x y) as [k Hk].
  exists k. split; [exact Hk|]. unfold ComtIndex.calculateIndexOffsetForTile.
  rewrite (indexOffset_fold _ _ _ _ tm) by done.
  cbn [mbind result_bind]. rewrite Hk. unfold ComtIndex.NUM_BYTES_TILE_SIZE.
  replace (0 + 3 * Spec.tilesBelow z (tileMatrix tms) + 3 * k)
    with ((Spec.tilesBelow z (tileMatrix tms) + k) * 3) by lia.
  rewrite Z.div_mul by lia. do 2 f_equal. lia.
Qed.

(** X5. The index that [calculateIndexOffsetForTile] gives a tile inside the
    limits of its zoom lies in the slots of that zoom: at or after the number
    of tiles of the lower zooms, and less than [numTiles] of the zoom further
    on; the offset is three times the index.  The tile matrix set has one
    tile matrix of the zoom, with limits that are not negative and an
    aggregation coefficient that is [-1] or a natural number. *)
Theorem calculateIndexOffsetForTile_slot tms z tm x y :
  Spec.onlyZoom tms z tm ->
  ComtIndex.inRange x y (tileMatrixLimits tm) = true ->
  0 <= minTileCol (tileMatrixLimits tm) ->
  0 <= minTileRow (tileMatrixLimits tm) ->
  aggregationCoefficient tm = -1 \/ 0 <= aggregationCoefficient tm ->
  exists index,
    ComtIndex.calculateIndexOffsetForTile tms z x y = Ok (3 * index, index)
    /\ Spec.tilesBelow z (tileMatrix tms) <= index
       < Spec.tilesBelow z (tileMatrix tms) + Spec.numTiles tm.
Proof.
  intros Hz Hin Hc Hr Hagg.
  destruct (calculateIndexOffsetForTile_index tms z tm x y Hz Hin Hc Hr) as (k & Hk & ->).
  eexists. split; [reflexivity|].
  assert (0 <= Spec.offsetInZoom tm x y < 3 * Spec.numTiles tm) as R.
  { destruct Hagg as [Hagg|Hagg].
    - by apply offsetInZoom_pyramid_range.
    - by apply offsetInZoom_range. }
  lia.
Qed.

(** X6. [calculateIndexOffsetForTile] gives two tiles inside the limits of a
    zoom the same index only if they are the same tile, in a pyramid zoom and
    in a fragmented zoom alike (same tile matrix set as in X5). *)
Theorem calculateIndexOffsetForTile_injective tms z tm x y x' y' :
  Spec.onlyZoom tms z tm ->
  ComtIndex.inRange x y (tileMatrixLimits tm) = true ->
  ComtIndex.inRange x' y' (tileMatrixLimits tm) = true ->
  0 <= minTileCol (tileMatrixLimits tm) ->
  0 <= minTileRow (tileMatrixLimits tm) ->
  aggregationCoefficient tm = -1 \/ 0 <= aggregationCoefficient tm ->
  exists index index',
    ComtIndex.calculateIndexOffsetForTile tms z x y = Ok (3 * index, index)
    /\ ComtIndex.calculateIndexOffsetForTile tms z x' y' = Ok (3 * index', index')
    /\ (index = index' -> x = x' /\ y = y').
Proof.
  intros Hz Hin Hin' Hc Hr Hagg.
  destruct (calculateIndexOffsetForTile_index tms z tm x y Hz Hin Hc Hr) as (k & Hk & ->).
  destruct (calculateIndexOffsetForTile_index tms z tm x' y' Hz Hin' Hc Hr)
    as (k' & Hk' & ->).
  do 2 eexists. split; [reflexivity|]. split; [reflexivity|]. intros E.
  assert (Spec.offsetInZoom tm x y = Spec.offsetInZoom tm x' y') as Eo by lia.
  destruct Hagg as [Hagg|Hagg].
  - destruct (rowMajor_trichotomy x y x' y') as [Hlt|[Heq|Hlt]]; [|exact Heq|].
    + pose proof (offsetInZoom_pyramid_lt tm x y x' y' Hagg Hin Hin' Hlt). lia.
    + pose proof (offsetInZoom_pyramid_lt tm x' y' x y Hagg Hin' Hin Hlt). lia.
  - destruct (fragmentOrder_trichotomy (2 ^ aggregationCoefficient tm) x y x' y')
      as [Hlt|[Heq|Hlt]]; [|exact Heq|].
    + pose proof (offsetInZoom_lt tm Hagg x y x' y' Hin Hin' Hlt). lia.
    + pose proof (offsetInZoom_lt tm Hagg x' y' x y Hin' Hin Hlt). lia.
Qed.

(** X7. In a fragmented zoom the index of [calculateIndexOffsetForTile]
    follows the fragments: a tile gets a smaller index than another one if
    its fragment cell lies in a lower row of cells, or in the same row of
    cells further left, or if both are in the same cell and the tile comes
    first in the row-major order of the cell. *)
Theorem calculateIndexOffsetForTile_fragment_order tms z tm x y x' y' :
  Spec.onlyZoom tms z tm ->
  ComtIndex.inRange x y (tileMatrixLimits tm) = true ->
  ComtIndex.inRange x' y' (tileMatrixLimits tm) = true ->
  0 <= minTileCol (tileMatrixLimits tm) ->
  0 <= minTileRow (tileMatrixLimits tm) ->
  0 <= aggregationCoefficient tm ->
  Spec.fragmentOrderLt (2 ^ aggregationCoefficient tm) x y x' y' ->
  exists index index',
    ComtIndex.calculateIndexOffsetForTile tms z x y = Ok (3 * index, index)
    /\ ComtIndex.calculateIndexOffsetForTile tms z x' y' = Ok (3 * index', index')
    /\ index < index'.
Proof.
  intros Hz Hin Hin' Hc Hr Hagg Hlt.
  destruct (calculateIndexOffsetForTile_index tms z tm x y Hz Hin Hc Hr) as (k & Hk & ->).
  destruct (calculateIndexOffsetForTile_index tms z tm x' y' Hz Hin' Hc Hr)
    as (k' & Hk' & ->).
  do 2 eexists. split; [reflexivity|]. split; [reflexivity|].
  pose proof (offsetInZoom_lt tm Hagg x y x' y' Hin Hin' Hlt). lia.
Qed.

Lemma calculateIndexOffsetForTile_slot_witness :
  exists index,
    ComtIndex.calculateIndexOffsetForTile Fixture.mixed 4 9 4 = Ok (3 * index, index)
    /\ Spec.tilesBelow 4 (tileMatrix Fixture.mixed) <= index
       < Spec.tilesBelow 4 (tileMatrix Fixture.mixed)
         + Spec.numTiles (Fixture.matrix 4 3 (Fixture.limits 3 2 13 11)).
Proof.
  apply (calculateIndexOffsetForTile_slot Fixture.mixed 4
           (Fixture.matrix 4 3 (Fixture.limits 3 2 13 11)) 9 4).
  - reflexivity.
  - reflexivity.
  - simpl. lia.
  - simpl. lia.
  - right. simpl. lia.
Defined.

Lemma calculateIndexOffsetForTile_fragment_order_witness :
  exists index index',
    ComtIndex.calculateIndexOffsetForTile Fixture.mixed 4 7 7 = Ok (3 * index, index)
    /\ ComtIndex.calculateIndexOffsetForTile Fixture.mixed 4 8 2 = Ok (3 * index', index')
    /\ index < index'.
Proof.
  apply (calculateIndexOffsetForTile_fragment_order Fixture.mixed 4
           (Fixture.matrix 4 3 (Fixture.limits 3 2 13 11)) 7 7 8 2).
  - reflexivity.
  - reflexivity.
  - reflexivity.
  - simpl. lia.
  - simpl. lia.
  - simpl. lia.
  - right. left. split; [reflexivity|]. simpl. reflexivity.
Defined.

(** ** Fragment bounds and fragment ranges *)

Lemma div_in_cell F q v : 0 < F -> q * F <= v < q * F + F -> v / F = q.
Proof. intros HF H. symmetry. apply (Z.div_unique v F q (v - q * F)); lia. Qed.

(** X8. The sparse bounds that [calculateBounds] returns for a tile inside
    limits that are not negative contain the tile, lie inside the limits,
    are at most [2^c] tiles wide and high, and lie in the fragment cell of
    the tile (all four corners have the cell coordinates [⌊x/2^c⌋] and
    [⌊y/2^c⌋]). *)
Theorem calculateBounds_contains_tile c limit x y :
  ComtIndex.inRange x y limit = true ->
  0 <= minTileCol limit -> 0 <= minTileRow limit ->
  0 <= c ->
  let sfb := ComtIndex.calculateBounds c limit (Some x) (Some y) in
  ComtIndex.inRange x y sfb = true
  /\ minTileCol limit <= minTileCol sfb /\ maxTileCol sfb <= maxTileCol limit
  /\ minTileRow limit <= minTileRow sfb /\ maxTileRow sfb <= maxTileRow limit
  /\ maxTileCol sfb - minTileCol sfb + 1 <= 2 ^ c
  /\ maxTileRow sfb - minTileRow sfb + 1 <= 2 ^ c
  /\ minTileCol sfb / 2 ^ c = x / 2 ^ c /\ maxTileCol sfb / 2 ^ c = x / 2 ^ c
  /\ minTileRow sfb / 2 ^ c = y / 2 ^ c /\ maxTileRow sfb / 2 ^ c = y / 2 ^ c.
Proof.
  intros Hin Hc Hr Hagg sfb. subst sfb.
  rewrite calculateBounds_sparse by done.
  pose proof (sparseBounds_contains
                {| zoom := 0; aggregationCoefficient := c; tileMatrixLimits := limit |}
                Hagg x y Hin) as H.
  unfold Spec.sparseBounds in H. cbn [aggregationCoefficient tileMatrixLimits] in H.
  cbv zeta in H. destruct H as ((? & ?) & (? & ?) & ? & ?).
  set (sfb := Spec.intersect (Spec.denseBounds (2 ^ c) x y) limit) in *.
  assert (0 < 2 ^ c) as HF by (apply Z.pow_pos_nonneg; lia).
  pose proof (cell_bounds (2 ^ c) x HF). pose proof (cell_bounds (2 ^ c) y HF).
  assert (x / 2 ^ c * 2 ^ c <= minTileCol sfb /\ maxTileCol sfb < x / 2 ^ c * 2 ^ c + 2 ^ c
          /\ y / 2 ^ c * 2 ^ c <= minTileRow sfb /\ maxTileRow sfb < y / 2 ^ c * 2 ^ c + 2 ^ c)
    as (? & ? & ? & ?).
  { unfold sfb, Spec.intersect, Spec.denseBounds.
    cbn [minTileCol maxTileCol minTileRow maxTileRow]. lia. }
  split; [apply inRange_spec; lia|].
  repeat (split; [lia|]).
  repeat split; apply div_in_cell; lia.
Qed.






Lemma div_sub_aligned F a x : 0 < F -> a mod F = 0 -> (x - a) / F = x / F - a / F.
Proof.
  intros HF Ha. pose proof (Z.div_mod a F ltac:(lia)) as E. rewrite Ha in E.
  replace (x - a) with (x + (- (a / F)) * F) by lia.
  rewrite Z.div_add by lia. lia.
Qed.

Lemma fragmentRangeStep_lower_eq z x y x' y' m p st ts :
  zoom ts < z ->
  ComtIndex.fragmentRangeStep z x y m p st ts
  = ComtIndex.fragmentRangeStep z x' y' m p st ts.
Proof.
  intros H. unfold ComtIndex.fragmentRangeStep.
  destruct (Z.eqb_spec (zoom ts) z); [lia|].
  destruct (Z.ltb_spec (zoom ts) z); [|lia].
  reflexivity.
Qed.

Lemma calculateBounds_same_cell c limit x y x' y' :
  ComtIndex.inRange x y limit = true -> ComtIndex.inRange x' y' limit = true ->
  0 <= minTileCol limit -> 0 <= minTileRow limit ->
  x / 2 ^ c = x' / 2 ^ c -> y / 2 ^ c = y' / 2 ^ c ->
  ComtIndex.calculateBounds c limit (Some x) (Some y)
  = ComtIndex.calculateBounds c limit (Some x') (Some y').
Proof.
  intros Hin Hin' Hc Hr Hx Hy. rewrite !calculateBounds_sparse by done.
  unfold Spec.denseBounds. rewrite Hx, Hy. reflexivity.
Qed.

(** X10. Fragment locality: when the limits of a fragmented zoom start on a
    fragment boundary ([minTileCol] and [minTileRow] are multiples of
    [2^c]), two tiles inside the limits that lie in the same fragment cell
    get the same range from [getFragmentRangeForTile]. *)
Theorem getFragmentRangeForTile_same_fragment tms z tm x y x' y' m p :
  Spec.onlyZoom tms z tm ->
  ComtIndex.inRange x y (tileMatrixLimits tm) = true ->
  ComtIndex.inRange x' y' (tileMatrixLimits tm) = true ->
  0 <= minTileCol (tileMatrixLimits tm) ->
  0 <= minTileRow (tileMatrixLimits tm) ->
  0 <= aggregationCoefficient tm ->
  minTileCol (tileMatrixLimits tm) mod 2 ^ aggregationCoefficient tm = 0 ->
  minTileRow (tileMatrixLimits tm) mod 2 ^ aggregationCoefficient tm = 0 ->
  x / 2 ^ aggregationCoefficient tm = x' / 2 ^ aggregationCoefficient tm ->
  y / 2 ^ aggregationCoefficient tm = y' / 2 ^ aggregationCoefficient tm ->
  exists range,
    ComtIndex.getFragmentRangeForTile tms z x y m p = Ok range
    /\ ComtIndex.getFragmentRangeForTile tms z x' y' m p = Ok range.
Proof.
  intros Hz Hin Hin' Hc Hr Hagg Hac Har Hx Hy.
  assert (ComtIndex.getFragmentRangeForTile tms z x y m p
          = ComtIndex.getFragmentRangeForTile tms z x' y' m p) as E.
  { unfold ComtIndex.getFragmentRangeForTile. apply forEach_ext.
    intros t st Ht. apply list_elem_of_filter in Ht as [[_ Hle] Ht].
    destruct (decide (zoom t = z)) as [Heq|Hne].
    - assert (t ∈ filter (fun t => zoom t = z) (tileMatrix tms)) as Hf
        by (apply list_elem_of_filter; done).
      rewrite Hz in Hf. apply list_elem_of_singleton in Hf. subst t z.
      rewrite !fragmentRangeStep_at, Hin, Hin'.
      rewrite (calculateBounds_same_cell _ _ x y x' y') by done.
      assert (0 < 2 ^ aggregationCoefficient tm) as HF by (apply Z.pow_pos_nonneg; lia).
      unfold ComtIndex.calculateNumberOfFragmentsBefore, JS.floorDiv, JS.pow2.
      rewrite !div_sub_aligned by done. rewrite Hx, Hy. reflexivity.
    - apply fragmentRangeStep_lower_eq. lia. }
  pose proof (fragmentRange_fold_isOk z x y m p (tileMatrix tms) tm
                {| fragmentIndex := 0; startOffset := 0; endOffset := 0 |} Hz) as Hok.
  rewrite Hin, orb_true_r in Hok. rewrite <- E.
  unfold ComtIndex.getFragmentRangeForTile.
  destruct (forEach _ _ _) as [range|]; [|done]. exists range. done.
Qed.

Lemma getFragmentRangeForTile_same_fragment_witness :
  exists range,
    ComtIndex.getFragmentRangeForTile (tileMatrixSet Fixture.deep) 8 0 0 26 30 = Ok range
    /\ ComtIndex.getFragmentRangeForTile (tileMatrixSet Fixture.deep) 8 1 0 26 30 = Ok range.
Proof.
  apply (getFragmentRangeForTile_same_fragment (tileMatrixSet Fixture.deep) 8
           (Fixture.matrix 8 6 (Fixture.limits 0 0 1 0)) 0 0 1 0 26 30);
    reflexivity || (simpl; lia).
Defined.

(** ** The header of a written archive *)

Lemma getUint8_take_in (N : nat) (b : Buffer) off :
  off < Z.of_nat N -> DataView.getUint8 (take N b) off = DataView.getUint8 b off.
Proof.
  intros H. unfold DataView.getUint8. destruct (Z.ltb_spec off 0); [reflexivity|].
  rewrite lookup_take_lt by lia. reflexivity.
Qed.

Lemma getUint32LE_take_in (N : nat) (b : Buffer) off :
  off + 4 <= Z.of_nat N ->
  DataView.getUint32LE (take N b) off = DataView.getUint32LE b off.
Proof.
  intros H. unfold DataView.getUint32LE. rewrite !getUint8_take_in by lia. reflexivity.
Qed.

Lemma slice_take_in (N : nat) (b : Buffer) s e :
  0 <= s -> e <= Z.of_nat N -> slice (take N b) s e = slice b s e.
Proof.
  intros Hs He. unfold slice. rewrite skipn_firstn_comm, take_take. f_equal. lia.
Qed.

Lemma getUint32LE_le4 (pre rest : Buffer) v :
  0 <= v < 2 ^ 32 ->
  DataView.getUint32LE (pre ++ NodeBuffer.le 4 v ++ rest) (Z.of_nat (length pre)) = Ok v.
Proof.
  intros Hv. unfold DataView.getUint32LE. cbn [NodeBuffer.le app].
  rewrite getUint8_app. cbn [mbind result_bind].
  replace (Z.of_nat (length pre) + 1) with (Z.of_nat (length (pre ++ [v mod 256])))
    by (rewrite length_app; cbn [length]; lia).
  rewrite (cons_middle (v mod 256)), app_assoc, getUint8_app. cbn [mbind result_bind].
  replace (Z.of_nat (length pre) + 2)
    with (Z.of_nat (length ((pre ++ [v mod 256]) ++ [v / 256 mod 256])))
    by (rewrite !length_app; cbn [length]; lia).
  rewrite (cons_middle (v / 256 mod 256)), app_assoc, getUint8_app. cbn [mbind result_bind].
  replace (Z.of_nat (length pre) + 3)
    with (Z.of_nat (length (((pre ++ [v mod 256]) ++ [v / 256 mod 256])
                              ++ [v / 256 / 256 mod 256])))
    by (rewrite !length_app; cbn [length]; lia).
  rewrite (cons_middle (v / 256 / 256 mod 256)), app_assoc, getUint8_app.
  cbn [mbind result_bind]. f_equal.
  pose proof (leValue_le 4 v ltac:(lia)) as E. cbn [NodeBuffer.le leValue] in E. lia.
Qed.

Lemma le8_low v : 0 <= v < 2 ^ 32 -> NodeBuffer.le 8 v = NodeBuffer.le 4 v ++ [0; 0; 0; 0].
Proof.
  intros Hv. change 8%nat with (4 + 4)%nat. cbn [NodeBuffer.le Nat.add app].
  do 4 f_equal.
  replace (v / 256 / 256 / 256 / 256) with 0; [reflexivity|].
  rewrite !Z.div_div by lia. symmetry. apply Z.div_small. lia.
Qed.

(** The header that [loadHeader] builds from the first chunk of an archive
    laid out as the writer lays it out. *)
Lemma headerOfBuffer_layout JSON_parse (N : nat) (magic metadataBytes pyramid rest : Buffer)
  fragmentLength metadata :
  length magic = 4%nat ->
  0 <= fragmentLength < 2 ^ 32 ->
  Z.of_nat (length metadataBytes) < 2 ^ 32 ->
  Z.of_nat (length pyramid) < 2 ^ 32 ->
  24 + Z.of_nat (length metadataBytes) + Z.of_nat (length pyramid) <= Z.of_nat N ->
  JSON_parse metadataBytes = Ok metadata ->
  validateMetadata metadata
    ((INITIAL_CHUNK_SIZE - (24 + Z.of_nat (length metadataBytes))) / 3) = Ok tt ->
  headerOfBuffer JSON_parse
    (take N ((magic ++ NodeBuffer.le 4 1 ++ NodeBuffer.le 4 (Z.of_nat (length metadataBytes)))
             ++ NodeBuffer.le 4 (Z.of_nat (length pyramid))
             ++ NodeBuffer.le 8 fragmentLength
             ++ metadataBytes ++ pyramid ++ rest))
  = Ok {| indexOffset := 24 + Z.of_nat (length metadataBytes);
          pyramidIndexLength := Z.of_nat (length pyramid);
          fragmentIndexLength := fragmentLength;
          dataOffset := 24 + Z.of_nat (length metadataBytes)
                        + Z.of_nat (length pyramid) + fragmentLength;
          metadata := metadata;
          partialIndex := pyramid |}.
Proof.
  intros Hm Hf Hj Hp HN Hparse Hvalid.
  set (ml := Z.of_nat (length metadataBytes)) in *.
  set (pl := Z.of_nat (length pyramid)) in *.
  unfold headerOfBuffer.
  rewrite !getUint32LE_take_in by lia.
  set (archive := (magic ++ _ ++ _) ++ _).
  assert (DataView.getUint32LE archive 4 = Ok 1) as ->.
  { subst archive. rewrite <- !app_assoc.
    replace 4 with (Z.of_nat (length magic)) by lia.
    apply getUint32LE_le4. lia. }
  assert (DataView.getUint32LE archive 8 = Ok ml) as ->.
  { subst archive. rewrite <- !app_assoc. rewrite (app_assoc magic).
    replace 8 with (Z.of_nat (length (magic ++ NodeBuffer.le 4 1)))
      by (rewrite length_app, length_le; lia).
    apply getUint32LE_le4. subst ml. lia. }
  assert (DataView.getUint32LE archive 12 = Ok pl) as ->.
  { subst archive.
    replace 12 with (Z.of_nat (length (magic ++ NodeBuffer.le 4 1 ++ NodeBuffer.le 4 ml)))
      by (rewrite !length_app, !length_le; lia).
    apply getUint32LE_le4. subst pl. lia. }
  assert (DataView.getUint32LE archive 16 = Ok fragmentLength) as ->.
  { subst archive. rewrite le8_low by done. rewrite <- (app_assoc (NodeBuffer.le 4 _) [0;0;0;0]).
    rewrite (app_assoc (magic ++ _)).
    replace 16 with (Z.of_nat (length ((magic ++ NodeBuffer.le 4 1 ++ NodeBuffer.le 4 ml)
                                         ++ NodeBuffer.le 4 pl)))
      by (rewrite !length_app, !length_le; lia).
    apply getUint32LE_le4. lia. }
  cbn [mbind result_bind negb]. change (1 =? SUPPORTED_VERSION) with true. cbn [negb].
  unfold METADATA_OFFSET_INDEX, JS.floorDiv, INDEX_ENTRY_NUM_BYTES.
  rewrite !slice_take_in by lia.
  assert (slice archive 24 (24 + ml) = metadataBytes) as ->.
  { subst archive. rewrite <- !app_assoc.
    rewrite (app_assoc magic), (app_assoc (magic ++ _)), (app_assoc ((magic ++ _) ++ _)),
      (app_assoc (((magic ++ _) ++ _) ++ _)).
    apply slice_middle; [|reflexivity].
    rewrite !length_app, !length_le. lia. }
  rewrite Hparse. cbn [mbind result_bind]. rewrite Hvalid. cbn [mbind result_bind].
  assert (slice archive (24 + ml) (24 + ml + pl) = pyramid) as ->.
  { subst archive. rewrite <- !app_assoc.
    rewrite (app_assoc magic), (app_assoc (magic ++ _)), (app_assoc ((magic ++ _) ++ _)),
      (app_assoc (((magic ++ _) ++ _) ++ _)),
      (app_assoc ((((magic ++ _) ++ _) ++ _) ++ _)).
    apply slice_middle; [|reflexivity].
    rewrite !length_app, !length_le. subst ml. lia. }
  reflexivity.
Qed.

Lemma utf8CodePoint_length c :
  (1 <= length (NodeBuffer.utf8CodePoint c))%nat
  /\ (length (NodeBuffer.utf8CodePoint c) = 1%nat -> c < 128).
Proof.
  unfold NodeBuffer.utf8CodePoint.
  destruct (Z.ltb_spec c 128); [cbn [length]; split; lia|].
  destruct (Z.ltb_spec c 2048); [cbn [length]; split; lia|].
  destruct (Z.ltb_spec c 65536); cbn [length]; split; lia.
Qed.

(** The UTF-8 encoding of a text has at least as many bytes as the text has
    code units, and as many only if every code unit is below 128. *)
Lemma utf8_length_le (n : nat) (s : CodeUnits) :
  (length s <= n)%nat ->
  (length s <= length (NodeBuffer.utf8 s))%nat
  /\ (length (NodeBuffer.utf8 s) = length s -> Forall (fun u => u < 128) s).
Proof.
  revert s. induction n as [|n IH]; intros s Hn.
  - destruct s; [|cbn [length] in Hn; lia]. split; [done|]. constructor.
  - destruct s as [|u rest]; [split; [done|constructor]|].
    cbn [length] in Hn.
    destruct (IH rest ltac:(lia)) as [Hle Heq].
    cbn [NodeBuffer.utf8].
    destruct (NodeBuffer.isHighSurrogate u) eqn:Eh.
    + destruct rest as [|v rest'].
      * cbn [NodeBuffer.replacement length]. split; lia.
      * destruct (NodeBuffer.isLowSurrogate v) eqn:El.
        -- cbn [length] in Hn. destruct (IH rest' ltac:(lia)) as [Hle' _].
           unfold NodeBuffer.isHighSurrogate in Eh. unfold NodeBuffer.isLowSurrogate in El.
           unfold NodeBuffer.utf8CodePoint.
           destruct (Z.ltb_spec (65536 + (u - 55296) * 1024 + (v - 56320)) 128); [lia|].
           destruct (Z.ltb_spec (65536 + (u - 55296) * 1024 + (v - 56320)) 2048); [lia|].
           destruct (Z.ltb_spec (65536 + (u - 55296) * 1024 + (v - 56320)) 65536); [lia|].
           cbn [length app]. split; lia.
        -- rewrite length_app. cbn [NodeBuffer.replacement length] in *. split; lia.
    + destruct (NodeBuffer.isLowSurrogate u) eqn:El.
      * rewrite length_app. cbn [NodeBuffer.replacement length]. split; lia.
      * rewrite length_app. cbn [length].
        destruct (utf8CodePoint_length u) as [H1 H2].
        split; [lia|]. intros E. constructor; [apply H2; lia|apply Heq; lia].
Qed.

Lemma utf8_below_128 (s : CodeUnits) :
  Forall (fun u => u < 128) s -> NodeBuffer.utf8 s = s.
Proof.
  induction 1 as [|u s Hu _ IH]; [reflexivity|].
  cbn [NodeBuffer.utf8].
  unfold NodeBuffer.isHighSurrogate, NodeBuffer.isLowSurrogate, NodeBuffer.utf8CodePoint.
  destruct (Z.leb_spec 55296 u); [lia|]. destruct (Z.leb_spec 56320 u); [lia|].
  destruct (Z.ltb_spec u 128); [|lia]. cbn [andb app]. by rewrite IH.
Qed.

(** A text of ASCII characters is its own UTF-8 encoding. *)
Lemma utf8_ascii (s : CodeUnits) :
  Forall (fun u => 0 <= u < 128) s -> NodeBuffer.utf8 s = s.
Proof.
  intros H. apply utf8_below_128. eapply Forall_impl; [exact H|]. cbn. lia.
Qed.

Lemma writeHeader_length (metadataByteLength : Z) stream :
  Converter.writeHeader [] metadataByteLength = Ok stream ->
  0 <= metadataByteLength < 2 ^ 32.
Proof.
  unfold Converter.writeHeader. intros H.
  change (NodeBuffer.writeUInt32LE Converter.VERSION) with (Ok (NodeBuffer.le 4 1)) in H.
  cbn [mbind result_bind] in H.
  destruct (NodeBuffer.writeUInt32LE metadataByteLength) as [b|e] eqn:E; [|done].
  by apply writeUInt32LE_ok in E as [_ ?].
Qed.

Lemma createComTileArchive_nonempty zlibSync metadata (metadataJson : CodeUnits) sizes
  (payloads : list Buffer) pyramidMaxZoom archive :
  Converter.createComTileArchive zlibSync metadata metadataJson sizes payloads
    pyramidMaxZoom = Ok archive ->
  exists x url, archive = x :: url.
Proof.
  intros H. apply createComTileArchive_ok in H as (? & ? & ? & _ & _ & -> & _).
  cbn [Converter.MAGIC app]. eauto.
Qed.

Lemma loadHeader_nonempty JSON_parse (url : Buffer) :
  url <> [] ->
  loadHeader JSON_parse url
  = headerOfBuffer JSON_parse (take (Z.to_nat INITIAL_CHUNK_SIZE) url).
Proof. destruct url as [|x url]; [done|]. intros _. apply loadHeader_eq. Qed.

Lemma chunk_size_Z : Z.of_nat (Z.to_nat INITIAL_CHUNK_SIZE) = INITIAL_CHUNK_SIZE.
Proof. apply Z2Nat.id. unfold INITIAL_CHUNK_SIZE. lia. Qed.

(** The header that the reader loads from an archive the writer wrote. *)
Lemma loadHeader_written zlibSync JSON_parse writerMetadata
  (metadataJson : CodeUnits) sizes (payloads : list Buffer) pyramidMaxZoom archive
  metadata :
  Converter.createComTileArchive zlibSync writerMetadata metadataJson sizes payloads
    pyramidMaxZoom = Ok archive ->
  Forall (fun u => 0 <= u < 128) metadataJson ->
  JSON_parse (NodeBuffer.utf8 metadataJson) = Ok metadata ->
  validateMetadata metadata
    ((INITIAL_CHUNK_SIZE - (24 + Z.of_nat (length metadataJson))) / 3) = Ok tt ->
  24 + Z.of_nat (length metadataJson) + leValue (slice archive 12 16)
  <= INITIAL_CHUNK_SIZE ->
  leValue (slice archive 16 24) < 2 ^ 32 ->
  exists placeholder r,
    Converter.writeHeader [] (Z.of_nat (length metadataJson)) = Ok placeholder
    /\ Converter.writeIndex zlibSync (placeholder ++ NodeBuffer.utf8 metadataJson)
         sizes writerMetadata pyramidMaxZoom = Ok r
    /\ loadHeader JSON_parse archive
       = Ok {| indexOffset := 24 + Z.of_nat (length metadataJson);
               pyramidIndexLength := Converter.pyramidSectionLength r;
               fragmentIndexLength := Converter.fragmentSectionLength r;
               dataOffset := 24 + Z.of_nat (length metadataJson)
                             + Converter.pyramidSectionLength r
                             + Converter.fragmentSectionLength r;
               metadata := metadata;
               partialIndex :=
                 zlibSync (concat (NodeBuffer.le 3 <$> Converter.s_logStreamPyramid r)) |}.
Proof.
  intros Hw Hascii Hparse Hvalid Hchunk Hfrag.
  destruct (createComTileArchive_ok _ _ _ _ _ _ _ Hw)
    as (placeholder & r & frag & Hh & Hi & Ha & Hp & Hf & _ & Hpr & Hfr & _).
  cbv zeta in Ha, Hp.
  set (comp := zlibSync _) in *.
  exists placeholder, r. split; [exact Hh|]. split; [exact Hi|].
  rewrite (utf8_ascii _ Hascii) in Ha, Hparse.
  assert (slice archive 12 16 = NodeBuffer.le 4 (Converter.pyramidSectionLength r)) as E12.
  { rewrite Ha. apply slice_middle; reflexivity. }
  assert (slice archive 16 24 = NodeBuffer.le 8 (Converter.fragmentSectionLength r)) as E16.
  { rewrite Ha. rewrite (app_assoc (Converter.MAGIC ++ _)). apply slice_middle; reflexivity. }
  rewrite E12, leValue_le in Hchunk by (change (256 ^ Z.of_nat 4) with (2 ^ 32); lia).
  rewrite E16, leValue_le in Hfrag by (change (256 ^ Z.of_nat 8) with (2 ^ 64); lia).
  rewrite loadHeader_nonempty by (rewrite Ha; discriminate).
  rewrite Ha, Hp, Hf.
  rewrite Hp in Hchunk. rewrite Hf in Hfrag.
  apply headerOfBuffer_layout.
  - reflexivity.
  - lia.
  - unfold INITIAL_CHUNK_SIZE in Hchunk. lia.
  - fold comp. unfold INITIAL_CHUNK_SIZE in Hchunk. lia.
  - rewrite chunk_size_Z. exact Hchunk.
  - exact Hparse.
  - exact Hvalid.
Qed.

(** X11. The header round trip: from an archive that [createComTileArchive]
    wrote with a metadata text of ASCII characters, [loadHeader] returns the
    index offset [24 + metadata length], the two section lengths that
    [writeIndex] returned, the data offset that is their sum, the parsed
    metadata and, as the partial index, the compressed pyramid.  The metadata
    text parses and validates, the pyramid ends inside the initial chunk of
    2^19 bytes, and the fragment section is shorter than 2^32 bytes (the
    reader reads its 64-bit length as 32 bits).  The text is ASCII because
    the header holds its length in code units while the archive holds its
    UTF-8 bytes. *)
Theorem loadHeader_of_written_archive zlibSync JSON_parse writerMetadata
  (metadataJson : CodeUnits) sizes (payloads : list Buffer) pyramidMaxZoom archive
  metadata :
  Converter.createComTileArchive zlibSync writerMetadata metadataJson sizes payloads
    pyramidMaxZoom = Ok archive ->
  Forall (fun u => 0 <= u < 128) metadataJson ->
  JSON_parse (NodeBuffer.utf8 metadataJson) = Ok metadata ->
  validateMetadata metadata
    ((INITIAL_CHUNK_SIZE - (24 + Z.of_nat (length metadataJson))) / 3) = Ok tt ->
  24 + Z.of_nat (length metadataJson) + leValue (slice archive 12 16)
  <= INITIAL_CHUNK_SIZE ->
  leValue (slice archive 16 24) < 2 ^ 32 ->
  exists placeholder r,
    Converter.writeHeader [] (Z.of_nat (length metadataJson)) = Ok placeholder
    /\ Converter.writeIndex zlibSync (placeholder ++ NodeBuffer.utf8 metadataJson)
         sizes writerMetadata pyramidMaxZoom = Ok r
    /\ loadHeader JSON_parse archive
       = Ok {| indexOffset := 24 + Z.of_nat (length metadataJson);
               pyramidIndexLength := Converter.pyramidSectionLength r;
               fragmentIndexLength := Converter.fragmentSectionLength r;
               dataOffset := 24 + Z.of_nat (length metadataJson)
                             + Converter.pyramidSectionLength r
                             + Converter.fragmentSectionLength r;
               metadata := metadata;
               partialIndex :=
                 zlibSync (concat (NodeBuffer.le 3 <$> Converter.s_logStreamPyramid r)) |}.
Proof. apply loadHeader_written. Qed.

Lemma loadHeader_of_written_archive_witness :
  Converter.createComTileArchive Fixture.frame Fixture.deep Fixture.document
    Fixture.deepTiles Fixture.deepPayloads 7 = Ok Fixture.deepArchive
  /\ Forall (fun u => 0 <= u < 128) Fixture.document
  /\ exists placeholder r,
      Converter.writeHeader [] (Z.of_nat (length Fixture.document)) = Ok placeholder
      /\ Converter.writeIndex Fixture.frame
           (placeholder ++ NodeBuffer.utf8 Fixture.document)
           Fixture.deepTiles Fixture.deep 7 = Ok r
      /\ loadHeader Fixture.parse Fixture.deepArchive
         = Ok {| indexOffset := 24 + Z.of_nat (length Fixture.document);
                 pyramidIndexLength := Converter.pyramidSectionLength r;
                 fragmentIndexLength := Converter.fragmentSectionLength r;
                 dataOffset := 24 + Z.of_nat (length Fixture.document)
                               + Converter.pyramidSectionLength r
                               + Converter.fragmentSectionLength r;
                 metadata := Fixture.deep;
                 partialIndex :=
                   Fixture.frame
                     (concat (NodeBuffer.le 3 <$> Converter.s_logStreamPyramid r)) |}.
Proof.
  assert (Converter.createComTileArchive Fixture.frame Fixture.deep Fixture.document
            Fixture.deepTiles Fixture.deepPayloads 7 = Ok Fixture.deepArchive) as Hw
    by (vm_compute; reflexivity).
  assert (Forall (fun u => 0 <= u < 128) Fixture.document) as Hascii
    by (repeat constructor; lia).
  split; [exact Hw|]. split; [exact Hascii|].
  apply (loadHeader_of_written_archive Fixture.frame Fixture.parse Fixture.deep
           Fixture.document Fixture.deepTiles Fixture.deepPayloads 7
           Fixture.deepArchive Fixture.deep Hw Hascii).
  - reflexivity.
  - vm_compute. reflexivity.
  - apply Z.leb_le. vm_compute. reflexivity.
  - apply Z.ltb_lt. vm_compute. reflexivity.
Defined.

(** X26. The metadata length in the header of a written archive is the
    number of UTF-16 code units of the metadata text ([metadataJson.length]),
    while the metadata section that follows the header holds the UTF-8 bytes
    of the text.  The header value is never larger than the section, and
    equal to its length exactly when every code unit of the text is below 128
    (ASCII). *)
Theorem metadata_length_in_code_units zlibSync metadata (metadataJson : CodeUnits)
  sizes (payloads : list Buffer) pyramidMaxZoom archive :
  Converter.createComTileArchive zlibSync metadata metadataJson sizes payloads
    pyramidMaxZoom = Ok archive ->
  let text := NodeBuffer.utf8 metadataJson in
  leValue (slice archive 8 12) = Z.of_nat (length metadataJson)
  /\ slice archive 24 (24 + Z.of_nat (length text)) = text
  /\ Z.of_nat (length metadataJson) <= Z.of_nat (length text)
  /\ (Z.of_nat (length metadataJson) = Z.of_nat (length text)
      <-> Forall (fun u => u < 128) metadataJson).
Proof.
  intros Hw text.
  destruct (createComTileArchive_ok _ _ _ _ _ _ _ Hw)
    as (placeholder & r & frag & Hh & _ & Ha & _).
  cbv zeta in Ha. fold text in Ha.
  apply writeHeader_length in Hh.
  destruct (utf8_length_le (length metadataJson) metadataJson ltac:(lia)) as [Hle Heq].
  fold text in Hle, Heq.
  split; [|split; [|split; [lia|split]]].
  - rewrite Ha. rewrite <- (app_assoc Converter.MAGIC), <- (app_assoc (NodeBuffer.le 4 1)).
    rewrite (app_assoc Converter.MAGIC).
    rewrite slice_middle with (mid := NodeBuffer.le 4 (Z.of_nat (length metadataJson)))
      by (rewrite ?length_app, ?length_le; reflexivity).
    apply leValue_le. change (256 ^ Z.of_nat 4) with (2 ^ 32). lia.
  - rewrite Ha.
    rewrite (app_assoc (Converter.MAGIC ++ _)), (app_assoc ((Converter.MAGIC ++ _) ++ _)).
    apply slice_middle; [|reflexivity].
    rewrite !length_app, !length_le. reflexivity.
  - intros E. apply Heq. lia.
  - intros Hall. subst text. by rewrite utf8_below_128.
Qed.

Lemma metadata_length_in_code_units_witness :
  Converter.createComTileArchive Fixture.frame Fixture.deep Fixture.umlautDocument
    Fixture.deepTiles Fixture.deepPayloads 7 = Ok Fixture.umlautArchive
  /\ let text := NodeBuffer.utf8 Fixture.umlautDocument in
     leValue (slice Fixture.umlautArchive 8 12)
     = Z.of_nat (length Fixture.umlautDocument)
     /\ slice Fixture.umlautArchive 24 (24 + Z.of_nat (length text)) = text
     /\ Z.of_nat (length Fixture.umlautDocument) <= Z.of_nat (length text)
     /\ (Z.of_nat (length Fixture.umlautDocument) = Z.of_nat (length text)
         <-> Forall (fun u => u < 128) Fixture.umlautDocument).
Proof.
  assert (Converter.createComTileArchive Fixture.frame Fixture.deep
            Fixture.umlautDocument Fixture.deepTiles Fixture.deepPayloads 7
          = Ok Fixture.umlautArchive) as Hw by (vm_compute; reflexivity).
  split; [exact Hw|].
  exact (metadata_length_in_code_units Fixture.frame Fixture.deep
           Fixture.umlautDocument Fixture.deepTiles Fixture.deepPayloads 7
           Fixture.umlautArchive Hw).
Defined.

(** The reader on that archive: it cuts the metadata after three of its four
    bytes, and the parser, which accepts the whole text, refuses the rest. *)
Example loadHeader_of_umlautArchive :
  Fixture.parseUmlaut (NodeBuffer.utf8 Fixture.umlautDocument) = Ok Fixture.deep
  /\ loadHeader Fixture.parseUmlaut Fixture.umlautArchive
     = Throw (Error "Unexpected token in JSON").
Proof. split; vm_compute; reflexivity. Qed.

Lemma length_concat_take (payloads : list Buffer) (i : nat) :
  Z.of_nat (length (concat (take i payloads)))
  = sumZ ((fun p : Buffer => Z.of_nat (length p)) <$> take i payloads).
Proof.
  generalize (take i payloads). intros l.
  induction l as [|p l IH]; [reflexivity|].
  cbn [concat fmap list_fmap]. rewrite length_app. unfold sumZ in *. cbn [foldr].
  fold (fmap (M:=list) (fun p : Buffer => Z.of_nat (length p)) l). lia.
Qed.

(** Where the writer puts a payload. *)
Lemma payload_slice zlibSync metadata (metadataJson : CodeUnits) sizes
  (payloads : list Buffer) pyramidMaxZoom archive (i : nat) (payload : Buffer) :
  Converter.createComTileArchive zlibSync metadata metadataJson sizes payloads
    pyramidMaxZoom = Ok archive ->
  payloads !! i = Some payload ->
  let dataOffset :=
    24 + Z.of_nat (length (NodeBuffer.utf8 metadataJson))
    + leValue (slice archive 12 16) + leValue (slice archive 16 24) in
  let offset := sumZ ((fun p : Buffer => Z.of_nat (length p)) <$> take i payloads) in
  slice archive (dataOffset + offset) (dataOffset + offset + Z.of_nat (length payload))
  = payload.
Proof.
  intros Hw Hi dataOffset offset.
  destruct (createComTileArchive_ok _ _ _ _ _ _ _ Hw)
    as (placeholder & r & frag & _ & _ & Ha & Hp & Hf & _ & Hpr & Hfr & _).
  cbv zeta in Ha, Hp. set (comp := zlibSync _) in *.
  set (text := NodeBuffer.utf8 metadataJson) in *.
  assert (slice archive 12 16 = NodeBuffer.le 4 (Converter.pyramidSectionLength r)) as E12.
  { rewrite Ha. apply slice_middle; reflexivity. }
  assert (slice archive 16 24 = NodeBuffer.le 8 (Converter.fragmentSectionLength r)) as E16.
  { rewrite Ha. rewrite (app_assoc (Converter.MAGIC ++ _)). apply slice_middle; reflexivity. }
  subst dataOffset offset.
  rewrite E12, E16, !leValue_le
    by (first [change (256 ^ Z.of_nat 4) with (2 ^ 32)
              | change (256 ^ Z.of_nat 8) with (2 ^ 64)]; lia).
  rewrite <- length_concat_take.
  rewrite <- (take_drop_middle payloads i payload Hi) in Ha.
  rewrite concat_app in Ha. cbn [concat] in Ha.
  rewrite Ha.
  rewrite (app_assoc (Converter.MAGIC ++ _)), (app_assoc ((Converter.MAGIC ++ _) ++ _)),
    (app_assoc (((Converter.MAGIC ++ _) ++ _) ++ _)),
    (app_assoc ((((Converter.MAGIC ++ _) ++ _) ++ _) ++ _)),
    (app_assoc (((((Converter.MAGIC ++ _) ++ _) ++ _) ++ _) ++ _)),
    (app_assoc ((((((Converter.MAGIC ++ _) ++ _) ++ _) ++ _) ++ _) ++ _)).
  apply slice_middle; [|reflexivity].
  rewrite !length_app, !length_le. rewrite Hp, Hf.
  change (length Converter.MAGIC) with 4%nat. lia.
Qed.

(** X12. In an archive that [createComTileArchive] wrote, the payload [i] of
    the tile stream lies at the data offset [24 + metadata length + pyramid
    length + fragment length] (the metadata length in bytes, the two other
    lengths as the header holds them) plus the lengths of the payloads before
    it. *)
Theorem payload_position zlibSync metadata (metadataJson : CodeUnits) sizes
  (payloads : list Buffer) pyramidMaxZoom archive (i : nat) (payload : Buffer) :
  Converter.createComTileArchive zlibSync metadata metadataJson sizes payloads
    pyramidMaxZoom = Ok archive ->
  payloads !! i = Some payload ->
  let dataOffset :=
    24 + Z.of_nat (length (NodeBuffer.utf8 metadataJson))
    + leValue (slice archive 12 16) + leValue (slice archive 16 24) in
  let offset := sumZ ((fun p : Buffer => Z.of_nat (length p)) <$> take i payloads) in
  slice archive (dataOffset + offset) (dataOffset + offset + Z.of_nat (length payload))
  = payload.
Proof. apply payload_slice. Qed.

Lemma payload_position_witness :
  Converter.createComTileArchive Fixture.frame Fixture.deep Fixture.document
    Fixture.deepTiles Fixture.deepPayloads 7 = Ok Fixture.deepArchive
  /\ Fixture.deepPayloads !! 8%nat = Some (replicate 10 9)
  /\ let dataOffset :=
       24 + Z.of_nat (length (NodeBuffer.utf8 Fixture.document))
       + leValue (slice Fixture.deepArchive 12 16)
       + leValue (slice Fixture.deepArchive 16 24) in
     let offset :=
       sumZ ((fun p : Buffer => Z.of_nat (length p)) <$> take 8 Fixture.deepPayloads) in
     slice Fixture.deepArchive (dataOffset + offset)
       (dataOffset + offset + Z.of_nat (length (replicate 10 9)))
     = replicate 10 9.
Proof.
  assert (Converter.createComTileArchive Fixture.frame Fixture.deep Fixture.document
            Fixture.deepTiles Fixture.deepPayloads 7 = Ok Fixture.deepArchive) as Hw
    by (vm_compute; reflexivity).
  split; [exact Hw|]. split; [reflexivity|].
  apply (payload_position Fixture.frame Fixture.deep Fixture.document
           Fixture.deepTiles Fixture.deepPayloads 7 Fixture.deepArchive 8
           (replicate 10 9) Hw).
  reflexivity.
Defined.

Lemma validateMetadata_new (metadata : Metadata) n :
  validateMetadata metadata n = Ok tt ->
  ComtIndex.new metadata = Ok (tileMatrixSet metadata).
Proof.
  unfold validateMetadata, ComtIndex.new.
  destruct (negb (bool_decide (tileFormat metadata = "pbf"%string))); [done|].
  unfold ComtIndex.supportedOrdering, ComtIndex.SUPPORTED_ORDERING, SUPPORTED_ORDERING.
  destruct (negb (forallb _ _)); [done|].
  unfold ComtIndex.Supported_TILE_MATRIX_CRS, SUPPORTED_TILE_MATRIX_CRS.
  destruct (tileMatrixCRS (tileMatrixSet metadata)) as [crs|]; [|done].
  destruct (bool_decide _); [done|]. cbn [negb]. done.
Qed.

Lemma headerOfBuffer_validated JSON_parse (buffer : Buffer) h :
  headerOfBuffer JSON_parse buffer = Ok h ->
  exists n, validateMetadata (metadata h) n = Ok tt.
Proof.
  unfold headerOfBuffer. intros H.
  destruct (DataView.getUint32LE buffer 4) as [v|]; [|done]. cbn [mbind result_bind] in H.
  destruct (negb (v =? SUPPORTED_VERSION)); [done|].
  destruct (DataView.getUint32LE buffer 8) as [ml|]; [|done]. cbn [mbind result_bind] in H.
  destruct (DataView.getUint32LE buffer 12) as [pl|]; [|done]. cbn [mbind result_bind] in H.
  destruct (DataView.getUint32LE buffer 16) as [fl|]; [|done]. cbn [mbind result_bind] in H.
  destruct (JSON_parse _) as [md|]; [|done]. cbn [mbind result_bind] in H.
  destruct (validateMetadata md _) as [[]|] eqn:E; [|done]. cbn [mbind result_bind] in H.
  injection H as <-. cbn [metadata]. eauto.
Qed.

(** [create] once [loadHeader] has returned. *)
Lemma create_loaded JSON_parse (comtUrl : Buffer) h :
  loadHeader JSON_parse comtUrl = Ok h ->
  create JSON_parse comtUrl
  = Ok {| comtUrl := comtUrl;
          header := Some h;
          indexCache :=
            Some {| ic_metadata := metadata h;
                    ic_partialIndex := partialIndex h;
                    ic_indexOffset := indexOffset h;
                    ic_pyramidIndexLength := pyramidIndexLength h;
                    ic_fragmentIndexLength := fragmentIndexLength h;
                    fragmentedIndex := ∅;
                    ic_comtIndex := tileMatrixSet (metadata h) |};
          comtIndex := Some (tileMatrixSet (metadata h)) |}.
Proof.
  intros H. unfold create. rewrite H. cbn [mbind result_bind].
  rewrite loadHeader_unfold in H.
  destruct (fetchHeader comtUrl) as [buffer|]; [|done]. cbn [mbind result_bind] in H.
  apply headerOfBuffer_validated in H as [n Hn].
  apply validateMetadata_new in Hn.
  unfold initIndex, IndexCache_new. rewrite Hn. reflexivity.
Qed.

(** X13. Once [loadHeader] has returned a header, [create] does not throw:
    the checks of the [ComtIndex] constructor are among those of
    [validateMetadata], and the cache it returns holds the header, an index
    cache without fragments over the header's partial index, and the tile
    matrix set of the metadata. *)
Theorem create_after_loadHeader JSON_parse (comtUrl : Buffer) h :
  loadHeader JSON_parse comtUrl = Ok h ->
  create JSON_parse comtUrl
  = Ok {| comtUrl := comtUrl;
          header := Some h;
          indexCache :=
            Some {| ic_metadata := metadata h;
                    ic_partialIndex := partialIndex h;
                    ic_indexOffset := indexOffset h;
                    ic_pyramidIndexLength := pyramidIndexLength h;
                    ic_fragmentIndexLength := fragmentIndexLength h;
                    fragmentedIndex := ∅;
                    ic_comtIndex := tileMatrixSet (metadata h) |};
          comtIndex := Some (tileMatrixSet (metadata h)) |}.
Proof. apply create_loaded. Qed.

Lemma create_after_loadHeader_witness :
  create Fixture.parse Fixture.deepArchive
  = Ok {| comtUrl := Fixture.deepArchive;
          header := Some Fixture.deepHeader;
          indexCache :=
            Some {| ic_metadata := metadata Fixture.deepHeader;
                    ic_partialIndex := partialIndex Fixture.deepHeader;
                    ic_indexOffset := indexOffset Fixture.deepHeader;
                    ic_pyramidIndexLength := pyramidIndexLength Fixture.deepHeader;
                    ic_fragmentIndexLength := fragmentIndexLength Fixture.deepHeader;
                    fragmentedIndex := ∅;
                    ic_comtIndex := tileMatrixSet (metadata Fixture.deepHeader) |};
          comtIndex := Some (tileMatrixSet (metadata Fixture.deepHeader)) |}.
Proof.
  apply (create_after_loadHeader Fixture.parse Fixture.deepArchive Fixture.deepHeader).
  vm_compute. reflexivity.
Defined.

(** ** The writer's loops *)

Lemma MAX_TILE_SIZE_eq : Converter.MAX_TILE_SIZE = 2 ^ 20 - 1.
Proof. reflexivity. Qed.

(** A turn of the fragment loop that does not throw wrote a size and, at
    the start of a fragment, a data offset that fit their fields. *)
Lemma fragmentLoopBody_fits comtIndex st tile st' :
  Converter.fragmentLoopBody comtIndex st tile = Ok st' ->
  0 <= TileInfo.size tile <= Converter.MAX_TILE_SIZE
  /\ (JS.gtOpt (TileInfo.fragmentIndex tile) (Converter.previousFragmentIndex st) = true ->
      0 <= Converter.dataSectionOffset st < 2 ^ 40).
Proof.
  unfold Converter.fragmentLoopBody. intros H.
  unfold Converter.validateTileSize in H.
  destruct (Z.ltb_spec Converter.MAX_TILE_SIZE (TileInfo.size tile)) as [|Hsz]; [done|].
  cbn [mbind result_bind] in H.
  set (newFragment := JS.gtOpt _ _) in *.
  assert (newFragment = true -> 0 <= Converter.dataSectionOffset st < 2 ^ 40) as Hd.
  { intros E. rewrite E in H.
    destruct (Encoder.toBytesLE (Converter.dataSectionOffset st) _) as [b|e] eqn:Eb;
      [|by cbn in H].
    apply toBytesLE_ok in Eb as (_ & _ & Hb);
      [|unfold Converter.NUM_BYTES_ABSOLUTE_OFFSET; lia].
    unfold Converter.NUM_BYTES_ABSOLUTE_OFFSET in Hb. lia. }
  split; [|exact Hd]. split; [|lia].
  destruct (if newFragment then _ else _) as [st1|]; [|done].
  cbn [mbind result_bind] in H.
  destruct (ComtIndex.calculateIndexOffsetForTile _ _ _ _) as [oi|]; [|done].
  cbn [mbind result_bind] in H.
  destruct (if 0 <? _ then _ else _) as [st2|]; [|done].
  cbn [mbind result_bind] in H.
  destruct (Encoder.toBytesLE (TileInfo.size tile) _) as [b|e] eqn:Eb; [|done].
  apply toBytesLE_ok in Eb as (_ & _ & Hb);
    [|unfold Converter.NUM_BYTES_TILE_SIZE; lia].
  lia.
Qed.

Lemma fragmentLoop_sizes comtIndex (tiles : list TileInfo.t) st st' :
  forEach (Converter.fragmentLoopBody comtIndex) tiles st = Ok st' ->
  Forall (fun t => 0 <= TileInfo.size t <= Converter.MAX_TILE_SIZE) tiles.
Proof.
  revert st. induction tiles as [|tile tiles IH]; intros st H; [constructor|].
  cbn [forEach] in H.
  destruct (Converter.fragmentLoopBody comtIndex st tile) as [st1|e] eqn:E1; [|done].
  cbn [mbind result_bind] in H. constructor.
  - by apply fragmentLoopBody_fits in E1 as [? _].
  - by eapply IH.
Qed.

(** What [writeIndex] consumed for the pyramid and what it left to the
    fragment loop. *)
Lemma writeIndex_parts zlibSync (stream : Buffer) tiles metadata pyramidMaxZoom r :
  Converter.writeIndex zlibSync stream tiles metadata pyramidMaxZoom = Ok r ->
  exists frag consumed rest,
    tiles = consumed ++ rest
    /\ Z.of_nat (length consumed)
       = Z.max 0 (Converter.calculateNumTiles
                    (filter (fun set => zoom set <= pyramidMaxZoom)
                       (tileMatrix (tileMatrixSet metadata))))
    /\ Converter.s_logStreamPyramid r = TileInfo.size <$> consumed
    /\ Forall (fun t => 0 <= TileInfo.size t <= Converter.MAX_TILE_SIZE) tiles
    /\ Converter.s_stream r
       = stream ++ zlibSync (concat (NodeBuffer.le 3 <$> Converter.s_logStreamPyramid r))
           ++ frag
    /\ Converter.pyramidSectionLength r
       = Z.of_nat (length (zlibSync (concat (NodeBuffer.le 3
                                               <$> Converter.s_logStreamPyramid r)))).
Proof.
  unfold Converter.writeIndex. intros H.
  destruct (ComtIndex.new metadata) as [comtIndex|e]; [|done].
  cbn [mbind result_bind] in H.
  set (n := Converter.calculateNumTiles _) in *.
  unfold NodeBuffer.alloc in H.
  destruct (Z.ltb_spec (n * Converter.NUM_BYTES_TILE_SIZE) 0) as [|Hn]; [done|].
  cbn [mbind result_bind] in H.
  unfold Converter.NUM_BYTES_TILE_SIZE in Hn.
  destruct (forEach Converter.pyramidLoopBody _ _) as [p|e] eqn:Ep; [|done].
  cbn [mbind result_bind] in H.
  replace n with (Z.of_nat (Z.to_nat n)) in Ep at 1 by lia.
  apply pyramidLoop_ok with (pre := []) in Ep
    as (consumed & Hit & Hlen & Hb & Hlog & Hdso & Hall); [| |done].
  2:{ cbn [Converter.indexPyramidBuffer app]. f_equal.
      unfold Converter.NUM_BYTES_TILE_SIZE. lia. }
  cbn [Converter.p_tileIterator Converter.logStreamPyramid
       Converter.p_dataSectionOffset app] in *.
  destruct (forEach (Converter.fragmentLoopBody comtIndex) _ _) as [st|e] eqn:Ef; [|done].
  cbn [mbind result_bind] in H. injection H as <-.
  pose proof (fragmentLoop_sizes _ _ _ _ Ef) as Hrest.
  apply fragmentLoop_ok in Ef as (frag & lines & S & L & N & B & D).
  cbn [Converter.fragmentLoopStart Converter.stream Converter.logStreamFragments
       Converter.indexFragmentLength Converter.dataSectionOffset app] in *.
  exists frag, consumed, (Converter.p_tileIterator p).
  cbn [Converter.s_stream Converter.s_logStreamPyramid Converter.s_logStreamFragments
       Converter.s_dataSectionOffset Converter.pyramidSectionLength
       Converter.fragmentSectionLength].
  rewrite Hlog, <- Hb, S, Hit.
  unfold Converter.writeBuffer. rewrite <- app_assoc.
  repeat split; try done; [lia|].
  apply Forall_app. done.
Qed.

(** X14. The pyramid section round trip: the bytes that [writeIndex] wrote
    for the pyramid, decompressed ([unzlibSync] undoes [zlibSync] on them)
    and read by [getIndexEntryPyramidSection] at [i], give the size of the
    [i]-th tile of the size stream and, as the offset, the sum of the sizes
    of the tiles before it, for every [i] below the number of pyramid
    entries. *)
Theorem pyramid_entry_of_written_index zlibSync unzlibSync (stream : Buffer) tiles
  metadata pyramidMaxZoom r (i : nat) :
  Converter.writeIndex zlibSync stream tiles metadata pyramidMaxZoom = Ok r ->
  (let pyramid := concat (NodeBuffer.le 3 <$> Converter.s_logStreamPyramid r) in
   unzlibSync (zlibSync pyramid) = Ok pyramid) ->
  (i < length (Converter.s_logStreamPyramid r))%nat ->
  let first := Z.of_nat (length stream) in
  let compressed := slice (Converter.s_stream r) first
                      (first + Converter.pyramidSectionLength r) in
  exists tile,
    tiles !! i = Some tile
    /\ (pyramid ← unzlibSync compressed;
        getIndexEntryPyramidSection (Z.of_nat i) pyramid)
       = Ok {| IndexEntry.offset := sumZ (TileInfo.size <$> take i tiles);
               IndexEntry.size := TileInfo.size tile |}.
Proof.
  intros H Hz Hi first compressed.
  destruct (writeIndex_parts _ _ _ _ _ _ H)
    as (frag & consumed & rest & -> & Hlen & Hlog & Hall & Hs & Hp).
  cbv zeta in Hz. subst compressed first. rewrite Hs, Hp.
  rewrite slice_middle by reflexivity. rewrite Hz. cbn [mbind result_bind].
  rewrite Hlog in Hi |- *. rewrite length_fmap in Hi.
  destruct (lookup_lt_is_Some_2 consumed i Hi) as [tile Ht].
  exists tile. split; [by apply lookup_app_l_Some|].
  rewrite (pyramid_entry _ i (TileInfo.size tile)).
  - rewrite take_app_le by lia. rewrite <- fmap_take. reflexivity.
  - apply Forall_fmap. apply Forall_app in Hall as [Hc _].
    eapply Forall_impl; [exact Hc|]. intros t. cbn. rewrite MAX_TILE_SIZE_eq. lia.
  - rewrite list_lookup_fmap, Ht. reflexivity.
Qed.

(** X15. [writeIndex] does not return when a tile of the size stream is
    larger than [MAX_TILE_SIZE] ([2^20 - 1] bytes), in the pyramid or in a
    fragment. *)
Theorem writeIndex_rejects_large_tile zlibSync (stream : Buffer) tiles metadata
  pyramidMaxZoom tile :
  tile ∈ tiles ->
  Converter.MAX_TILE_SIZE < TileInfo.size tile ->
  isOk (Converter.writeIndex zlibSync stream tiles metadata pyramidMaxZoom) = false.
Proof.
  intros Hin Hsz.
  destruct (Converter.writeIndex _ _ _ _ _) as [r|e] eqn:E; [|reflexivity].
  apply writeIndex_parts in E as (_ & _ & _ & _ & _ & _ & Hall & _).
  pose proof (proj1 (Forall_forall _ _) Hall tile Hin). cbn in *. lia.
Qed.

Lemma pyramidLoopBody_run st i tile rest :
  Converter.p_tileIterator st = tile :: rest ->
  0 <= TileInfo.size tile <= Converter.MAX_TILE_SIZE ->
  exists st', Converter.pyramidLoopBody st i = Ok st'
              /\ Converter.p_tileIterator st' = rest.
Proof.
  intros Hit Hsz. unfold Converter.pyramidLoopBody. rewrite Hit.
  unfold Converter.validateTileSize.
  destruct (Z.ltb_spec Converter.MAX_TILE_SIZE (TileInfo.size tile)); [lia|].
  cbn [mbind result_bind]. unfold Encoder.toBytesLE, Converter.NUM_BYTES_TILE_SIZE.
  rewrite MAX_TILE_SIZE_eq in Hsz.
  destruct (Z.leb_spec 0 (TileInfo.size tile)); [|lia].
  destruct (Z.ltb_spec (TileInfo.size tile) (256 ^ 3)); [|lia].
  cbn [andb mbind result_bind]. eexists. split; reflexivity.
Qed.

Lemma pyramidLoop_short (tiles : list TileInfo.t) :
  forall k n st,
    Converter.p_tileIterator st = tiles ->
    Forall (fun t => 0 <= TileInfo.size t <= Converter.MAX_TILE_SIZE) tiles ->
    Z.of_nat (length tiles) < n ->
    forEach Converter.pyramidLoopBody (seqZ k n) st = Throw TypeError.
Proof.
  induction tiles as [|tile tiles IH]; intros k n st Hit Hall Hn.
  - rewrite seqZ_cons by (cbn [length] in Hn; lia). cbn [forEach].
    unfold Converter.pyramidLoopBody. rewrite Hit. reflexivity.
  - cbn [length] in Hn. rewrite seqZ_cons by lia. cbn [forEach].
    apply Forall_cons in Hall as [Hsz Hall].
    destruct (pyramidLoopBody_run st k tile tiles Hit Hsz) as (st' & -> & Hit').
    cbn [mbind result_bind]. apply IH; [done|done|lia].
Qed.

(** X16. When the size stream has fewer tiles than the pyramid has index
    entries ([calculateNumTiles] of the zooms up to [pyramidMaxZoom]),
    [writeIndex] ends with a [TypeError]: the first loop reads the size of a
    record that is not there.  The metadata passes the [ComtIndex]
    constructor and the sizes of the tiles are valid. *)
Theorem writeIndex_short_stream zlibSync (stream : Buffer) tiles metadata
  pyramidMaxZoom :
  isOk (ComtIndex.new metadata) = true ->
  Forall (fun t => 0 <= TileInfo.size t <= Converter.MAX_TILE_SIZE) tiles ->
  Z.of_nat (length tiles)
  < Converter.calculateNumTiles
      (filter (fun set => zoom set <= pyramidMaxZoom)
         (tileMatrix (tileMatrixSet metadata))) ->
  Converter.writeIndex zlibSync stream tiles metadata pyramidMaxZoom = Throw TypeError.
Proof.
  intros Hnew Hall Hn. unfold Converter.writeIndex.
  destruct (ComtIndex.new metadata) as [comtIndex|]; [|done].
  cbn [mbind result_bind].
  set (n := Converter.calculateNumTiles _) in *.
  unfold NodeBuffer.alloc, Converter.NUM_BYTES_TILE_SIZE.
  destruct (Z.ltb_spec (n * 3) 0); [lia|]. cbn [mbind result_bind].
  rewrite (pyramidLoop_short tiles); [reflexivity|reflexivity|done|done].
Qed.

Lemma writeIndex_short_stream_witness :
  Converter.writeIndex Fixture.frame [] (take 3 Fixture.smallTiles) Fixture.small 1
  = Throw TypeError.
Proof.
  apply (writeIndex_short_stream Fixture.frame [] (take 3 Fixture.smallTiles)
           Fixture.small 1).
  - reflexivity.
  - repeat constructor; vm_compute; discriminate.
  - vm_compute. reflexivity.
Defined.

Lemma writeIndex_rejects_large_tile_witness :
  isOk (Converter.writeIndex Fixture.frame []
          (Fixture.smallTiles ++ [Fixture.tile 2 3 0 1048576 (Some 0)])
          Fixture.small 1) = false.
Proof.
  apply (writeIndex_rejects_large_tile Fixture.frame []
           (Fixture.smallTiles ++ [Fixture.tile 2 3 0 1048576 (Some 0)])
           Fixture.small 1 (Fixture.tile 2 3 0 1048576 (Some 0))).
  - apply elem_of_app. right. apply list_elem_of_here.
  - vm_compute. reflexivity.
Defined.

Lemma fragment_tail comtIndex f (tiles : list TileInfo.t) :
  forall st st',
    forEach (Converter.fragmentLoopBody comtIndex) tiles st = Ok st' ->
    Converter.previousFragmentIndex st = Some f ->
    Forall (fun t => TileInfo.fragmentIndex t = Some f) tiles ->
    tileIndexOf comtIndex <$> tiles
    = Ok <$> seqZ (Converter.previousIndex st + 1) (Z.of_nat (length tiles)) ->
    Converter.stream st'
    = Converter.stream st ++ concat (NodeBuffer.le 3 <$> (TileInfo.size <$> tiles))
    /\ Forall (fun s => 0 <= s < 2 ^ 24) (TileInfo.size <$> tiles).
Proof.
  induction tiles as [|tile tiles IH]; intros st st' H Hf Hall Hidx.
  - cbn in H. injection H as <-. cbn. rewrite app_nil_r. split; [done|constructor].
  - cbn [forEach] in H.
    destruct (Converter.fragmentLoopBody comtIndex st tile) as [st1|e] eqn:E1; [|done].
    cbn [mbind result_bind] in H.
    apply Forall_cons in Hall as [Hft Hall].
    cbn [length] in Hidx. rewrite seqZ_cons in Hidx by lia.
    cbn [fmap list_fmap] in Hidx. injection Hidx as Hi0 Hidx.
    pose proof (fragmentLoopBody_fits _ _ _ _ E1) as [Hsz _].
    apply fragmentLoopBody_ok in E1
      as (off & idx & Hcalc & _ & S1 & _ & _ & _ & F1 & P1).
    unfold tileIndexOf in Hi0. rewrite Hcalc in Hi0. cbn in Hi0. injection Hi0 as ->.
    rewrite Hft, Hf in S1. cbn [JS.gtOpt] in S1. rewrite Z.ltb_irrefl in S1.
    replace (Z.to_nat (_ - _ - 1)) with 0%nat in S1 by lia.
    cbn [replicate Nat.mul app] in S1.
    destruct (IH st1 st' H) as [S2 A2].
    + congruence.
    + done.
    + rewrite P1. replace (Z.pred (Z.of_nat (S (length tiles)))) with
        (Z.of_nat (length tiles)) in Hidx by lia.
      replace (Z.succ (Converter.previousIndex st + 1))
        with (Converter.previousIndex st + 1 + 1) in Hidx by lia. exact Hidx.
    + split.
      * rewrite S2, S1. cbn [fmap list_fmap concat]. by rewrite <- app_assoc.
      * cbn [fmap list_fmap]. constructor; [|exact A2].
        rewrite MAX_TILE_SIZE_eq in Hsz. lia.
Qed.

(** X17. For the tiles of one fragment with no missing tile (the first one
    starts the fragment, the indices follow [previousIndex] one by one), the
    second loop of [writeIndex] appends to the stream the bytes that
    [encodeFragmentByteAligned] gives for [dataSectionOffset] and the sizes of
    the tiles. *)
Theorem fragment_loop_writes_encoded_fragment comtIndex st st' f tile
  (tiles : list TileInfo.t) :
  forEach (Converter.fragmentLoopBody comtIndex) (tile :: tiles) st = Ok st' ->
  Forall (fun t => TileInfo.fragmentIndex t = Some f) (tile :: tiles) ->
  JS.gtOpt (Some f) (Converter.previousFragmentIndex st) = true ->
  tileIndexOf comtIndex <$> (tile :: tiles)
  = Ok <$> seqZ (Converter.previousIndex st + 1) (Z.of_nat (length (tile :: tiles))) ->
  exists fragment,
    Encoder.encodeFragmentByteAligned (Converter.dataSectionOffset st)
      (TileInfo.size <$> (tile :: tiles)) = Ok fragment
    /\ Converter.stream st' = Converter.stream st ++ fragment.
Proof.
  intros H Hall Hnew Hidx.
  cbn [forEach] in H.
  destruct (Converter.fragmentLoopBody comtIndex st tile) as [st1|e] eqn:E1; [|done].
  cbn [mbind result_bind] in H.
  apply Forall_cons in Hall as [Hft Hall].
  cbn [length] in Hidx. rewrite seqZ_cons in Hidx by lia.
  cbn [fmap list_fmap] in Hidx. injection Hidx as Hi0 Hidx.
  pose proof (fragmentLoopBody_fits _ _ _ _ E1) as [Hsz Hdso].
  rewrite Hft in Hdso. specialize (Hdso Hnew).
  apply fragmentLoopBody_ok in E1
    as (off & idx & Hcalc & _ & S1 & _ & _ & _ & F1 & P1).
  unfold tileIndexOf in Hi0. rewrite Hcalc in Hi0. cbn in Hi0. injection Hi0 as ->.
  rewrite Hft, Hnew in S1.
  replace (Z.to_nat (_ - _ - 1)) with 0%nat in S1 by lia.
  cbn [replicate Nat.mul app] in S1.
  destruct (fragment_tail comtIndex f tiles st1 st' H) as [S2 A2].
  - congruence.
  - done.
  - rewrite P1. replace (Z.pred (Z.of_nat (S (length tiles)))) with
      (Z.of_nat (length tiles)) in Hidx by lia.
    replace (Z.succ (Converter.previousIndex st + 1))
      with (Converter.previousIndex st + 1 + 1) in Hidx by lia. exact Hidx.
  - rewrite encodeFragmentByteAligned_eq.
    + eexists. split; [reflexivity|]. rewrite S2, S1.
      cbn [fmap list_fmap concat]. by rewrite <- !app_assoc.
    + done.
    + cbn [fmap list_fmap]. constructor; [|exact A2].
      rewrite MAX_TILE_SIZE_eq in Hsz. lia.
Qed.

(** ** The index cache *)

Lemma initIndex_header c h c' :
  initIndex c h = Ok c' -> header c' = Some h.
Proof.
  unfold initIndex. intros H.
  destruct (IndexCache_new _ _ _ _ _) as [ic|]; [|done]. cbn [mbind result_bind] in H.
  destruct (ComtIndex.new _) as [ci|]; [|done]. cbn [mbind result_bind] in H.
  by injection H as <-.
Qed.

(** X18. A request that [getIndexEntry] has answered is answered again with
    the same result and leaves the cache as it is; when the result is an
    entry, [IndexCache.get] finds it in the cache that the first request left
    behind, and the absolute offset is the data offset plus the entry's
    offset. *)
Theorem getIndexEntry_repeated unzlibSync JSON_parse (c : ComtCache) xyz res c' :
  getIndexEntry unzlibSync JSON_parse c xyz = Ok (res, c') ->
  getIndexEntry unzlibSync JSON_parse c' xyz = Ok (res, c')
  /\ forall e absoluteTileOffset,
       res = Some (e, absoluteTileOffset) ->
       exists h ic,
         header c' = Some h /\ indexCache c' = Some ic
         /\ absoluteTileOffset = dataOffset h + IndexEntry.offset e
         /\ IndexCache_get unzlibSync ic
              {| TileIndex.z := TileIndex.z xyz; TileIndex.x := TileIndex.x xyz;
                 TileIndex.y := JS.shl 1 (TileIndex.z xyz) - TileIndex.y xyz - 1 |}
            = Ok (Some e).
Proof.
  unfold getIndexEntry at 1. intros H.
  destruct (match header c with Some _ => Ok c | None => _ end) as [c1|] eqn:E1; [|done].
  cbn [mbind result_bind] in H.
  assert (exists h, header c1 = Some h) as [h Hh].
  { destruct (header c) as [h0|] eqn:Hc.
    - injection E1 as <-. eauto.
    - destruct (loadHeader JSON_parse (comtUrl c)) as [h|]; [|done].
      cbn [mbind result_bind] in E1. apply initIndex_header in E1. eauto. }
  rewrite Hh in H. destruct (indexCache c1) as [ic|] eqn:Hic; [|done].
  set (tmsIndex := {| TileIndex.z := TileIndex.z xyz; TileIndex.x := TileIndex.x xyz;
                      TileIndex.y := JS.shl 1 (TileIndex.z xyz) - TileIndex.y xyz - 1 |}) in *.
  destruct (match (if TileIndex.z xyz <? 0 then None else _) with
            | Some tm => Ok tm | None => Throw TypeError end) as [tm|] eqn:Etm; [|done].
  cbn [mbind result_bind] in H.
  destruct (_ || _) eqn:Eout.
  - (* outside the limits *)
    injection H as <- <-. split; [|intros ? ? [=]].
    unfold getIndexEntry. rewrite Hh. cbn [mbind result_bind]. rewrite Hh, Hic, Etm.
    cbn [mbind result_bind]. rewrite Eout. reflexivity.
  - destruct (IndexCache_get unzlibSync ic tmsIndex) as [cached|] eqn:Eget; [|done].
    cbn [mbind result_bind] in H.
    destruct cached as [e|].
    + (* served from the cache *)
      cbn [mbind result_bind fst snd] in H. injection H as <- <-.
      split.
      * unfold getIndexEntry. rewrite Hh. cbn [mbind result_bind]. rewrite Hh, Hic, Etm.
        cbn [mbind result_bind]. rewrite Eout. fold tmsIndex. rewrite Eget.
        reflexivity.
      * intros e' a [= <- <-]. exists h, ic. done.
    + (* fetched *)
      unfold fetchIndexEntry in H. rewrite Hh, Hic in H.
      destruct (comtIndex c1) as [ci|] eqn:Hci; [|done].
      destruct (ComtIndex.getFragmentRangeForTile _ _ _ _ _ _) as [range|]; [|done].
      cbn [mbind result_bind] in H.
      destruct (fetchBinaryData _ _ _) as [fragment|]; [|done].
      cbn [mbind result_bind] in H.
      destruct (IndexCache_get unzlibSync (setIndexFragment ic range fragment) tmsIndex)
        as [[e|]|] eqn:Eget2; [| done | done].
      cbn [mbind result_bind fst snd] in H. injection H as <- <-.
      split.
      * unfold getIndexEntry. cbn [header indexCache mbind result_bind]. rewrite Etm.
        cbn [mbind result_bind]. rewrite Eout.
        fold tmsIndex. rewrite Eget2. reflexivity.
      * intros e' a [= <- <-]. eexists h, _. cbn [header indexCache].
        split; [reflexivity|]. split; [reflexivity|]. split; [reflexivity|]. exact Eget2.
Qed.

Lemma IndexCache_new_ok metadata partialIndex indexOffset pyramidIndexLength
  fragmentIndexLength ic :
  IndexCache_new metadata partialIndex indexOffset pyramidIndexLength
    fragmentIndexLength = Ok ic ->
  ic_comtIndex ic = tileMatrixSet metadata
  /\ ic_partialIndex ic = partialIndex /\ ic_indexOffset ic = indexOffset
  /\ ic_pyramidIndexLength ic = pyramidIndexLength
  /\ fragmentedIndex ic = ∅.
Proof.
  unfold IndexCache_new, ComtIndex.new. intros H.
  destruct (negb _); [done|].
  destruct (tileMatrixCRS _) as [crs|].
  - destruct (bool_decide _); [|done]. cbn in H. by injection H as <-.
  - cbn in H. by injection H as <-.
Qed.

(** X19. A new [IndexCache] answers [null] for every tile inside the limits
    of a zoom of 8 or more: [get] does not read the pyramid for it and finds
    no fragment. *)
Theorem IndexCache_get_miss unzlibSync metadata (partialIndex : Buffer) indexOffset
  pyramidIndexLength fragmentIndexLength ic tm z x y :
  IndexCache_new metadata partialIndex indexOffset pyramidIndexLength
    fragmentIndexLength = Ok ic ->
  8 <= z ->
  Spec.onlyZoom (tileMatrixSet metadata) z tm ->
  ComtIndex.inRange x y (tileMatrixLimits tm) = true ->
  0 <= minTileCol (tileMatrixLimits tm) ->
  0 <= minTileRow (tileMatrixLimits tm) ->
  IndexCache_get unzlibSync ic {| TileIndex.z := z; TileIndex.x := x; TileIndex.y := y |}
  = Ok None.
Proof.
  intros Hnew Hz Honly Hin Hc Hr.
  apply IndexCache_new_ok in Hnew as (Hci & _ & _ & _ & Hempty).
  unfold IndexCache_get. cbn [TileIndex.z TileIndex.x TileIndex.y]. rewrite Hci.
  destruct (calculateIndexOffsetForTile_index _ z tm x y Honly Hin Hc Hr) as (k & _ & ->).
  cbn [mbind result_bind snd].
  pose proof (fragmentRange_fold_isOk z x y (ic_indexOffset ic) (ic_pyramidIndexLength ic)
                (tileMatrix (tileMatrixSet metadata)) tm
                {| fragmentIndex := 0; startOffset := 0; endOffset := 0 |} Honly) as Hok.
  rewrite Hin, orb_true_r in Hok. unfold ComtIndex.getFragmentRangeForTile.
  destruct (forEach _ _ _) as [range|]; [|done]. cbn [mbind result_bind].
  unfold inPartialIndex. destruct (Z.ltb_spec z 8); [lia|].
  rewrite andb_false_r, Hempty, lookup_empty. reflexivity.
Qed.

Lemma IndexCache_get_miss_witness :
  IndexCache_get Fixture.unframe Fixture.deepIndexCache
    {| TileIndex.z := 8; TileIndex.x := 1; TileIndex.y := 0 |}
  = Ok None.
Proof.
  apply (IndexCache_get_miss Fixture.unframe Fixture.deep
           (Fixture.frame Fixture.deepPyramid) 26 30 11 Fixture.deepIndexCache
           (Fixture.matrix 8 6 (Fixture.limits 0 0 1 0)) 8 1 0).
  - reflexivity.
  - lia.
  - reflexivity.
  - reflexivity.
  - simpl. lia.
  - simpl. lia.
Defined.

(** ** The bit-aligned encoder *)

Lemma shl4_low s : 0 <= s < 2 ^ 20 -> JS.band (JS.shl s 4) 255 = (s * 16) mod 256.
Proof.
  intros H. unfold JS.shl. rewrite (ToInt32_small s) by lia.
  change (4 mod 32) with 4. rewrite Z.shiftl_mul_pow2 by lia.
  change (2 ^ 4) with 16. rewrite (ToInt32_small (s * 16)) by lia.
  apply band_255. lia.
Qed.

Lemma bor_zero x : 0 <= x < 2 ^ 31 -> JS.bor 0 x = x.
Proof. intros H. unfold JS.bor. rewrite (ToInt32_small x) by lia. reflexivity. Qed.

Lemma at_middle (pre rest : Buffer) v :
  NodeBuffer.index (pre ++ v :: rest) (Z.of_nat (length pre)) = v.
Proof.
  unfold NodeBuffer.index. destruct (Z.ltb_spec (Z.of_nat (length pre)) 0); [lia|].
  rewrite Nat2Z.id, list_lookup_middle by done. reflexivity.
Qed.

Lemma write3 (pre rest : Buffer) o0 o1 o2 v0 v1 v2 (k : Buffer -> result (Buffer * Z)) :
  0 <= v0 < 256 -> 0 <= v1 < 256 -> 0 <= v2 < 256 ->
  (b1 ← NodeBuffer.writeUint8 (pre ++ o0 :: o1 :: o2 :: rest) v0 (Z.of_nat (length pre));
   b2 ← NodeBuffer.writeUint8 b1 v1 (Z.of_nat (length pre) + 1);
   b3 ← NodeBuffer.writeUint8 b2 v2 (Z.of_nat (length pre) + 2);
   k b3)
  = k (pre ++ [v0; v1; v2] ++ rest).
Proof.
  intros H0 H1 H2. rewrite writeUint8_app by done. cbn [mbind result_bind].
  replace (Z.of_nat (length pre) + 1) with (Z.of_nat (length (pre ++ [v0])))
    by (rewrite length_app; cbn [length]; lia).
  rewrite (cons_middle v0), app_assoc, writeUint8_app by done. cbn [mbind result_bind].
  replace (Z.of_nat (length pre) + 2) with (Z.of_nat (length ((pre ++ [v0]) ++ [v1])))
    by (rewrite !length_app; cbn [length]; lia).
  rewrite (cons_middle v1), app_assoc, writeUint8_app by done. cbn [mbind result_bind].
  by rewrite <- !app_assoc.
Qed.

Section TwentyBits.

Variable maxTileSize : Z.
Hypothesis Hmax : maxTileSize < 2 ^ 20.

Lemma encodeTileSize_aligned (pre rest : Buffer) x1 x2 a :
  0 <= a <= maxTileSize ->
  (BitAligned.encodeTileSize 20 maxTileSize) (pre ++ 0 :: x1 :: x2 :: rest, 8 * Z.of_nat (length pre)) a
  = Ok (pre ++ [(a * 16) mod 256; (a / 16) mod 256; a / 4096] ++ rest,
        8 * Z.of_nat (length pre) + 20).
Proof.
  intros Ha. unfold BitAligned.encodeTileSize.
  destruct (Z.ltb_spec maxTileSize a); [lia|].
  unfold JS.floorDiv, JS.rem.
  replace (8 * Z.of_nat (length pre)) with (Z.of_nat (length pre) * 8) by lia.
  rewrite Z.div_mul, Z.rem_mul by lia. cbn [Z.eqb].
  rewrite at_middle, shl4_low by lia.
  rewrite bor_zero by (pose proof (Z.mod_pos_bound (a * 16) 256); lia).
  rewrite !shr_small by lia.
  rewrite band_255
    by (first [lia | split; [apply Z.div_pos; lia | apply Z.div_lt_upper_bound; lia]]).
  change (2 ^ 4) with 16. change (2 ^ 12) with 4096.
  apply (write3 pre rest 0 x1 x2 _ _ _ (fun b => Ok (b, _))).
  - apply Z.mod_pos_bound. lia.
  - apply Z.mod_pos_bound. lia.
  - split; [apply Z.div_pos; lia|]. apply Z.div_lt_upper_bound; lia.
Qed.

Lemma encodeTileSize_shifted (pre rest : Buffer) o0 o1 o2 b :
  0 <= b <= maxTileSize ->
  (BitAligned.encodeTileSize 20 maxTileSize) (pre ++ o0 :: o1 :: o2 :: rest, 8 * Z.of_nat (length pre) + 4) b
  = Ok (pre ++ [b mod 256; (b / 256) mod 256; b / 65536] ++ rest,
        8 * Z.of_nat (length pre) + 24).
Proof.
  intros Hb. unfold BitAligned.encodeTileSize.
  destruct (Z.ltb_spec maxTileSize b); [lia|].
  unfold JS.floorDiv, JS.rem.
  replace (8 * Z.of_nat (length pre) + 4) with (4 + Z.of_nat (length pre) * 8) by lia.
  rewrite Z.div_add, Z.rem_add by lia.
  change (4 / 8) with 0. change (Z.rem 4 8) with 4. cbn [Z.eqb Z.add].
  rewrite !shr_small by lia.
  rewrite !band_255
    by (first [lia | split; [apply Z.div_pos; lia | apply Z.div_lt_upper_bound; lia]]).
  change (2 ^ 8) with 256. change (2 ^ 16) with 65536.
  replace (4 + Z.of_nat (length pre) * 8 + 20) with (8 * Z.of_nat (length pre) + 24) by lia.
  apply (write3 pre rest o0 o1 o2 _ _ _ (fun b => Ok (b, _))).
  - apply Z.mod_pos_bound. lia.
  - apply Z.mod_pos_bound. lia.
  - split; [apply Z.div_pos; lia|]. apply Z.div_lt_upper_bound; lia.
Qed.

Lemma forEach_bitAligned (n : nat) :
  forall (tileSizes : list Z) (pre : Buffer),
    (length tileSizes <= n)%nat ->
    Forall (fun s => 0 <= s <= maxTileSize) tileSizes ->
    forEach (BitAligned.encodeTileSize 20 maxTileSize) tileSizes
      (pre ++ replicate (length (packBitAligned tileSizes)) 0, 8 * Z.of_nat (length pre))
    = Ok (pre ++ packBitAligned tileSizes,
          8 * Z.of_nat (length pre) + 20 * Z.of_nat (length tileSizes)).
Proof.
  induction n as [|n IH]; intros tileSizes pre Hn Hall.
  - destruct tileSizes; [|cbn [length] in Hn; lia].
    cbn. rewrite app_nil_r. do 2 f_equal. lia.
  - destruct tileSizes as [|a [|b rest]].
    + cbn. rewrite app_nil_r. do 2 f_equal. lia.
    + apply Forall_cons in Hall as [Ha _].
      cbn [packBitAligned length replicate forEach].
      rewrite (encodeTileSize_aligned pre [] 0 0 a Ha). cbn [mbind result_bind].
      do 2 f_equal; try lia.
    + apply Forall_cons in Hall as [Ha Hall]. apply Forall_cons in Hall as [Hb Hall].
      cbn [packBitAligned forEach]. rewrite length_app. cbn [length Nat.add replicate].
      rewrite (encodeTileSize_aligned pre _ 0 0 a Ha). cbn [mbind result_bind].
      replace (pre ++ [a * 16 mod 256; a / 16 mod 256; a / 4096]
                 ++ 0 :: 0 :: replicate (length (packBitAligned rest)) 0)
        with ((pre ++ [a * 16 mod 256; a / 16 mod 256])
                ++ a / 4096 :: 0 :: 0 :: replicate (length (packBitAligned rest)) 0)
        by (by rewrite <- app_assoc).
      replace (8 * Z.of_nat (length pre) + 20)
        with (8 * Z.of_nat (length (pre ++ [a * 16 mod 256; a / 16 mod 256])) + 4)
        by (rewrite length_app; cbn [length]; lia).
      rewrite (encodeTileSize_shifted _ _ _ _ _ b Hb). cbn [mbind result_bind].
      replace ((pre ++ [a * 16 mod 256; a / 16 mod 256])
                 ++ [b mod 256; b / 256 mod 256; b / 65536]
                 ++ replicate (length (packBitAligned rest)) 0)
        with ((pre ++ [a * 16 mod 256; a / 16 mod 256; b mod 256; b / 256 mod 256;
                       b / 65536])
                ++ replicate (length (packBitAligned rest)) 0)
        by (by rewrite <- !app_assoc).
      replace (8 * Z.of_nat (length (pre ++ [a * 16 mod 256; a / 16 mod 256])) + 24)
        with (8 * Z.of_nat (length (pre ++ [a * 16 mod 256; a / 16 mod 256; b mod 256;
                                            b / 256 mod 256; b / 65536])))
        by (rewrite !length_app; cbn [length]; lia).
      rewrite IH; [|cbn [length] in Hn; lia|done].
      rewrite <- !app_assoc. do 2 f_equal.
      rewrite !length_app. cbn [length]. lia.
Qed.

End TwentyBits.

Lemma length_packBitAligned (n : nat) :
  forall tileSizes : list Z,
    (length tileSizes <= n)%nat ->
    Z.of_nat (length (packBitAligned tileSizes))
    = JS.ceilDiv (Z.of_nat (length tileSizes) * 20) 8.
Proof.
  unfold JS.ceilDiv.
  induction n as [|n IH]; intros tileSizes Hn.
  - destruct tileSizes; [reflexivity|cbn [length] in Hn; lia].
  - destruct tileSizes as [|a [|b rest]]; [reflexivity|reflexivity|].
    cbn [packBitAligned]. rewrite length_app. cbn [length] in *.
    rewrite Nat2Z.inj_add, IH by lia.
    replace (- (Z.of_nat (S (S (length rest))) * 20))
      with (- (Z.of_nat (length rest) * 20) + (-5) * 8) by lia.
    rewrite Z.div_add by lia. lia.
Qed.

(** The result of [encodeIndexFragmentBitAligned] in closed form. *)
Lemma encodeIndexFragmentBitAligned_eq maxTileSize absoluteOffset (tileSizes : list Z) :
  maxTileSize < 2 ^ 20 ->
  0 <= absoluteOffset < 2 ^ 40 ->
  Forall (fun s => 0 <= s <= maxTileSize) tileSizes ->
  BitAligned.encodeIndexFragmentBitAligned 20 maxTileSize absoluteOffset tileSizes
  = Ok (NodeBuffer.le 5 absoluteOffset ++ packBitAligned tileSizes).
Proof.
  intros Hmax Hoff Hall. unfold BitAligned.encodeIndexFragmentBitAligned.
  unfold Encoder.indexOffsetBitWidth, Encoder.indexOffsetByteWidth.
  assert (JS.ceilDiv (40 + Z.of_nat (length tileSizes) * 20) 8
          = Z.of_nat (5 + length (packBitAligned tileSizes))) as ->.
  { rewrite Nat2Z.inj_add, (length_packBitAligned (length tileSizes)) by lia.
    unfold JS.ceilDiv.
    replace (- (40 + Z.of_nat (length tileSizes) * 20))
      with (- (Z.of_nat (length tileSizes) * 20) + (-5) * 8) by lia.
    rewrite Z.div_add by lia. lia. }
  unfold NodeBuffer.alloc.
  destruct (Z.ltb_spec (Z.of_nat (5 + length (packBitAligned tileSizes))) 0); [lia|].
  cbn [mbind result_bind]. rewrite Nat2Z.id.
  unfold Encoder.toBytesLE.
  destruct (Z.leb_spec 0 absoluteOffset); [|lia].
  destruct (Z.ltb_spec absoluteOffset (256 ^ 5)); [|lia].
  cbn [andb mbind result_bind]. change (Z.to_nat 5) with 5%nat.
  pose proof (fill_prefix (NodeBuffer.le 5 absoluteOffset)
                (length (packBitAligned tileSizes)) ltac:(done)) as Hfill.
  rewrite length_le in Hfill. change (Z.of_nat 5) with 5 in Hfill. rewrite Hfill.
  pose proof (forEach_bitAligned maxTileSize Hmax (length tileSizes) tileSizes
                (NodeBuffer.le 5 absoluteOffset) ltac:(lia) Hall) as Hloop.
  rewrite length_le in Hloop. change (8 * Z.of_nat 5) with 40 in Hloop.
  rewrite Hloop. reflexivity.
Qed.

(** X21. With entries of 20 bits, [encodeIndexFragmentBitAligned] returns, for
    tile sizes up to a maximum below [2^20] and an offset that fits 5 bytes,
    the 5 bytes of the offset followed by [packBitAligned] of the sizes:
    [⌈(40 + 20·n) / 8⌉] bytes whose first five decode to the offset. *)
Theorem encodeIndexFragmentBitAligned_layout maxTileSize absoluteOffset
  (tileSizes : list Z) :
  maxTileSize < 2 ^ 20 ->
  0 <= absoluteOffset < 2 ^ 40 ->
  Forall (fun s => 0 <= s <= maxTileSize) tileSizes ->
  exists fragment,
    BitAligned.encodeIndexFragmentBitAligned 20 maxTileSize absoluteOffset tileSizes
    = Ok fragment
    /\ fragment = NodeBuffer.le 5 absoluteOffset ++ packBitAligned tileSizes
    /\ Z.of_nat (length fragment)
       = JS.ceilDiv (40 + Z.of_nat (length tileSizes) * 20) 8
    /\ Utils.convertUInt40LEToNumber fragment 0 = Ok absoluteOffset.
Proof.
  intros Hmax Hoff Hall. eexists. split; [by apply encodeIndexFragmentBitAligned_eq|].
  split; [reflexivity|]. split.
  - rewrite length_app, length_le, Nat2Z.inj_add,
      (length_packBitAligned (length tileSizes)) by lia.
    unfold JS.ceilDiv.
    replace (- (40 + Z.of_nat (length tileSizes) * 20))
      with (- (Z.of_nat (length tileSizes) * 20) + (-5) * 8) by lia.
    rewrite Z.div_add by lia. lia.
  - by apply convertUInt40LE_le5.
Qed.

Lemma encodeIndexFragmentBitAligned_layout_witness :
  exists fragment,
    BitAligned.encodeIndexFragmentBitAligned 20 1048575 1000 [1; 2; 4096] = Ok fragment
    /\ fragment = NodeBuffer.le 5 1000 ++ packBitAligned [1; 2; 4096]
    /\ Z.of_nat (length fragment)
       = JS.ceilDiv (40 + Z.of_nat (length [1; 2; 4096]) * 20) 8
    /\ Utils.convertUInt40LEToNumber fragment 0 = Ok 1000.
Proof.
  apply (encodeIndexFragmentBitAligned_layout 1048575 1000 [1; 2; 4096]).
  - lia.
  - lia.
  - repeat constructor; lia.
Defined.

Lemma low_bytes_mod a a' :
  a mod 4096 = a' mod 4096 ->
  (a * 16) mod 256 = (a' * 16) mod 256 /\ (a / 16) mod 256 = (a' / 16) mod 256.
Proof.
  intros H.
  pose proof (Z.div_mod a 4096 ltac:(lia)) as E.
  pose proof (Z.div_mod a' 4096 ltac:(lia)) as E'.
  rewrite <- H in E'. set (r := a mod 4096) in *.
  set (q := a / 4096) in *. set (q' := a' / 4096) in *.
  rewrite E, E'. split.
  - replace ((4096 * q + r) * 16) with (r * 16 + (256 * q) * 256) by lia.
    replace ((4096 * q' + r) * 16) with (r * 16 + (256 * q') * 256) by lia.
    by rewrite !Z.mod_add by lia.
  - replace (4096 * q + r) with (r + (256 * q) * 16) by lia.
    replace (4096 * q' + r) with (r + (256 * q') * 16) by lia.
    rewrite !Z.div_add by lia.
    replace (r / 16 + 256 * q) with (r / 16 + q * 256) by lia.
    replace (r / 16 + 256 * q') with (r / 16 + q' * 256) by lia.
    by rewrite !Z.mod_add by lia.
Qed.

Lemma packBitAligned_app (k : nat) :
  forall front tileSizes : list Z,
    length front = (2 * k)%nat ->
    packBitAligned (front ++ tileSizes) = packBitAligned front ++ packBitAligned tileSizes.
Proof.
  induction k as [|k IH]; intros front tileSizes Hlen.
  - destruct front; [reflexivity|cbn [length] in Hlen; lia].
  - destruct front as [|a [|b front]]; try (cbn [length] in Hlen; lia).
    cbn [app packBitAligned]. rewrite IH by (cbn [length] in Hlen; lia).
    reflexivity.
Qed.

(** X22. [encodeIndexFragmentBitAligned] loses the bits 12 to 19 of an entry
    that starts at a byte boundary and has a successor: two lists of tile
    sizes that differ only there encode to the same fragment. *)
Theorem encodeIndexFragmentBitAligned_drops_high_bits maxTileSize absoluteOffset
  (front : list Z) (k : nat) a a' b (rest : list Z) :
  maxTileSize < 2 ^ 20 ->
  0 <= absoluteOffset < 2 ^ 40 ->
  Forall (fun s => 0 <= s <= maxTileSize) (front ++ a :: b :: rest) ->
  0 <= a' <= maxTileSize ->
  length front = (2 * k)%nat ->
  a mod 4096 = a' mod 4096 ->
  exists fragment,
    BitAligned.encodeIndexFragmentBitAligned 20 maxTileSize absoluteOffset
      (front ++ a :: b :: rest) = Ok fragment
    /\ BitAligned.encodeIndexFragmentBitAligned 20 maxTileSize absoluteOffset
         (front ++ a' :: b :: rest) = Ok fragment.
Proof.
  intros Hmax Hoff Hall Ha' Hlen Hmod.
  assert (Forall (fun s => 0 <= s <= maxTileSize) (front ++ a' :: b :: rest)) as Hall'.
  { apply Forall_app in Hall as [Hf Hr]. apply Forall_cons in Hr as [_ Hr].
    apply Forall_app. split; [done|]. by constructor. }
  rewrite !encodeIndexFragmentBitAligned_eq by done.
  eexists. split; [reflexivity|].
  rewrite !(packBitAligned_app k) by done. cbn [packBitAligned].
  destruct (low_bytes_mod a a' Hmod) as [-> ->]. reflexivity.
Qed.

Lemma encodeIndexFragmentBitAligned_drops_high_bits_witness :
  exists fragment,
    BitAligned.encodeIndexFragmentBitAligned 20 1048575 1000 ([7; 8] ++ 5 :: 9 :: [3])
    = Ok fragment
    /\ BitAligned.encodeIndexFragmentBitAligned 20 1048575 1000
         ([7; 8] ++ 1040389 :: 9 :: [3]) = Ok fragment.
Proof.
  apply (encodeIndexFragmentBitAligned_drops_high_bits 1048575 1000 [7; 8] 1
           5 1040389 9 [3]).
  - lia.
  - lia.
  - repeat constructor; lia.
  - lia.
  - reflexivity.
  - reflexivity.
Defined.

Lemma forEach_throws {St A} (f : St -> A -> result St) (l : list A) a :
  a ∈ l -> (forall st, isOk (f st a) = false) ->
  forall st, isOk (forEach f l st) = false.
Proof.
  intros Hin Hf. induction l as [|x l IH]; intros st; [by apply elem_of_nil in Hin|].
  cbn [forEach]. apply elem_of_cons in Hin as [<-|Hin].
  - specialize (Hf st). destruct (f st a); [done|reflexivity].
  - destruct (f st x); [|reflexivity]. cbn [mbind result_bind]. by apply IH.
Qed.

(** X23. [encodeIndexFragmentBitAligned] does not return when a tile size is
    larger than [maxTileSize]. *)
Theorem encodeIndexFragmentBitAligned_rejects indexEntryBitWidth maxTileSize
  absoluteOffset (tileSizes : list Z) s :
  s ∈ tileSizes ->
  maxTileSize < s ->
  isOk (BitAligned.encodeIndexFragmentBitAligned indexEntryBitWidth maxTileSize
          absoluteOffset tileSizes) = false.
Proof.
  intros Hin Hs. unfold BitAligned.encodeIndexFragmentBitAligned.
  destruct (NodeBuffer.alloc _) as [buf|]; [|reflexivity]. cbn [mbind result_bind].
  destruct (Encoder.toBytesLE _ _) as [off|]; [|reflexivity]. cbn [mbind result_bind].
  assert (forall st, isOk (BitAligned.encodeTileSize indexEntryBitWidth maxTileSize st s)
                     = false) as Hstep.
  { intros [b c]. unfold BitAligned.encodeTileSize.
    destruct (Z.ltb_spec maxTileSize s); [reflexivity|lia]. }
  match goal with |- context [forEach ?f ?l ?st] =>
    pose proof (forEach_throws f l s Hin Hstep st) as H end.
  destruct (forEach _ _ _); [done|reflexivity].
Qed.

Lemma encodeIndexFragmentBitAligned_rejects_witness :
  isOk (BitAligned.encodeIndexFragmentBitAligned 20 1048575 1000 [1; 1048576]) = false.
Proof.
  apply (encodeIndexFragmentBitAligned_rejects 20 1048575 1000 [1; 1048576] 1048576).
  - apply list_elem_of_further, list_elem_of_here.
  - lia.
Defined.

(** ** The tile matrix factory *)

Lemma supportedOrdering_Some (s : string) :
  ComtIndex.supportedOrdering (Some s) = bool_decide (s = "RowMajor"%string).
Proof.
  unfold ComtIndex.supportedOrdering, ComtIndex.SUPPORTED_ORDERING. cbn [existsb].
  rewrite bool_decide_false by done. cbn [orb]. rewrite orb_false_r.
  apply bool_decide_ext. split; [by intros [= ->]|by intros ->].
Qed.

(** X24. The tile matrix set that [createWmqTileMatrixSet] builds passes the
    [ComtIndex] constructor exactly when both orderings are ["RowMajor"],
    which they are by default. *)
Theorem createWmqTileMatrixSet_accepted tileFormat tileMatrices fragmentOrdering
  tileOrdering :
  let created :=
    TileMatrixFactory.createWmqTileMatrixSet tileMatrices fragmentOrdering tileOrdering in
  ComtIndex.new {| tileFormat := tileFormat; tileMatrixSet := created |}
  = if bool_decide (default "RowMajor"%string fragmentOrdering = "RowMajor"%string)
       && bool_decide (default "RowMajor"%string tileOrdering = "RowMajor"%string)
    then Ok created
    else Throw (Error "The only supported fragment and tile ordering is ,RowMajor").
Proof.
  intros created. subst created.
  unfold ComtIndex.new, TileMatrixFactory.createWmqTileMatrixSet.
  match goal with |- context [forallb _ ?l] =>
    change l with [Some (default TileMatrixFactory.DEFAULT_SFC fragmentOrdering);
                   Some (default TileMatrixFactory.DEFAULT_SFC tileOrdering)] end.
  cbn [forallb]. rewrite !supportedOrdering_Some, andb_true_r.
  unfold TileMatrixFactory.DEFAULT_SFC.
  destruct (bool_decide _ && bool_decide _); reflexivity.
Qed.

(** ** A pyramid tile, written and read *)








(** ** Closed instances of the further properties *)

Lemma convertUInt24LEToNumber_total_witness :
  Utils.convertUInt24LEToNumber Fixture.deepFragment 8
  = (if (0 <=? 8) && (8 + 3 <=? Z.of_nat (length Fixture.deepFragment))
     then Ok (leValue (slice Fixture.deepFragment 8 (8 + 3)))
     else Throw RangeError).
Proof.
  apply (convertUInt24LEToNumber_total Fixture.deepFragment 8).
  repeat constructor; unfold isByte; lia.
Defined.

Lemma getIndexEntryPyramidSection_sizes_witness :
  getIndexEntryPyramidSection (Z.of_nat 3)
    (concat (NodeBuffer.le 3 <$> [10; 11; 12; 13; 14]))
  = match [10; 11; 12; 13; 14] !! 3%nat with
    | Some s => Ok {| IndexEntry.offset := sumZ (take 3 [10; 11; 12; 13; 14]);
                      IndexEntry.size := s |}
    | None => Throw RangeError
    end.
Proof.
  apply (getIndexEntryPyramidSection_sizes [10; 11; 12; 13; 14] 3).
  repeat constructor; lia.
Defined.

Lemma getIndexEntryFragmentSection_encoded_witness :
  (fragment ← Encoder.encodeFragmentByteAligned 8 [10; 20];
   getIndexEntryFragmentSection (Z.of_nat 1) fragment)
  = match [10; 20] !! 1%nat with
    | Some s => Ok {| IndexEntry.offset := 8 + sumZ (take 1 [10; 20]);
                      IndexEntry.size := s |}
    | None => Throw RangeError
    end.
Proof.
  apply (getIndexEntryFragmentSection_encoded 8 [10; 20] 1).
  - lia.
  - repeat constructor; lia.
Defined.

Lemma calculateIndexOffsetForTile_injective_witness :
  exists index index',
    ComtIndex.calculateIndexOffsetForTile Fixture.mixed 4 7 7 = Ok (3 * index, index)
    /\ ComtIndex.calculateIndexOffsetForTile Fixture.mixed 4 8 2 = Ok (3 * index', index')
    /\ (index = index' -> 7 = 8 /\ 7 = 2).
Proof.
  apply (calculateIndexOffsetForTile_injective Fixture.mixed 4
           (Fixture.matrix 4 3 (Fixture.limits 3 2 13 11)) 7 7 8 2).
  - reflexivity.
  - reflexivity.
  - reflexivity.
  - simpl. lia.
  - simpl. lia.
  - right. simpl. lia.
Defined.

Lemma calculateBounds_contains_tile_witness :
  let limit := Fixture.limits 3 2 13 11 in
  let sfb := ComtIndex.calculateBounds 3 limit (Some 9) (Some 4) in
  ComtIndex.inRange 9 4 sfb = true
  /\ minTileCol limit <= minTileCol sfb /\ maxTileCol sfb <= maxTileCol limit
  /\ minTileRow limit <= minTileRow sfb /\ maxTileRow sfb <= maxTileRow limit
  /\ maxTileCol sfb - minTileCol sfb + 1 <= 2 ^ 3
  /\ maxTileRow sfb - minTileRow sfb + 1 <= 2 ^ 3
  /\ minTileCol sfb / 2 ^ 3 = 9 / 2 ^ 3 /\ maxTileCol sfb / 2 ^ 3 = 9 / 2 ^ 3
  /\ minTileRow sfb / 2 ^ 3 = 4 / 2 ^ 3 /\ maxTileRow sfb / 2 ^ 3 = 4 / 2 ^ 3.
Proof.
  apply (calculateBounds_contains_tile 3 (Fixture.limits 3 2 13 11) 9 4).
  - reflexivity.
  - simpl. lia.
  - simpl. lia.
  - lia.
Defined.

Lemma pyramid_entry_of_written_index_witness :
  let first := Z.of_nat (length (@nil Z)) in
  let compressed := slice (Converter.s_stream Fixture.smallStats) first
                      (first + Converter.pyramidSectionLength Fixture.smallStats) in
  exists tile,
    Fixture.smallTiles !! 3%nat = Some tile
    /\ (pyramid ← Fixture.unframe compressed;
        getIndexEntryPyramidSection (Z.of_nat 3) pyramid)
       = Ok {| IndexEntry.offset := sumZ (TileInfo.size <$> take 3 Fixture.smallTiles);
               IndexEntry.size := TileInfo.size tile |}.
Proof.
  apply (pyramid_entry_of_written_index Fixture.frame Fixture.unframe []
           Fixture.smallTiles Fixture.small 1 Fixture.smallStats 3).
  - vm_compute. reflexivity.
  - vm_compute. reflexivity.
  - simpl. lia.
Defined.

Lemma fragment_loop_writes_encoded_fragment_witness :
  exists fragment,
    Encoder.encodeFragmentByteAligned
      (Converter.dataSectionOffset Fixture.beforeFragment)
      (TileInfo.size <$> [Fixture.tile 8 0 0 10 (Some 0); Fixture.tile 8 1 0 20 (Some 0)])
    = Ok fragment
    /\ Converter.stream Fixture.afterFragment
       = Converter.stream Fixture.beforeFragment ++ fragment.
Proof.
  apply (fragment_loop_writes_encoded_fragment (tileMatrixSet Fixture.deep)
           Fixture.beforeFragment Fixture.afterFragment 0
           (Fixture.tile 8 0 0 10 (Some 0)) [Fixture.tile 8 1 0 20 (Some 0)]).
  - vm_compute. reflexivity.
  - repeat constructor.
  - reflexivity.
  - vm_compute. reflexivity.
Defined.

Lemma getIndexEntry_repeated_witness :
  let res := Some ({| IndexEntry.offset := 8; IndexEntry.size := 10 |}, 75) in
  getIndexEntry Fixture.unframe Fixture.parse Fixture.deepCacheFetched
    (Fixture.tms 8 1 255) = Ok (res, Fixture.deepCacheFetched)
  /\ forall e absoluteTileOffset,
       res = Some (e, absoluteTileOffset) ->
       exists h ic,
         header Fixture.deepCacheFetched = Some h
         /\ indexCache Fixture.deepCacheFetched = Some ic
         /\ absoluteTileOffset = dataOffset h + IndexEntry.offset e
         /\ IndexCache_get Fixture.unframe ic
              {| TileIndex.z := TileIndex.z (Fixture.tms 8 1 255);
                 TileIndex.x := TileIndex.x (Fixture.tms 8 1 255);
                 TileIndex.y := JS.shl 1 (TileIndex.z (Fixture.tms 8 1 255))
                                - TileIndex.y (Fixture.tms 8 1 255) - 1 |}
            = Ok (Some e).
Proof.
  apply (getIndexEntry_repeated Fixture.unframe Fixture.parse Fixture.deepCache
           (Fixture.tms 8 1 255)).
  vm_compute. reflexivity.
Defined.

